(** * clientx: the request execution pipeline, its limiter and its retry controller

    A shallow embedding of the Go package [clientx] (client.go, api.go,
    circuitbreaker.go, the limiter and the backoff files) and the properties
    of its specification.

    Conventions of the embedding.
    - [int], [int64] and [time.Duration] are [Z]; where Go arithmetic can
      leave the 64-bit range the wrap-around is written out ([wrap64]).
    - [time.Time] is the number of nanoseconds since the zero time, so
      [Equal] is [=?] and [After] is [>?].
    - A Go [error] is a value of [error]; a nilable one is [option error].
    - A [float64] is a finite rational, an infinity or a NaN ([float64]);
      every operation rounds its exact result to the nearest value of 53
      significant bits, ties to even, and overflows to an infinity
      ([round64]). The conversion to an integer truncates toward zero as Go
      does, and what Go leaves implementation-dependent (the conversion of a
      value out of range, of an infinity or of a NaN) is a field of
      [Externals].
    - Everything outside the package (net/http transport, gobreaker,
      x/time/rate, the clock, the random source, stdout) is an oracle over an
      abstract [World]; each call of an oracle is recorded in the trace the
      monad [M] carries, so that "the transport was called n times" is a
      statement about the trace.
    - Goroutines are not modelled: one logical call runs at a time. *)

From Stdlib Require Import ZArith QArith Qround Qpower Qabs Lia List Bool Ascii.
From stdpp Require Import base option list gmap strings.

Open Scope Z_scope.

(** ** Numbers, time, errors *)

Definition Duration := Z.
Definition Time := Z.

Definition minInt64 : Z := - 2 ^ 63.
Definition maxInt64 : Z := 2 ^ 63 - 1.

(** Two's complement wrap-around of an [int64] result. *)
Definition wrap64 (z : Z) : Z := (z + 2 ^ 63) mod 2 ^ 64 - 2 ^ 63.

Definition inInt64 (z : Z) : bool := (minInt64 <=? z) && (z <=? maxInt64).

(** Truncation toward zero of a rational: Go's float to integer conversion
    on a value in range. *)
Definition Qtrunc (x : Q) : Z := Z.quot (Qnum x) (Zpos (Qden x)).

(** ** float64 *)

(** A float64 value. A finite one is the rational it denotes (the two zeros
    are not told apart: no operation of the package tells them apart). *)
Inductive float64 : Type :=
| Fin64 (q : Q)
| Inf64 (negative : bool)
| NaN64.

(** [2^e] for an exponent of either sign. *)
Definition pow2 (e : Z) : Q := Qpower 2 e.

(** The binade of a positive rational: the [e] with [2^e <= x < 2^(e+1)]. *)
Definition ilog2 (x : Q) : Z :=
  let c := Z.log2 (Qnum x) - Z.log2 (Zpos (Qden x)) in
  if Qle_bool (pow2 c) x then c else c - 1.

(** The nearest whole number, the even one of two that are equally near. *)
Definition roundEven (x : Q) : Z :=
  let fl := Qfloor x in
  match (x - inject_Z fl ?= 1 # 2)%Q with
  | Lt => fl
  | Gt => fl + 1
  | Eq => if Z.even fl then fl else fl + 1
  end.

(** The nearest rational with a significand of 53 bits, and of the
    smallest exponent float64 has for a small one: what a float64 holds
    for [x] when the result does not overflow. *)
Definition round53 (x : Q) : Q :=
  if Qeq_bool x 0 then 0%Q
  else
    let a := Qabs x in
    let e := Z.max (ilog2 a - 52) (-1074) in
    let r := (inject_Z (roundEven (a / pow2 e)) * pow2 e)%Q in
    if Qle_bool 0 x then r else (- r)%Q.

(** Rounding of an exact result to float64 (to nearest, ties to even):
    a result of [2^1024] or more in size is an infinity. *)
Definition round64 (x : Q) : float64 :=
  let r := round53 x in
  if Qle_bool (pow2 1024) (Qabs r) then Inf64 (negb (Qle_bool 0 x)) else Fin64 r.

(** [float64(n)] for an integer [n]: an [int64] is far from the largest
    float64, so the conversion only rounds. *)
Definition float64_of_int (n : Z) : float64 := Fin64 (round53 (inject_Z n)).

(** [x * y] on float64. *)
Definition fmul (x y : float64) : float64 :=
  match x, y with
  | NaN64, _ | _, NaN64 => NaN64
  | Fin64 p, Fin64 q => round64 (p * q)
  | Inf64 s, Inf64 t => Inf64 (xorb s t)
  | Inf64 s, Fin64 q | Fin64 q, Inf64 s =>
      match (q ?= 0)%Q with
      | Eq => NaN64
      | Lt => Inf64 (negb s)
      | Gt => Inf64 s
      end
  end.

(** [math.Pow(2, y)] for a [y] that is a whole number: the power of two
    when float64 has it, [+Inf] above the largest and zero below the
    smallest. *)
Definition math_Pow2 (y : float64) : float64 :=
  match y with
  | Fin64 q =>
      let n := Qfloor q in
      if n >? 1023 then Inf64 false
      else if n <? -1074 then Fin64 0
      else Fin64 (pow2 n)
  | Inf64 false => Inf64 false
  | Inf64 true => Fin64 0
  | NaN64 => NaN64
  end.

(** [time.Time{}] and [IsZero]. *)
Definition zeroTime : Time := 0.
Definition IsZero (t : Time) : bool := t =? zeroTime.
Definition Time_Equal (t u : Time) : bool := t =? u.
Definition Time_After (t u : Time) : bool := t >? u.

(** Errors. [ErrOpenState] and [ErrTooManyRequests] are gobreaker's
    sentinels, [ErrRateLimitExceeded] is the package's own, [Errorf] stands
    for any other error value (identified by its text) and [Wrap] is
    pkg/errors' [errors.Wrap], which keeps the cause reachable by [Unwrap]. *)
Inductive error : Type :=
| ErrOpenState
| ErrTooManyRequests
| ErrRateLimitExceeded
| Errorf (msg : string)
| Wrap (cause : error) (msg : string).

Fixpoint error_eqb (a b : error) : bool :=
  match a, b with
  | ErrOpenState, ErrOpenState => true
  | ErrTooManyRequests, ErrTooManyRequests => true
  | ErrRateLimitExceeded, ErrRateLimitExceeded => true
  | Errorf m, Errorf n => String.eqb m n
  | Wrap c m, Wrap d n => error_eqb c d && String.eqb m n
  | _, _ => false
  end.

(** [errors.Is]: the target is the error itself or a cause along the
    [Unwrap] chain. *)
Fixpoint errors_Is (err target : error) : bool :=
  error_eqb err target ||
  match err with
  | Wrap cause _ => errors_Is cause target
  | _ => false
  end.

(** The test of client.go on the error of an attempt. *)
Definition isBreakerError (err : error) : bool :=
  errors_Is err ErrOpenState || errors_Is err ErrTooManyRequests.

(** ** HTTP data *)

Record URL : Type := mkURL {
  Scheme : string;
  Host : string;
  Path : string;
  RawPath : string;
  RawQuery : string
}.

(** A request. [Body] is the handle of a reader in the store of readers
    ([None] is a nil body): readers are consumed by reading, so they are
    objects and not values. [Header] is the map by value: in Go the request
    built by [makeRequest] shares its map with [Options.Headers] (or with
    the caller of [WithRequestHeaders]), which shows only when an option
    changes the map in place and a later call finds it changed. *)
Record Request : Type := mkRequest {
  Method : string;
  ReqURL : URL;
  Header : gmap string (list string);
  Body : option nat
}.

Record Response : Type := mkResponse {
  StatusCode : Z;
  RespHeader : gmap string (list string);
  RespBody : list Byte.byte
}.

(** The pair a transport call returns. *)
Definition Result : Type := option Response * option error.

(** [context.Context]: a token the oracles interpret. *)
Inductive Ctx : Type := ctxToken (id : nat).

(** ** The world outside the package *)

Class Externals : Type := {
  World : Type;
  (** [time.Now()]: the clock may move at every reading. *)
  time_Now : World -> Time * World;
  (** [time.Sleep]. *)
  time_Sleep : Duration -> World -> World;
  (** [rand.New(rand.NewSource(time.Now().UnixNano())).Float64()]: a draw in
      [0, 1). *)
  rand_Float64 : World -> Q * World;
  (** Conversion to [int64] of a float64 that is out of range, an infinity
      or a NaN (implementation-dependent in Go). *)
  float64_out_of_range : float64 -> Z;
  (** [Wait], [SetBurst] and [SetLimit] of rate.Limiter: the limiter object
      lives in the world. *)
  rate_Wait : Ctx -> World -> option error * World;
  rate_SetBurst : Z -> World -> World;
  rate_SetLimit : Q -> World -> World;
  (** [Do] of http.Client on a request whose body reader holds the given
      bytes. *)
  httpClient_Do : Ctx -> Request -> option (list Byte.byte) -> World -> Result * World;
  (** gobreaker: [beforeRequest] refuses the call with an error or lets it
      through, [afterRequest] records its success or failure. *)
  breaker_beforeRequest : World -> option error * World;
  breaker_afterRequest : bool -> World -> World;
  (** [httputil.DumpResponse(resp, true)]. *)
  httputil_DumpResponse : Response -> error + string;
  (** [url.Parse], [String] of url.URL and net/http's method check. *)
  url_Parse : string -> error + URL;
  URL_String : URL -> string;
  validMethod : string -> bool;
  (** [Query] of url.URL (on its [RawQuery]) and [Encode] of url.Values. *)
  URL_Query : string -> gmap string (list string);
  Values_Encode : gmap string (list string) -> string
}.

(** What client.go calls of the request builder and of the codec: the
    payload encoding [encodeRequestPayload], [responseReader] and
    [decodeResponse], as an interface over the two payload types.
    [zeroResp] is [var data Resp]. *)
Class Codec (Req Resp : Type) : Type := {
  EncoderDecoder : Type;
  encodeRequestPayload : Req -> EncoderDecoder -> error + list Byte.byte;
  responseReader : option Response -> error + list Byte.byte;
  decodeResponse : EncoderDecoder -> list Byte.byte -> Resp -> option error * Resp;
  zeroResp : Resp
}.

(** Calls that cross the package boundary, in the order they happen. *)
Inductive Event : Type :=
| EvRateWait (ctx : Ctx) (res : option error)
| EvSetBurst (burst : Z)
| EvSetLimit (limit : Q)
| EvHttpDo (req : Request) (body : option (list Byte.byte)) (res : Result)
| EvBreakerBefore (res : option error)
| EvBreakerAfter (success : bool)
| EvRetryFunc (n : Z) (min max : Duration) (d : Duration)
| EvSleep (d : Duration)
| EvStdout (dump : string).

Definition isHttpDo (e : Event) : bool :=
  match e with EvHttpDo _ _ _ => true | _ => false end.

Definition isRetryFunc (e : Event) : bool :=
  match e with EvRetryFunc _ _ _ _ => true | _ => false end.

Definition isRateWait (e : Event) : bool :=
  match e with EvRateWait _ _ => true | _ => false end.

Definition isBreakerBefore (e : Event) : bool :=
  match e with EvBreakerBefore _ => true | _ => false end.

(** The call that starts a transport attempt: the breaker's [Execute] when a
    breaker is configured, the transport's [Do] otherwise. *)
Definition isAttemptStart (viaBreaker : bool) (e : Event) : bool :=
  if viaBreaker then isBreakerBefore e else isHttpDo e.

Fixpoint countEvents (p : Event -> bool) (t : list Event) : nat :=
  match t with
  | [] => O
  | e :: t' => if p e then S (countEvents p t') else countEvents p t'
  end.

(** The body bytes handed to the transport, call by call. *)
Fixpoint sentBodies (t : list Event) : list (option (list Byte.byte)) :=
  match t with
  | [] => []
  | EvHttpDo _ body _ :: t' => body :: sentBodies t'
  | _ :: t' => sentBodies t'
  end.

Section Model.
Context {X : Externals}.

(** ** Retry controller (backoff) *)

(** [RetryCond] and [RetryFunc]. A retry function may read the clock and
    the random source, as [ExponentalBackoff] does. *)
Definition RetryCond : Type := option Response -> option error -> bool.
Definition RetryFunc : Type := Z -> Duration -> Duration -> World -> Duration * World.

Record backoff : Type := mkBackoff {
  minWaitTime : Duration;
  maxWaitTime : Duration;
  maxAttempts : Z;
  attempts : Z;
  f : RetryFunc
}.

Definition stopBackoff : Duration := -1.

Definition set_attempts (b : backoff) (a : Z) : backoff :=
  {| minWaitTime := minWaitTime b; maxWaitTime := maxWaitTime b;
     maxAttempts := maxAttempts b; attempts := a; f := f b |}.

(** [(b *backoff) Next()]: the updated controller, the duration and the
    trace of the call, threaded through the world. [atomic.AddInt64] wraps. *)
Definition Next (b : backoff) (w : World) : Duration * backoff * World * list Event :=
  if attempts b >=? maxAttempts b then (stopBackoff, b, w, [])
  else
    let b' := set_attempts b (wrap64 (attempts b + 1)) in
    let '(d, w') := f b' (attempts b') (minWaitTime b') (maxWaitTime b') w in
    (d, b', w', [EvRetryFunc (attempts b') (minWaitTime b') (maxWaitTime b') d]).

(** [(b *backoff) Reset()]: swap the counter with zero. *)
Definition Reset (b : backoff) : Z * backoff := (attempts b, set_attempts b 0).

Definition Attempt (b : backoff) : Z := attempts b.

(** [k] calls of [Next] in a row. *)
Fixpoint Next_times (k : nat) (b : backoff) (w : World) : backoff * World :=
  match k with
  | O => (b, w)
  | S k' => let '(_, b', w', _) := Next b w in Next_times k' b' w'
  end.

(** Conversion of a float64 to [time.Duration]. *)
Definition Duration_of_float64 (x : float64) : Duration :=
  match x with
  | Fin64 q => if inInt64 (Qtrunc q) then Qtrunc q else float64_out_of_range x
  | _ => float64_out_of_range x
  end.

(** [ExponentalBackoff] before the cap, for the draw [rnd]: [delay + jitter].
    [math.Pow(factor, float64(attemptNum))] with the constant factor 2 is
    [math_Pow2]. *)
Definition ExponentalBackoff_delay (rnd : Q) (attemptNum : Z) (min : Duration) : Duration :=
  let delay :=
    Duration_of_float64 (fmul (math_Pow2 (float64_of_int attemptNum)) (float64_of_int min)) in
  let jitter :=
    Duration_of_float64
      (fmul (fmul (Fin64 rnd) (float64_of_int min)) (float64_of_int attemptNum)) in
  wrap64 (delay + jitter).

(** [ExponentalBackoff] for the draw [rnd]. *)
Definition ExponentalBackoff_with (rnd : Q) (attemptNum : Z) (min max : Duration) : Duration :=
  let delay := ExponentalBackoff_delay rnd attemptNum min in
  if delay >? max then max else delay.

(** [ExponentalBackoff] as a [RetryFunc]: each call draws afresh. *)
Definition ExponentalBackoff : RetryFunc :=
  fun attemptNum min max w =>
    let '(rnd, w') := rand_Float64 w in
    (ExponentalBackoff_with rnd attemptNum min max, w').

(** ** Adaptive rate limiter *)

(** The callbacks [insertEvent] receives: the two closures of [SetBurstAt]
    and [SetLimitAt], by what they capture. *)
Inductive resetEvent : Type :=
| setBurst (burst : Z)
| setLimit (limit : Q).

(** [adaptiveBucketLimiter]; [r] lives in the world, [mu] orders calls. *)
Record adaptiveBucketLimiter : Type := mkLimiter {
  nextResetAt : Time;
  nextResetEvents : list resetEvent
}.

Definition newAdaptiveBucketLimiter : adaptiveBucketLimiter :=
  {| nextResetAt := zeroTime; nextResetEvents := [] |}.

(** Calling one callback. *)
Definition runResetEvent (e : resetEvent) (w : World) : World * Event :=
  match e with
  | setBurst burst => (rate_SetBurst burst w, EvSetBurst burst)
  | setLimit limit => (rate_SetLimit limit w, EvSetLimit limit)
  end.

(** [for i := range l.nextResetEvents { l.nextResetEvents[i]() }] *)
Fixpoint runResetEvents (es : list resetEvent) (w : World) : World * list Event :=
  match es with
  | [] => (w, [])
  | e :: es' =>
      let '(w1, ev) := runResetEvent e w in
      let '(w2, evs) := runResetEvents es' w1 in
      (w2, ev :: evs)
  end.

(** [tryReset], given the reading [now] of the clock. *)
Definition tryReset_at (l : adaptiveBucketLimiter) (now : Time) : bool :=
  Time_Equal (nextResetAt l) now || Time_After (nextResetAt l) now.

Definition tryReset (l : adaptiveBucketLimiter) (w : World) : bool * World :=
  let '(now, w') := time_Now w in (tryReset_at l now, w').

(** The locked part of [Wait]. *)
Definition Wait_reset (l : adaptiveBucketLimiter) (w : World)
  : adaptiveBucketLimiter * World * list Event :=
  let '(fire, w1) := tryReset l w in
  if fire then
    let '(w2, evs) := runResetEvents (nextResetEvents l) w1 in
    ({| nextResetAt := zeroTime; nextResetEvents := [] |}, w2, evs)
  else (l, w1, []).

Definition Wait (l : adaptiveBucketLimiter) (ctx : Ctx) (w : World)
  : option error * adaptiveBucketLimiter * World * list Event :=
  let '(l', w1, evs) := Wait_reset l w in
  let '(err, w2) := rate_Wait ctx w1 in
  (err, l', w2, evs ++ [EvRateWait ctx err]).

Definition insertEvent (l : adaptiveBucketLimiter) (at_ : Time) (e : resetEvent)
  : adaptiveBucketLimiter :=
  {| nextResetAt := at_; nextResetEvents := nextResetEvents l ++ [e] |}.

Definition validateResetAt (at_ : Time) (w : World) : Time * World :=
  if IsZero at_ then time_Now w else (at_, w).

Definition SetBurstAt (l : adaptiveBucketLimiter) (at_ : Time) (burst : Z) (w : World)
  : adaptiveBucketLimiter * World :=
  let '(t, w') := validateResetAt at_ w in (insertEvent l t (setBurst burst), w').

Definition SetLimitAt (l : adaptiveBucketLimiter) (at_ : Time) (limit : Q) (w : World)
  : adaptiveBucketLimiter * World :=
  let '(t, w') := validateResetAt at_ w in (insertEvent l t (setLimit limit), w').

(** ** api.go: options and construction *)

Record OptionRateLimit : Type := mkOptionRateLimit {
  Limit : Z;
  Burst : Z;
  Per : Duration
}.

Record OptionRetry : Type := mkOptionRetry {
  MaxAttempts : Z;
  MinWaitTime : Duration;
  MaxWaitTime : Duration;
  Conditions : list RetryCond;
  Fn : RetryFunc
}.

Record OptionCircuitBreaker : Type := mkOptionCircuitBreaker {
  Name : string;
  ConsecutiveFailuresLimit : Z;
  BreakerTimeOutInSeconds : Z
}.

(** [Options]; [HttpClient] is the transport oracle, and [RateLimitParseFn]
    is read nowhere in the package. *)
Record Options : Type := mkOptions {
  BaseURL : string;
  Headers : gmap string (list string);
  Debug : bool;
  RateLimit : option OptionRateLimit;
  Retry : option OptionRetry;
  CircuitBreaker : option OptionCircuitBreaker
}.

(** circuitbreaker.go: the settings handed to gobreaker; the breaker's state
    is in the world. *)
Record gobreakerSettings : Type := mkSettings {
  stName : string;
  stTimeout : Duration;
  stReadyToTripAt : Z
}.

Record CircuitBreakerT : Type := mkCircuitBreaker {
  Breaker : option gobreakerSettings
}.

Definition second : Duration := 1000000000.

Definition newCircuitBreaker (cbOption : OptionCircuitBreaker) : CircuitBreakerT :=
  {| Breaker := Some {| stName := Name cbOption;
                        stTimeout := wrap64 (BreakerTimeOutInSeconds cbOption * second);
                        stReadyToTripAt := ConsecutiveFailuresLimit cbOption |} |}.

Record API : Type := mkAPI {
  options : Options;
  retry : option backoff;
  limiter : adaptiveBucketLimiter;
  breaker : option CircuitBreakerT
}.

Definition emptyOptions : Options :=
  {| BaseURL := ""; Headers := ∅; Debug := false;
     RateLimit := None; Retry := None; CircuitBreaker := None |}.

Definition WithDebug (o : Options) : Options :=
  {| BaseURL := BaseURL o; Headers := Headers o; Debug := true;
     RateLimit := RateLimit o; Retry := Retry o; CircuitBreaker := CircuitBreaker o |}.

Definition WithBaseURL (url : string) (o : Options) : Options :=
  {| BaseURL := url; Headers := Headers o; Debug := Debug o;
     RateLimit := RateLimit o; Retry := Retry o; CircuitBreaker := CircuitBreaker o |}.

Definition WithRetry (maxAttempts_ : Z) (minWaitTime_ maxWaitTime_ : Duration)
    (fn : option RetryFunc) (conditions : list RetryCond) (o : Options) : Options :=
  let fn' := match fn with Some g => g | None => ExponentalBackoff end in
  {| BaseURL := BaseURL o; Headers := Headers o; Debug := Debug o;
     RateLimit := RateLimit o;
     Retry := Some {| MaxAttempts := maxAttempts_; MinWaitTime := minWaitTime_;
                      MaxWaitTime := maxWaitTime_; Conditions := conditions; Fn := fn' |};
     CircuitBreaker := CircuitBreaker o |}.

Definition WithRateLimit (limit burst : Z) (per : Duration) (o : Options) : Options :=
  {| BaseURL := BaseURL o; Headers := Headers o; Debug := Debug o;
     RateLimit := Some {| Limit := limit; Burst := burst; Per := per |};
     Retry := Retry o; CircuitBreaker := CircuitBreaker o |}.

Definition setHeaders (h : gmap string (list string)) (o : Options) : Options :=
  {| BaseURL := BaseURL o; Headers := h; Debug := Debug o;
     RateLimit := RateLimit o; Retry := Retry o; CircuitBreaker := CircuitBreaker o |}.

Definition WithHeader (key value : string) (o : Options) : Options :=
  setHeaders (<[key := [value]]> (Headers o)) o.

Definition WithHeaderSet (headers : gmap string (list string)) (o : Options) : Options :=
  setHeaders headers o.

Definition WithCircuitBreaker (name : string) (breakerTimeOutInSeconds consecutiveFailuresLimit : Z)
    (o : Options) : Options :=
  {| BaseURL := BaseURL o; Headers := Headers o; Debug := Debug o;
     RateLimit := RateLimit o; Retry := Retry o;
     CircuitBreaker := Some {| Name := name;
                               ConsecutiveFailuresLimit := consecutiveFailuresLimit;
                               BreakerTimeOutInSeconds := breakerTimeOutInSeconds |} |}.

(** [NewAPI]: the transport, the rate limiter and the breaker it creates are
    the initial world. *)
Definition NewAPI (opts : list (Options -> Options)) : API :=
  let options_ := fold_left (fun o opt => opt o) opts emptyOptions in
  {| options := options_;
     retry := match Retry options_ with
              | Some r => Some {| minWaitTime := MinWaitTime r; maxWaitTime := MaxWaitTime r;
                                  maxAttempts := MaxAttempts r; attempts := 0; f := Fn r |}
              | None => None
              end;
     limiter := newAdaptiveBucketLimiter;
     breaker := match CircuitBreaker options_ with
                | Some cb => Some (newCircuitBreaker cb)
                | None => None
                end |}.

(** ** client.go: state and effects *)

(** What a logical call can change: the shared [API] object (the retry
    counter and the limiter's pending change), the store of body readers
    (each entry is what is left to read) and the world. *)
Record State : Type := mkState {
  api : API;
  readers : list (list Byte.byte);
  world : World
}.

(** A computation returns its value, the new state and the calls it made. *)
Definition M (A : Type) : Type := State -> A * State * list Event.

#[export] Instance M_ret : MRet M := fun A a s => (a, s, []).

#[export] Instance M_bind : MBind M := fun A B k m s =>
  let '(a, s1, t1) := m s in
  let '(b, s2, t2) := k a s1 in
  (b, s2, t1 ++ t2).

Definition result_of {A} (r : A * State * list Event) : A := r.1.1.
Definition state_of {A} (r : A * State * list Event) : State := r.1.2.
Definition trace_of {A} (r : A * State * list Event) : list Event := r.2.

Definition set_world (s : State) (w : World) : State :=
  {| api := api s; readers := readers s; world := w |}.

Definition set_readers (s : State) (rs : list (list Byte.byte)) : State :=
  {| api := api s; readers := rs; world := world s |}.

Definition set_retry (s : State) (b : option backoff) : State :=
  {| api := {| options := options (api s); retry := b;
               limiter := limiter (api s); breaker := breaker (api s) |};
     readers := readers s; world := world s |}.

Definition set_limiter (s : State) (l : adaptiveBucketLimiter) : State :=
  {| api := {| options := options (api s); retry := retry (api s);
               limiter := l; breaker := breaker (api s) |};
     readers := readers s; world := world s |}.

(** [c.api.limiter.Wait(ctx)] *)
Definition limiter_Wait (ctx : Ctx) : M (option error) := fun s =>
  let '(err, l', w', evs) := Wait (limiter (api s)) ctx (world s) in
  (err, set_world (set_limiter s l') w', evs).

(** [c.api.retry.Next()] and [c.api.retry.Reset()]: [performRequest] calls
    them only after it has seen [c.api.retry] non-nil; on nil Go would panic
    and the model does nothing. *)
Definition retry_Next : M Duration := fun s =>
  match retry (api s) with
  | Some b =>
      let '(d, b', w', evs) := Next b (world s) in
      (d, set_world (set_retry s (Some b')) w', evs)
  | None => (stopBackoff, s, [])
  end.

Definition retry_Reset : M Z := fun s =>
  match retry (api s) with
  | Some b => let '(n, b') := Reset b in (n, set_retry s (Some b'), [])
  | None => (0, s, [])
  end.

Definition sleep (d : Duration) : M unit := fun s =>
  (tt, set_world s (time_Sleep d (world s)), [EvSleep d]).

(** Readers. [newReader] is [bytes.NewReader], [strings.NewReader] or a
    fresh [bytes.Buffer] holding [data]; [readAll] is [ReadFrom] on a
    reader: it returns what is left and leaves nothing. *)
Definition newReader (data : list Byte.byte) : M nat := fun s =>
  (length (readers s), set_readers s (readers s ++ [data]), []).

Definition readAll (h : nat) : M (list Byte.byte) := fun s =>
  (default [] (readers s !! h), set_readers s (<[h := []]> (readers s)), []).

(** [c.api.httpClient.Do(req)]: the transport gets what the body reader
    holds and reads it. *)
Definition client_Do (ctx : Ctx) (req : Request) : M Result := fun s =>
  let body := Body req ≫= (fun h => readers s !! h) in
  let '(res, w') := httpClient_Do ctx req body (world s) in
  let rs := match Body req with Some h => <[h := []]> (readers s) | None => readers s end in
  (res, {| api := api s; readers := rs; world := w' |}, [EvHttpDo req body res]).

(** gobreaker's [Execute]: refuse, or run the action and record how it
    went. *)
Definition breaker_before : M (option error) := fun s =>
  let '(e, w') := breaker_beforeRequest (world s) in
  (e, set_world s w', [EvBreakerBefore e]).

Definition breaker_after (ok : bool) : M unit := fun s =>
  (tt, set_world s (breaker_afterRequest ok (world s)), [EvBreakerAfter ok]).

Definition breaker_Execute (action : M Result) : M Result :=
  before ← breaker_before;
  match before with
  | Some err => mret (None, Some err)
  | None =>
      res ← action;
      _ ← breaker_after (match res.2 with None => true | Some _ => false end);
      mret res
  end.

Definition set_Body (req : Request) (b : option nat) : Request :=
  {| Method := Method req; ReqURL := ReqURL req; Header := Header req; Body := b |}.

Definition set_Header (req : Request) (h : gmap string (list string)) : Request :=
  {| Method := Method req; ReqURL := ReqURL req; Header := h; Body := Body req |}.

Definition set_RawQuery (req : Request) (q : string) : Request :=
  {| Method := Method req;
     ReqURL := {| Scheme := Scheme (ReqURL req); Host := Host (ReqURL req);
                  Path := Path (ReqURL req); RawPath := RawPath (ReqURL req);
                  RawQuery := q |};
     Header := Header req; Body := Body req |}.

(** *** performRequest *)

(** The first block of the closure [do]: with [reuse], the body is read
    into a buffer that becomes the body of [httpReq], and the request that
    goes out is a clone whose body is a new reader over the buffer's bytes.
    Returns [httpReq] as the block leaves it and the request to send. *)
Definition do_rehydrate (httpReq : Request) (reuse : bool) : M (Request * Request) :=
  match reuse, Body httpReq with
  | true, Some h =>
      b ← readAll h;
      hb ← newReader b;
      let httpReq' := set_Body httpReq (Some hb) in
      hc ← newReader b;
      let cloneReq := set_Body httpReq' (Some hc) in
      mret (httpReq', cloneReq)
  | _, _ => mret (httpReq, httpReq)
  end.

Definition has_breaker (a : API) : bool :=
  match breaker a with
  | Some cb => match Breaker cb with Some _ => true | None => false end
  | None => false
  end.

(** The function [do] hands to the breaker's [Execute]. *)
Definition guardedDo (ctx : Ctx) (req : Request) : M Result :=
  r ← client_Do ctx req;
  mret (match r.2 with Some err => (None, Some err) | None => (r.1, None) end).

(** The transport call of [do], directly or through the breaker, with the
    early return of the direct branch folded in: [inl] is a value [do]
    returns at once. *)
Definition do_call (ctx : Ctx) (req : Request) : M (Result + Result) :=
  fun s =>
    if has_breaker (api s) then
      (res ← breaker_Execute (guardedDo ctx req); mret (inr res)) s
    else
      (r ← client_Do ctx req;
       mret (match r.2 with Some err => inl (None, Some err) | None => inr r end)) s.

(** What [do] does with the pair of the call. A nil response with a nil
    error does not come out of net/http; with [Debug] Go would panic on it. *)
Definition do_finish (res : Result) : M Result :=
  match res.2 with
  | Some err =>
      if isBreakerError err
      then mret (None, Some (Wrap err "circuit-breaker has worked"))
      else mret (None, Some err)
  | None =>
      fun s =>
        if Debug (options (api s)) then
          match res.1 with
          | Some resp =>
              match httputil_DumpResponse resp with
              | inl err => (((None, Some err) : Result), s, [])
              | inr b => ((res.1, None), s, [EvStdout b])
              end
          | None => ((res.1, None), s, [])
          end
        else ((res.1, None), s, [])
  end.

(** The closure [do] of [performRequest]: its pair and [httpReq] after it. *)
Definition do (ctx : Ctx) (httpReq : Request) (reuse : bool) : M (Result * Request) :=
  '(httpReq', req) ← do_rehydrate httpReq reuse;
  r ← do_call ctx req;
  match r with
  | inl early => mret (early, httpReq')
  | inr res => out ← do_finish res; mret (out, httpReq')
  end.

(** The [reuse] argument [performRequest] gives to [do]: true when a retry
    controller is configured. *)
Definition reuseBody (a : API) : bool :=
  match retry a with Some _ => true | None => false end.

(** [c.api.options.Retry.Conditions]; [NewAPI] sets [retry] only together
    with [options.Retry]. *)
Definition retryConditions (a : API) : list RetryCond :=
  match Retry (options a) with
  | Some r => Conditions r
  | None => []
  end.

Definition get_retryConditions : M (list RetryCond) := fun s =>
  (retryConditions (api s), s, []).

(** The scan of the conditions: the first match ends it. *)
Definition isMatchedCond (conds : list RetryCond) (res : Result) : bool :=
  existsb (fun cond => cond res.1 res.2) conds.

(** The [for] loop of [performRequest]. Every turn but the last takes one
    from [maxAttempts - attempts], which bounds the turns: [None] is "out of
    fuel", which [performRequest] never reaches ([retryLoop_fuel]). *)
Fixpoint retryLoop (fuel : nat) (ctx : Ctx) (httpReq : Request) : M (option Result) :=
  match fuel with
  | O => mret None
  | S fuel' =>
      '(res, httpReq') ← do ctx httpReq true;
      conds ← get_retryConditions;
      if isMatchedCond conds res then
        nextDuration ← retry_Next;
        if nextDuration =? stopBackoff then
          _ ← retry_Reset; mret (Some res)
        else
          _ ← sleep nextDuration; retryLoop fuel' ctx httpReq'
      else mret (Some res)
  end.

Definition loopFuel (b : backoff) : nat := S (Z.to_nat (maxAttempts b - attempts b)).

Definition performRequest (ctx : Ctx) (httpReq : Request) : M Result := fun s =>
  match retry (api s) with
  | None => (r ← do ctx httpReq false; mret r.1) s
  | Some b => (r ← retryLoop (loopFuel b) ctx httpReq; mret (default (None, None) r)) s
  end.

End Model.

Section Pipeline.
Context {X : Externals}.

(** ** Request options *)

(** [RequestOption]: a function on the request under construction; it may
    replace the body, so it sees the store of readers. It returns its error
    and the request and the store as it leaves them. The headers are a map
    by value, so an option is one that assigns a map to [req.Header], as the
    package's own [WithRequestHeaders] does; an option that writes into the
    map it finds ([req.Header.Set]), which in Go is the map of
    [Options.Headers] itself, is outside this type, and what a call leaves
    of the client's default headers is not stated below. *)
Definition RequestOption : Type :=
  Request -> list (list Byte.byte) -> option error * Request * list (list Byte.byte).

(** [ParamEncoder]'s [Encode(url.Values) error]. *)
Definition ParamEncoder : Type :=
  gmap string (list string) -> option error * gmap string (list string).

Fixpoint encodeParams (params : list ParamEncoder) (q : gmap string (list string))
  : error + gmap string (list string) :=
  match params with
  | [] => inr q
  | param :: params' =>
      match param q with
      | (Some err, _) => inl (Wrap err "failed to encode query params")
      | (None, q') => encodeParams params' q'
      end
  end.

Definition WithRequestQueryEncodableParams (params : list ParamEncoder) : RequestOption :=
  fun req rs =>
    let q := URL_Query (RawQuery (ReqURL req)) in
    match encodeParams params q with
    | inl err => (Some err, req, rs)
    | inr q' => (None, set_RawQuery req (Values_Encode q'), rs)
    end.

Definition WithRequestForm (form : gmap string (list string)) : RequestOption :=
  fun req rs =>
    (None, set_Body req (Some (length rs)),
     rs ++ [String.list_byte_of_string (Values_Encode form)]).

Definition WithRequestHeaders (headers : gmap string (list string)) : RequestOption :=
  fun req rs => (None, set_Header req headers, rs).

(** [for _, opt := range req.requestOptions]: the first error ends it. *)
Fixpoint applyOptions (opts : list RequestOption) (req : Request) (rs : list (list Byte.byte))
  : error + Request * list (list Byte.byte) :=
  match opts with
  | [] => inr (req, rs)
  | opt :: opts' =>
      match opt req rs with
      | (Some err, _, _) => inl err
      | (None, req', rs') => applyOptions opts' req' rs'
      end
  end.

(** ** Building the request *)

Definition set_Path (u : URL) (p : string) : URL :=
  {| Scheme := Scheme u; Host := Host u; Path := p; RawPath := RawPath u;
     RawQuery := RawQuery u |}.

Definition buildRequestURL (a : API) (resource : string) : error + URL :=
  match url_Parse (BaseURL (options a)) with
  | inl err => inl err
  | inr u => inr (set_Path u resource)
  end.

(** net/http's [NewRequestWithContext] with a nil body. *)
Definition http_NewRequestWithContext (method_ url : string) : error + Request :=
  let method_ := if String.eqb method_ "" then "GET"%string else method_ in
  if negb (validMethod method_) then inl (Errorf "net/http: invalid method")
  else
    match url_Parse url with
    | inl err => inl err
    | inr u => inr {| Method := method_; ReqURL := u; Header := ∅; Body := None |}
    end.

Context {Req Resp : Type} {C : Codec Req Resp}.

(** The fields of [RequestBuilder] the pipeline reads. *)
Record RequestBuilder : Type := mkRequestBuilder {
  resourcePath : string;
  method : string;
  body : option Req;
  requestOptions : list RequestOption;
  errDecodeFn : option (option Response -> bool * option error)
}.

Definition makeRequest (ctx : Ctx) (req : RequestBuilder) (enc : option EncoderDecoder)
  : M (error + Request) := fun s =>
  match buildRequestURL (api s) (resourcePath req) with
  | inl err => (inl err, s, [])
  | inr u =>
      match http_NewRequestWithContext (method req) (URL_String u) with
      | inl err => (inl err, s, [])
      | inr httpReq =>
          let encoded :=
            match negb (String.eqb (method req) "GET"), body req, enc with
            | true, Some payload, Some e =>
                match encodeRequestPayload payload e with
                | inl err => inl err
                | inr bytes =>
                    inr (set_Body httpReq (Some (length (readers s))), readers s ++ [bytes])
                end
            | _, _, _ => inr (httpReq, readers s)
            end in
          match encoded with
          | inl err => (inl err, s, [])
          | inr (httpReq1, rs1) =>
              let httpReq2 :=
                if negb (size (Headers (options (api s))) =? 0)%nat
                then set_Header httpReq1 (Headers (options (api s)))
                else httpReq1 in
              match applyOptions (requestOptions req) httpReq2 rs1 with
              | inl err => (inl err, s, [])
              | inr (httpReq3, rs3) => (inr httpReq3, set_readers s rs3, [])
              end
          end
      end
  end.

(** ** The logical call *)

(** [for _, after := range c.afterResponse] *)
Fixpoint runAfterResponse (hooks : list (option Response -> Resp -> option error * Resp))
    (resp : option Response) (data : Resp) : error + Resp :=
  match hooks with
  | [] => inr data
  | after :: hooks' =>
      match after resp data with
      | (Some err, _) => inl (Wrap err "after response exec failed")
      | (None, data') => runAfterResponse hooks' resp data'
      end
  end.

(** What [do] does with the response of [performRequest]. *)
Definition handleResponse (afterResponse : list (option Response -> Resp -> option error * Resp))
    (req : RequestBuilder) (decode : bool) (enc : option EncoderDecoder)
    (resp : option Response) : option Response * option Resp * option error :=
  match responseReader resp with
  | inl err => (None, None, Some err)
  | inr r =>
      let sniffed :=
        match errDecodeFn req with
        | Some fn => let '(ok, err) := fn resp in if ok then Some err else None
        | None => None
        end in
      match sniffed with
      | Some err => (resp, None, err)
      | None =>
          let decoded :=
            match decode, enc with
            | true, Some e => decodeResponse e r zeroResp
            | _, _ => (None, zeroResp)
            end in
          match decoded with
          | (Some err, _) => (None, None, Some err)
          | (None, data) =>
              match runAfterResponse afterResponse resp data with
              | inl err => (None, None, Some err)
              | inr data' => (resp, Some data', None)
              end
          end
      end
  end.

(** [(c *client) do]. *)
Definition client_do (afterResponse : list (option Response -> Resp -> option error * Resp))
    (ctx : Ctx) (req : RequestBuilder) (decode : bool) (enc : option EncoderDecoder)
  : M (option Response * option Resp * option error) :=
  waited ← limiter_Wait ctx;
  match waited with
  | Some err => mret (None, None, Some err)
  | None =>
      made ← makeRequest ctx req enc;
      match made with
      | inl err => mret (None, None, Some err)
      | inr httpReq =>
          res ← performRequest ctx httpReq;
          match res.2 with
          | Some err => mret (None, None, Some err)
          | None => mret (handleResponse afterResponse req decode enc res.1)
          end
      end
  end.

End Pipeline.

(** ** A stub world

    A transport that answers from a script of status codes (and with
    [stub_default] once the script is used up), a clock that stands still, a
    limiter that admits every call whose context is [ctxToken 0] and reports
    cancellation for any other, a breaker that refuses with [stub_breaker]
    when that is set, and a URL parser that knows one base address. It gives
    the concrete runs below something to run in. *)

Record StubWorld : Type := mkStub {
  stub_now : Time;
  stub_script : list Z;
  stub_default : Z;
  stub_breaker : option error;
  stub_burst : Z;
  stub_limit : Q
}.

Definition stub_response (code : Z) : Response :=
  {| StatusCode := code; RespHeader := ∅; RespBody := [] |}.

Definition stub_Do (w : StubWorld) : Result * StubWorld :=
  match stub_script w with
  | [] => ((Some (stub_response (stub_default w)), None), w)
  | code :: rest =>
      ((Some (stub_response code), None),
       {| stub_now := stub_now w; stub_script := rest; stub_default := stub_default w;
          stub_breaker := stub_breaker w; stub_burst := stub_burst w;
          stub_limit := stub_limit w |})
  end.

Definition stub_Parse (s : string) : error + URL :=
  if String.eqb s "https://api.example.com/v1"
  then inr {| Scheme := "https"; Host := "api.example.com"; Path := "/v1";
              RawPath := ""; RawQuery := "" |}
  else if String.eqb s "https://api.example.com/fact"
  then inr {| Scheme := "https"; Host := "api.example.com"; Path := "/fact";
              RawPath := ""; RawQuery := "" |}
  else inl (Errorf "parse: unknown address").

Definition stubExternals : Externals :=
  {| World := StubWorld;
     time_Now := fun w => (stub_now w, w);
     time_Sleep := fun _ w => w;
     rand_Float64 := fun w => (1 # 2, w);
     float64_out_of_range := fun _ => minInt64;
     rate_Wait := fun ctx w =>
       match ctx with
       | ctxToken O => (None, w)
       | ctxToken (S _) => (Some (Errorf "context canceled"), w)
       end;
     rate_SetBurst := fun burst w =>
       {| stub_now := stub_now w; stub_script := stub_script w;
          stub_default := stub_default w; stub_breaker := stub_breaker w;
          stub_burst := burst; stub_limit := stub_limit w |};
     rate_SetLimit := fun limit w =>
       {| stub_now := stub_now w; stub_script := stub_script w;
          stub_default := stub_default w; stub_breaker := stub_breaker w;
          stub_burst := stub_burst w; stub_limit := limit |};
     httpClient_Do := fun _ _ _ w => stub_Do w;
     breaker_beforeRequest := fun w => (stub_breaker w, w);
     breaker_afterRequest := fun _ w => w;
     httputil_DumpResponse := fun _ => inr ""%string;
     url_Parse := stub_Parse;
     URL_String := fun u => (Scheme u ++ "://" ++ Host u ++ Path u)%string;
     validMethod := fun _ => true;
     URL_Query := fun _ => ∅;
     Values_Encode := fun _ => ""%string |}.

Definition stub_world (now : Time) (script : list Z) (default_ : Z) (br : option error)
  : StubWorld :=
  {| stub_now := now; stub_script := script; stub_default := default_;
     stub_breaker := br; stub_burst := 1; stub_limit := 1 |}.

(** A delay function that always waits [d]. *)
Definition constantDelay (d : Duration) : @RetryFunc stubExternals :=
  fun _ _ _ w => (d, w).

(** The retry condition of the package's example: HTTP 429. *)
Definition isTooManyRequests : RetryCond :=
  fun resp _ => match resp with Some r => StatusCode r =? 429 | None => false end.

Definition stub_backoff (maxAttempts_ attempts_ : Z) : @backoff stubExternals :=
  {| minWaitTime := 1; maxWaitTime := 2; maxAttempts := maxAttempts_;
     attempts := attempts_; f := constantDelay 5 |}.

(** An API as [NewAPI] builds it for [WithBaseURL], [WithRetry] with the
    429 condition and a constant delay, and the given default headers. *)
Definition stub_api (maxAttempts_ : Z) (headers : gmap string (list string))
  : @API stubExternals :=
  NewAPI [WithBaseURL "https://api.example.com/v1";
          WithHeaderSet headers;
          WithRetry maxAttempts_ 1 2 (Some (constantDelay 5)) [isTooManyRequests]].

(** An API with the 429 condition and a circuit breaker. *)
Definition stub_api_breaker (maxAttempts_ : Z) : @API stubExternals :=
  NewAPI [WithBaseURL "https://api.example.com/v1";
          WithRetry maxAttempts_ 1 2 (Some (constantDelay 5)) [isTooManyRequests];
          WithCircuitBreaker "main-breaker" 10 3].

(** A request to the stub's address; [b] is its body. *)
Definition stub_request (b : option nat) : Request :=
  {| Method := "POST";
     ReqURL := {| Scheme := "https"; Host := "api.example.com"; Path := "/fact";
                  RawPath := ""; RawQuery := "" |};
     Header := ∅; Body := b |}.

(** A codec for payloads that are byte strings already. *)
Definition stubCodec : Codec (list Byte.byte) (list Byte.byte) :=
  {| EncoderDecoder := unit;
     encodeRequestPayload := fun payload _ => inr payload;
     responseReader := fun resp =>
       match resp with
       | Some r => inr (RespBody r)
       | None => inl (Errorf "no response")
       end;
     decodeResponse := fun _ r _ => (None, r);
     zeroResp := [] |}.

(** The descriptor of [Get("/fact", opts...)]. *)
Definition stub_builder (opts : list RequestOption) : @RequestBuilder (list Byte.byte) :=
  {| resourcePath := "/fact"; method := "GET"; body := None;
     requestOptions := opts; errDecodeFn := None |}.

Definition stub_state (a : @API stubExternals) (rs : list (list Byte.byte)) (w : StubWorld)
  : @State stubExternals :=
  {| api := a; readers := rs; world := w |}.

(** ** Sequences of calls and readings of the trace

    Ways to run several calls of the retry controller and of the limiter in
    a row, and to read more of a trace. *)

Definition isSleep (e : Event) : bool :=
  match e with EvSleep _ => true | _ => false end.

(** A call of a scheduled callback on the limiter of x/time/rate. *)
Definition isResetCall (e : Event) : bool :=
  match e with EvSetBurst _ | EvSetLimit _ => true | _ => false end.

(** The call a callback makes. *)
Definition resetCall (e : resetEvent) : Event :=
  match e with setBurst b => EvSetBurst b | setLimit q => EvSetLimit q end.

(** The requests handed to the transport, call by call. *)
Fixpoint sentRequests (t : list Event) : list Request :=
  match t with
  | [] => []
  | EvHttpDo req _ _ :: t' => req :: sentRequests t'
  | _ :: t' => sentRequests t'
  end.

(** The attempt numbers the delay function was called with, call by call. *)
Fixpoint delayCalls (t : list Event) : list Z :=
  match t with
  | [] => []
  | EvRetryFunc n _ _ _ :: t' => n :: delayCalls t'
  | _ :: t' => delayCalls t'
  end.

(** The durations slept, sleep by sleep. *)
Fixpoint sleeps (t : list Event) : list Duration :=
  match t with
  | [] => []
  | EvSleep d :: t' => d :: sleeps t'
  | _ :: t' => sleeps t'
  end.

(** The method, the URL and the headers of a request: what a retry must
    not change. *)
Definition sameEnvelope (a b : Request) : Prop :=
  Method a = Method b /\ ReqURL a = ReqURL b /\ Header a = Header b.

Section Sequences.
Context {X : Externals}.

(** A call on the retry controller. *)
Inductive retryOp : Type := opNext | opReset.

(** The calls [ops] in a row: the controller, the world and the trace
    after them. *)
Fixpoint runRetryOps (ops : list retryOp) (b : backoff) (w : World)
  : backoff * World * list Event :=
  match ops with
  | [] => (b, w, [])
  | opNext :: ops' =>
      let '(_, b', w', t) := Next b w in
      let '(b'', w'', t') := runRetryOps ops' b' w' in
      (b'', w'', t ++ t')
  | opReset :: ops' => runRetryOps ops' (Reset b).2 w
  end.

(** A call that schedules a change on the limiter. *)
Inductive scheduleOp : Type :=
| schedBurst (at_ : Time) (burst : Z)
| schedLimit (at_ : Time) (limit : Q).

Definition scheduledAt (op : scheduleOp) : Time :=
  match op with schedBurst t _ => t | schedLimit t _ => t end.

Definition scheduledEvent (op : scheduleOp) : resetEvent :=
  match op with schedBurst _ b => setBurst b | schedLimit _ q => setLimit q end.

Definition runScheduleOp (op : scheduleOp) (l : adaptiveBucketLimiter) (w : World)
  : adaptiveBucketLimiter * World :=
  match op with
  | schedBurst t b => SetBurstAt l t b w
  | schedLimit t q => SetLimitAt l t q w
  end.

(** [SetBurstAt] and [SetLimitAt] calls in a row. *)
Fixpoint runSchedule (ops : list scheduleOp) (l : adaptiveBucketLimiter) (w : World)
  : adaptiveBucketLimiter * World :=
  match ops with
  | [] => (l, w)
  | op :: ops' => let '(l', w') := runScheduleOp op l w in runSchedule ops' l' w'
  end.

(** The configuration of a controller: everything but the counter. *)
Definition sameConfig (b b' : backoff) : Prop :=
  maxAttempts b' = maxAttempts b /\ minWaitTime b' = minWaitTime b /\
  maxWaitTime b' = maxWaitTime b /\ f b' = f b.

End Sequences.

(** ** The attempts of a call, written down *)

(** A refusal of the breaker: its [Execute] returned an error of its own
    and did not call the transport. *)
Definition isBreakerRefusal (e : Event) : bool :=
  match e with EvBreakerBefore (Some _) => true | _ => false end.

(** The answers of the delay function, call by call. *)
Fixpoint delayAnswers (t : list Event) : list Duration :=
  match t with
  | [] => []
  | EvRetryFunc _ _ _ d :: t' => d :: delayAnswers t'
  | _ :: t' => delayAnswers t'
  end.

(** The pairs the transport returned, call by call. *)
Fixpoint transportAnswers (t : list Event) : list Result :=
  match t with
  | [] => []
  | EvHttpDo _ _ res :: t' => res :: transportAnswers t'
  | _ :: t' => transportAnswers t'
  end.

(** What [do] returns for a pair of the transport when no breaker is
    configured and [Debug] is off: the pair, without the response when there
    is an error. *)
Definition attemptPair (res : Result) : Result :=
  match res.2 with Some err => (None, Some err) | None => (res.1, None) end.

Section AttemptLog.
Context {X : Externals}.

(** The pairs of the attempts of a run of the loop, attempt by attempt:
    the loop of [retryLoop] with the pair of every run of [do] written
    down. *)
Fixpoint retryLoopLog (fuel : nat) (ctx : Ctx) (httpReq : Request) (s : State) : list Result :=
  match fuel with
  | O => []
  | S fuel' =>
      let '(res, httpReq', s1, _) := do ctx httpReq true s in
      res ::
        (if isMatchedCond (retryConditions (api s1)) res then
           let '(nextDuration, s2, _) := retry_Next s1 in
           if nextDuration =? stopBackoff then []
           else retryLoopLog fuel' ctx httpReq' (state_of (sleep nextDuration s2))
         else [])
  end.

(** The pairs of the attempts of a call of [performRequest]. *)
Definition attemptLog (ctx : Ctx) (httpReq : Request) (s : State) : list Result :=
  match retry (api s) with
  | None => [(result_of (do ctx httpReq false s)).1]
  | Some b => retryLoopLog (loopFuel b) ctx httpReq s
  end.

End AttemptLog.

(** ** URLs with a host

    url.Parse and String of url.URL are oracles; what the package relies on
    is how they treat the path of a URL that has a host. *)

(** The path as [String] writes it behind a host: with a "/" put before it
    when it is not empty and does not begin with one. *)
Definition rootedPath (p : string) : string :=
  match p with
  | EmptyString => p
  | String c _ => if Ascii.eqb c "/"%char then p else String "/"%char p
  end.

(** [s] without the prefix [pre], when it begins with it. *)
Fixpoint stripPrefix (pre s : string) : option string :=
  match pre, s with
  | EmptyString, _ => Some s
  | String a pre', String b s' => if Ascii.eqb a b then stripPrefix pre' s' else None
  | String _ _, EmptyString => None
  end.

Section UrlContract.
Context {X : Externals}.

(** net/url on a URL that has a host, as far as the path goes. [String]
    writes the scheme, the host and then the path, escaped, with a "/" put
    before it when it is not empty and does not begin with one; [Parse]
    reads that path back, unescaped. So whenever the rendering of a parsed
    address whose path was set to [p] parses again, the path it has is
    [rootedPath p]. *)
Definition urlKeepsPath : Prop :=
  forall base u p u',
    url_Parse base = inr u -> Host u <> ""%string ->
    url_Parse (URL_String (set_Path u p)) = inr u' ->
    Path u' = rootedPath p.

End UrlContract.

(** A world like the stub world whose URL functions know every address on
    the stub's host: the path is whatever follows the host. *)
Definition stub_ParseAny (s : string) : error + URL :=
  match stripPrefix "https://api.example.com" s with
  | Some path => inr {| Scheme := "https"; Host := "api.example.com"; Path := path;
                        RawPath := ""; RawQuery := "" |}
  | None => inl (Errorf "parse: unknown address")
  end.

Definition urlExternals : Externals :=
  {| World := StubWorld;
     time_Now := @time_Now stubExternals;
     time_Sleep := @time_Sleep stubExternals;
     rand_Float64 := @rand_Float64 stubExternals;
     float64_out_of_range := @float64_out_of_range stubExternals;
     rate_Wait := @rate_Wait stubExternals;
     rate_SetBurst := @rate_SetBurst stubExternals;
     rate_SetLimit := @rate_SetLimit stubExternals;
     httpClient_Do := @httpClient_Do stubExternals;
     breaker_beforeRequest := @breaker_beforeRequest stubExternals;
     breaker_afterRequest := @breaker_afterRequest stubExternals;
     httputil_DumpResponse := @httputil_DumpResponse stubExternals;
     url_Parse := stub_ParseAny;
     URL_String := fun u => (Scheme u ++ "://" ++ Host u ++ rootedPath (Path u))%string;
     validMethod := @validMethod stubExternals;
     URL_Query := @URL_Query stubExternals;
     Values_Encode := @Values_Encode stubExternals |}.

(** An API for the package's example address in that world. *)
Definition url_api : @API urlExternals :=
  NewAPI [WithBaseURL "https://api.example.com/v1"].

(** The descriptor of [Get(path)]. *)
Definition stub_get (path : string) (opts : list RequestOption)
  : @RequestBuilder (list Byte.byte) :=
  {| resourcePath := path; method := "GET"; body := None;
     requestOptions := opts; errDecodeFn := None |}.

(** A request option leaves the body alone: the request keeps its body
    handle and the readers keep what they hold. *)
Definition keepsBody (opt : RequestOption) : Prop :=
  forall r rs r' rs', opt r rs = (None, r', rs') ->
    Body r' = Body r /\ forall h data, rs !! h = Some data -> rs' !! h = Some data.

(** More of the stub world: a POST descriptor with a payload, and a
    parameter encoder that fails. *)
Definition stub_post (payload : list Byte.byte) (opts : list RequestOption)
  : @RequestBuilder (list Byte.byte) :=
  {| resourcePath := "/fact"; method := "POST"; body := Some payload;
     requestOptions := opts; errDecodeFn := None |}.

(** An API whose retry counter stands at [a], as earlier calls can leave it. *)
Definition set_api_attempts (a : @API stubExternals) (n : Z) : @API stubExternals :=
  {| options := options a;
     retry := match retry a with Some b => Some (set_attempts b n) | None => None end;
     limiter := limiter a; breaker := breaker a |}.

Definition failingParam : ParamEncoder :=
  fun q => (Some (Errorf "bad param"), q).

Definition failingOption : RequestOption :=
  fun req rs => (Some (Errorf "option failed"), req, rs).

Definition failingHook : option Response -> list Byte.byte -> option error * list Byte.byte :=
  fun _ data => (Some (Errorf "hook failed"), data).

Definition appendHook (b : Byte.byte)
  : option Response -> list Byte.byte -> option error * list Byte.byte :=
  fun _ data => (None, data ++ [b]).

(** * Properties *)

(** ** Arithmetic helpers *)

Lemma wrap64_small (z : Z) : minInt64 <= z <= maxInt64 -> wrap64 z = z.
Proof.
  unfold wrap64, minInt64, maxInt64. intros Hz.
  rewrite Z.mod_small by lia. lia.
Qed.

Lemma inInt64_true (z : Z) : inInt64 z = true <-> minInt64 <= z <= maxInt64.
Proof. unfold inInt64. rewrite andb_true_iff, !Z.leb_le. tauto. Qed.

(** ** The retry controller *)

Section BackoffFacts.
Context {X : Externals}.

Lemma Next_stop (b : backoff) (w : World) :
  maxAttempts b <= attempts b -> Next b w = (stopBackoff, b, w, []).
Proof.
  intros Hge. unfold Next.
  destruct (attempts b >=? maxAttempts b) eqn:E; [reflexivity | lia].
Qed.

Lemma Next_go (b : backoff) (w : World) :
  attempts b < maxAttempts b -> maxAttempts b <= maxInt64 -> minInt64 <= attempts b ->
  Next b w =
    (let n := attempts b + 1 in
     let dw := f b n (minWaitTime b) (maxWaitTime b) w in
     (dw.1, set_attempts b n, dw.2,
      [EvRetryFunc n (minWaitTime b) (maxWaitTime b) dw.1])).
Proof.
  intros Hlt Hmax Hmin. unfold Next.
  destruct (attempts b >=? maxAttempts b) eqn:E; [lia |].
  cbn [set_attempts attempts minWaitTime maxWaitTime f].
  rewrite wrap64_small by lia.
  destruct (f b (attempts b + 1) (minWaitTime b) (maxWaitTime b) w) as [d w'].
  reflexivity.
Qed.

(** The counter after [k] calls of [Next] from a counter within the
    maximum. *)
Lemma Next_times_attempts (k : nat) (b : backoff) (w : World) :
  0 <= attempts b <= maxAttempts b -> maxAttempts b <= maxInt64 ->
  attempts (Next_times k b w).1 = Z.min (attempts b + Z.of_nat k) (maxAttempts b) /\
  maxAttempts (Next_times k b w).1 = maxAttempts b.
Proof.
  revert b w. induction k as [|k IH]; intros b w Ha Hmax.
  - cbn [Next_times fst]. split; [lia | reflexivity].
  - cbn [Next_times].
    destruct (Z.lt_ge_cases (attempts b) (maxAttempts b)) as [Hlt | Hge].
    + rewrite Next_go by (unfold minInt64; lia). cbn zeta.
      destruct (IH (set_attempts b (attempts b + 1))
                   (f b (attempts b + 1) (minWaitTime b) (maxWaitTime b) w).2) as [IHa IHm];
        [cbn [set_attempts attempts maxAttempts]; lia
        | cbn [set_attempts attempts maxAttempts]; lia |].
      cbn [set_attempts attempts maxAttempts] in IHa, IHm.
      rewrite IHa, IHm. split; [lia | reflexivity].
    + rewrite Next_stop by lia.
      destruct (IH b w) as [IHa IHm]; [lia | lia |].
      rewrite IHa, IHm. split; [lia | reflexivity].
Qed.

End BackoffFacts.

Section BackoffClaims.
Context {X : Externals}.

(** C3 (as the code has it). [Next] looks at the counter first: when one
    more attempt would exceed the maximum it returns [stopBackoff], calls
    no delay function and leaves the counter as it is; otherwise it adds
    one to the counter, calls the delay function once with the new attempt
    number, the minimum and the maximum wait, and returns its result. *)
Theorem Next_increments_unless_stopped (b : backoff) (w : World) :
  minInt64 <= attempts b -> maxAttempts b <= maxInt64 ->
  (attempts b + 1 > maxAttempts b ->
     Next b w = (stopBackoff, b, w, [])) /\
  (attempts b + 1 <= maxAttempts b ->
     let n := attempts b + 1 in
     let dw := f b n (minWaitTime b) (maxWaitTime b) w in
     Next b w = (dw.1, set_attempts b n, dw.2,
                 [EvRetryFunc n (minWaitTime b) (maxWaitTime b) dw.1]) /\
     attempts (Next b w).1.1.2 = attempts b + 1).
Proof.
  intros Hmin Hmax. split.
  - intros Hover. apply Next_stop. lia.
  - intros Hfits. cbn zeta. rewrite Next_go by lia. cbn zeta. split; reflexivity.
Qed.

(** C4 (as the code has it). After [k] calls of [Next] on a controller
    whose counter was zero, [Reset] sets the counter to zero and returns
    the smaller of [k] and the maximum: the calls that found the counter at
    the maximum returned [stopBackoff] and were not counted. *)
Theorem Reset_counts_unstopped_Next (k : nat) (b : backoff) (w : World) :
  attempts b = 0 -> 0 <= maxAttempts b <= maxInt64 ->
  (Reset (Next_times k b w).1).1 = Z.min (Z.of_nat k) (maxAttempts b) /\
  attempts (Reset (Next_times k b w).1).2 = 0.
Proof.
  intros H0 Hmax.
  destruct (Next_times_attempts k b w) as [Ha _]; [lia | lia |].
  unfold Reset. cbn [fst snd set_attempts attempts].
  rewrite Ha, H0. split; [f_equal; lia | reflexivity].
Qed.

End BackoffClaims.

(** C3, a run: two attempts allowed, none made yet. *)
Lemma Next_increments_unless_stopped_witness :
  let b := stub_backoff 2 0 in
  let w := stub_world 0 [] 200 None in
  (attempts b + 1 > maxAttempts b -> Next b w = (stopBackoff, b, w, [])) /\
  (attempts b + 1 <= maxAttempts b ->
     let n := attempts b + 1 in
     let dw := f b n (minWaitTime b) (maxWaitTime b) w in
     Next b w = (dw.1, set_attempts b n, dw.2,
                 [EvRetryFunc n (minWaitTime b) (maxWaitTime b) dw.1]) /\
     attempts (Next b w).1.1.2 = attempts b + 1).
Proof.
  apply (@Next_increments_unless_stopped stubExternals (stub_backoff 2 0)
           (stub_world 0 [] 200 None)); vm_compute; discriminate.
Defined.

(** C3 as stated fails: with the counter at the maximum, [Next] returns
    [stopBackoff] and the counter is what it was, not one more. *)
Lemma Next_at_maximum_keeps_counter :
  let b := stub_backoff 1 1 in
  let w := stub_world 0 [] 200 None in
  (Next b w).1.1.1 = stopBackoff /\
  attempts (Next b w).1.1.2 = 1 /\
  attempts (Next b w).1.1.2 <> attempts b + 1.
Proof. vm_compute. repeat split; discriminate. Qed.

(** C4, a run: three calls of [Next] with a maximum of five. *)
Lemma Reset_counts_unstopped_Next_witness :
  (Reset (Next_times 3 (stub_backoff 5 0) (stub_world 0 [] 200 None)).1).1
    = Z.min (Z.of_nat 3) (maxAttempts (stub_backoff 5 0)) /\
  attempts (Reset (Next_times 3 (stub_backoff 5 0) (stub_world 0 [] 200 None)).1).2 = 0.
Proof.
  apply (@Reset_counts_unstopped_Next stubExternals 3 (stub_backoff 5 0)
           (stub_world 0 [] 200 None)); vm_compute; [reflexivity | split; discriminate].
Defined.

(** C4 as stated fails: after two calls of [Next] with a maximum of one,
    [Reset] returns one, not two. *)
Lemma Reset_after_two_Next_returns_one :
  let b := stub_backoff 1 0 in
  let w := stub_world 0 [] 200 None in
  (Reset (Next_times 2 b w).1).1 = 1 /\
  (Reset (Next_times 2 b w).1).1 <> Z.of_nat 2.
Proof. vm_compute. split; [reflexivity | discriminate]. Qed.

(** ** float64: rounding *)

Lemma pow2_pos (e : Z) : (0 < pow2 e)%Q.
Proof. apply Qpower_0_lt. reflexivity. Qed.

Lemma pow2_add (a b : Z) : (pow2 (a + b) == pow2 a * pow2 b)%Q.
Proof. apply Qpower_plus. discriminate. Qed.

Lemma pow2_Z (e : Z) : 0 <= e -> (pow2 e == inject_Z (2 ^ e))%Q.
Proof. intros He. symmetry. apply (Zpower_Qpower 2 e He). Qed.

Lemma pow2_le (a b : Z) : a <= b -> (pow2 a <= pow2 b)%Q.
Proof. intros H. apply Qpower_le_compat_l; [exact H | discriminate]. Qed.

Lemma pow2_lt (a b : Z) : a < b -> (pow2 a < pow2 b)%Q.
Proof. intros H. apply Qpower_lt_compat_l; [exact H | reflexivity]. Qed.

(** The binade is not above the number. *)
Lemma ilog2_le (x : Q) : (0 < x)%Q -> (pow2 (ilog2 x) <= x)%Q.
Proof.
  intros Hx. unfold ilog2. cbn zeta.
  destruct (Qle_bool _ x) eqn:E; [apply Qle_bool_iff; exact E |].
  destruct x as [n d]. cbn [Qnum Qden].
  assert (Hn : 0 < n) by (unfold Qlt in Hx; cbn in Hx; lia).
  pose proof (Z.log2_spec n Hn) as [Hn1 _].
  pose proof (Z.log2_spec (Zpos d) ltac:(lia)) as [_ Hd2].
  pose proof (Z.log2_nonneg n) as Hln. pose proof (Z.log2_nonneg (Zpos d)) as Hld.
  replace (Z.log2 n - Z.log2 (Z.pos d) - 1) with (Z.log2 n + - Z.succ (Z.log2 (Z.pos d))) by lia.
  rewrite pow2_add. unfold pow2 at 2. rewrite Qpower_opp.
  fold (pow2 (Z.succ (Z.log2 (Z.pos d)))).
  rewrite !pow2_Z by lia.
  apply Qle_shift_div_r.
  - change 0%Q with (inject_Z 0). rewrite <- Zlt_Qlt. apply Z.pow_pos_nonneg; lia.
  - unfold Qle, Qmult, inject_Z. cbn [Qnum Qden]. nia.
Qed.

Lemma roundEven_le (x : Q) (L : Z) : (x <= inject_Z L)%Q -> roundEven x <= L.
Proof.
  intros Hx. unfold roundEven. cbn zeta.
  pose proof (Qfloor_resp_le _ _ Hx) as Hfl. rewrite Qfloor_Z in Hfl.
  destruct (Z.eq_dec (Qfloor x) L) as [Heq | Hne].
  - assert (Hz : (x - inject_Z (Qfloor x) <= 0)%Q).
    { rewrite Heq. unfold Qminus. rewrite <- (Qplus_opp_r (inject_Z L)).
      apply Qplus_le_compat; [exact Hx | apply Qle_refl]. }
    destruct (Qcompare_spec (x - inject_Z (Qfloor x)) (1 # 2)) as [H | H | H].
    + rewrite H in Hz. exfalso. apply Hz. reflexivity.
    + lia.
    + exfalso. apply (Qlt_irrefl (1 # 2)).
      eapply Qlt_le_trans; [exact H |]. eapply Qle_trans; [exact Hz | intros Hc; discriminate Hc].
  - destruct (x - inject_Z (Qfloor x) ?= 1 # 2)%Q; [destruct (Z.even _) | |]; lia.
Qed.

Lemma roundEven_ge (x : Q) : Qfloor x <= roundEven x.
Proof.
  unfold roundEven. cbn zeta.
  destruct (x - inject_Z (Qfloor x) ?= 1 # 2)%Q; [destruct (Z.even _) | |]; lia.
Qed.

Lemma roundEven_Z (x : Q) (L : Z) : (x == inject_Z L)%Q -> roundEven x = L.
Proof.
  intros Hx. apply Z.le_antisymm.
  - apply roundEven_le. rewrite Hx. apply Qle_refl.
  - rewrite <- (Qfloor_Z L), <- (Qfloor_comp _ _ Hx). apply roundEven_ge.
Qed.

Lemma Qle_0_inject_Z (z : Z) : 0 <= z -> (0 <= inject_Z z)%Q.
Proof. intros Hz. unfold Qle. cbn [Qnum Qden inject_Z]. lia. Qed.

(** Rounding keeps a number that is not negative between zero and any
    whole number up to [2^53] above it, and keeps such a whole number as
    it is. *)
Lemma round53_bounds (x : Q) (K : Z) :
  (0 <= x)%Q -> (x <= inject_Z K)%Q -> K <= 2 ^ 53 ->
  (0 <= round53 x)%Q /\ (round53 x <= inject_Z K)%Q /\
  ((x == inject_Z K)%Q -> (round53 x == inject_Z K)%Q).
Proof.
  intros H0 HK H53. unfold round53.
  destruct (Qeq_bool x 0) eqn:Ez.
  { apply Qeq_bool_iff in Ez. split; [apply Qle_refl |]. split.
    - rewrite <- Ez. exact HK.
    - intros E. rewrite <- E, Ez. reflexivity. }
  apply Qeq_bool_neq in Ez.
  assert (Hpos : (0 < x)%Q).
  { apply Qle_lteq in H0. destruct H0 as [H | H]; [exact H |]. exfalso. apply Ez. symmetry. exact H. }
  assert (Hb : Qle_bool 0 x = true) by (apply Qle_bool_iff; exact H0).
  rewrite Hb. cbn zeta.
  assert (Ha : Qabs x = x).
  { destruct x as [[|p|p] d]; [reflexivity | reflexivity |].
    unfold Qlt in Hpos. cbn in Hpos. lia. }
  rewrite Ha.
  set (e := Z.max (ilog2 x - 52) (-1074)).
  pose proof (ilog2_le x Hpos) as Hlog.
  assert (HxK : (x <= pow2 53)%Q).
  { eapply Qle_trans; [exact HK |]. rewrite pow2_Z by lia. rewrite <- Zle_Qle. exact H53. }
  assert (Hl53 : ilog2 x <= 53).
  { destruct (Z.le_gt_cases (ilog2 x) 53) as [H | H]; [exact H | exfalso].
    apply (Qlt_irrefl (pow2 53)).
    eapply Qlt_le_trans; [apply (pow2_lt 53 (ilog2 x)); lia |].
    eapply Qle_trans; [exact Hlog | exact HxK]. }
  assert (He : -1074 <= e <= 1) by (subst e; lia).
  pose proof (pow2_pos e) as Hpe.
  (* [K] is a whole number of units [2^e] *)
  assert (HL : exists L : Z, (inject_Z K == inject_Z L * pow2 e)%Q).
  { destruct (Z.le_gt_cases e 0) as [Hle | Hgt].
    - exists (K * 2 ^ (- e)).
      rewrite inject_Z_mult, <- pow2_Z by lia.
      rewrite <- Qmult_assoc, <- pow2_add.
      replace (- e + e) with 0 by lia. unfold pow2. cbn [Qpower]. rewrite Qmult_1_r. reflexivity.
    - assert (e = 1) by lia. assert (Hl : ilog2 x = 53) by (subst e; lia).
      rewrite Hl in Hlog.
      assert (HK53 : K = 2 ^ 53).
      { apply Z.le_antisymm; [exact H53 |].
        rewrite Zle_Qle, <- pow2_Z by lia. eapply Qle_trans; [exact Hlog | exact HK]. }
      exists (2 ^ 52). subst K. replace e with 1 by lia. reflexivity. }
  destruct HL as [L HL].
  assert (Hdiv : (x / pow2 e <= inject_Z L)%Q).
  { apply Qle_shift_div_r; [exact Hpe |]. rewrite <- HL. exact HK. }
  assert (Hdiv0 : (0 <= x / pow2 e)%Q).
  { apply Qle_shift_div_l; [exact Hpe |]. rewrite Qmult_0_l. exact H0. }
  pose proof (roundEven_le _ _ Hdiv) as Hm.
  assert (Hm0 : 0 <= roundEven (x / pow2 e)).
  { eapply Z.le_trans; [| apply roundEven_ge].
    rewrite <- (Qfloor_Z 0). apply Qfloor_resp_le. exact Hdiv0. }
  split; [| split].
  - apply Qmult_le_0_compat; [apply Qle_0_inject_Z; exact Hm0 | apply Qlt_le_weak; exact Hpe].
  - rewrite HL. apply Qmult_le_compat_r; [| apply Qlt_le_weak; exact Hpe].
    rewrite <- Zle_Qle. exact Hm.
  - intros E. rewrite HL.
    assert (Hd : (x / pow2 e == inject_Z L)%Q).
    { rewrite E, HL. unfold Qdiv. rewrite <- Qmult_assoc, Qmult_inv_r, Qmult_1_r; [reflexivity |].
      intros Hz. rewrite Hz in Hpe. discriminate Hpe. }
    rewrite (roundEven_Z _ _ Hd). reflexivity.
Qed.

(** A rounded value of at most [2^53] is finite. *)
Lemma round64_small (x : Q) :
  (0 <= round53 x)%Q -> (round53 x <= inject_Z (2 ^ 53))%Q -> round64 x = Fin64 (round53 x).
Proof.
  intros H0 H53. unfold round64. cbn zeta.
  destruct (Qle_bool (pow2 1024) (Qabs (round53 x))) eqn:E; [exfalso | reflexivity].
  apply Qle_bool_iff in E. rewrite (Qabs_pos _ H0) in E.
  apply (Qlt_irrefl (pow2 1024)).
  eapply Qle_lt_trans; [exact E |]. eapply Qle_lt_trans; [exact H53 |].
  rewrite <- pow2_Z by lia. apply pow2_lt. lia.
Qed.

(** The product of two float64 values that are not negative, when the
    exact product is at most the whole number [K <= 2^53]. *)
Lemma fmul_bounds (p q : Q) (K : Z) :
  (0 <= p * q)%Q -> (p * q <= inject_Z K)%Q -> K <= 2 ^ 53 ->
  exists r, fmul (Fin64 p) (Fin64 q) = Fin64 r /\
            (0 <= r)%Q /\ (r <= inject_Z K)%Q /\
            ((p * q == inject_Z K)%Q -> (r == inject_Z K)%Q).
Proof.
  intros H0 HK H53.
  destruct (round53_bounds (p * q) K H0 HK H53) as (R0 & RK & RE).
  exists (round53 (p * q)). cbn [fmul]. split; [| repeat split; assumption].
  apply round64_small; [exact R0 |].
  eapply Qle_trans; [exact RK |]. rewrite <- Zle_Qle. exact H53.
Qed.

(** The conversion of a whole number between zero and [2^53] is exact. *)
Lemma float64_of_int_exact (n : Z) :
  0 <= n <= 2 ^ 53 -> exists q, float64_of_int n = Fin64 q /\ (q == inject_Z n)%Q.
Proof.
  intros Hn. exists (round53 (inject_Z n)). split; [reflexivity |].
  destruct (round53_bounds (inject_Z n) n) as (_ & _ & E);
    [apply Qle_0_inject_Z; lia | apply Qle_refl | lia |].
  apply E. reflexivity.
Qed.

(** The conversion of a negative whole number is not positive. *)
Lemma float64_of_int_neg (n : Z) :
  n < 0 -> exists q, float64_of_int n = Fin64 q /\ (q <= 0)%Q.
Proof.
  intros Hn. exists (round53 (inject_Z n)). split; [reflexivity |].
  unfold round53.
  destruct (Qeq_bool (inject_Z n) 0); [apply Qle_refl |].
  assert (Hb : Qle_bool 0 (inject_Z n) = false).
  { destruct (Qle_bool 0 (inject_Z n)) eqn:E; [| reflexivity].
    apply Qle_bool_iff in E. unfold Qle in E. cbn in E. lia. }
  rewrite Hb. cbn zeta.
  set (a := Qabs (inject_Z n)). set (e := Z.max _ _).
  assert (H : (0 <= inject_Z (roundEven (a / pow2 e)) * pow2 e)%Q).
  { apply Qmult_le_0_compat; [| apply Qlt_le_weak, pow2_pos].
    apply Qle_0_inject_Z. eapply Z.le_trans; [| apply roundEven_ge].
    rewrite <- (Qfloor_Z 0). apply Qfloor_resp_le.
    apply Qle_shift_div_l; [apply pow2_pos |]. rewrite Qmult_0_l. apply Qabs_nonneg. }
  apply Qopp_le_compat in H. exact H.
Qed.

(** A product with zero is zero. *)
Lemma fmul_zero_r (p q : Q) : (q == 0)%Q -> exists r, fmul (Fin64 p) (Fin64 q) = Fin64 r /\ (r == 0)%Q.
Proof.
  intros Hq.
  destruct (fmul_bounds p q 0) as (r & Hr & _ & _ & E).
  - rewrite Hq, Qmult_0_r. apply Qle_refl.
  - rewrite Hq, Qmult_0_r. apply Qle_refl.
  - lia.
  - exists r. split; [exact Hr |]. apply E. rewrite Hq, Qmult_0_r. reflexivity.
Qed.

Lemma fmul_zero_l (p q : Q) : (p == 0)%Q -> exists r, fmul (Fin64 p) (Fin64 q) = Fin64 r /\ (r == 0)%Q.
Proof.
  intros Hp.
  destruct (fmul_bounds p q 0) as (r & Hr & _ & _ & E).
  - rewrite Hp, Qmult_0_l. apply Qle_refl.
  - rewrite Hp, Qmult_0_l. apply Qle_refl.
  - lia.
  - exists r. split; [exact Hr |]. apply E. rewrite Hp, Qmult_0_l. reflexivity.
Qed.

(** [math.Pow(2, float64(n))] is finite up to 1023. *)
Lemma math_Pow2_finite (n : Z) : n <= 1023 -> exists p, math_Pow2 (float64_of_int n) = Fin64 p.
Proof.
  intros Hn.
  assert (Hq : exists q, float64_of_int n = Fin64 q /\ Qfloor q <= 1023).
  { destruct (Z.lt_ge_cases n 0) as [Hneg | Hpos].
    - destruct (float64_of_int_neg n Hneg) as (q & E & Hq0). exists q. split; [exact E |].
      apply Qfloor_resp_le in Hq0. change (Qfloor 0) with 0 in Hq0. lia.
    - destruct (float64_of_int_exact n) as (q & E & Hq0); [lia |]. exists q. split; [exact E |].
      rewrite (Qfloor_comp _ _ Hq0), Qfloor_Z. exact Hn. }
  destruct Hq as (q & -> & Hfl). cbn [math_Pow2].
  destruct (Z.gtb_spec (Qfloor q) 1023); [lia |].
  destruct (Qfloor q <? -1074); eexists; reflexivity.
Qed.

(** ** The default delay function *)

Lemma Qtrunc_Qfloor (x : Q) : (0 <= x)%Q -> Qtrunc x = Qfloor x.
Proof.
  destruct x as [n d]. unfold Qle, Qtrunc, Qfloor. cbn [Qnum Qden].
  intros Hn. apply Z.quot_div_nonneg; lia.
Qed.

Lemma Qtrunc_inject_nonneg (x : Q) (z : Z) :
  0 <= z -> (x == inject_Z z)%Q -> Qtrunc x = z.
Proof.
  intros Hz Hx. rewrite Qtrunc_Qfloor.
  - rewrite (Qfloor_comp _ _ Hx). apply Qfloor_Z.
  - rewrite Hx. apply Qle_0_inject_Z, Hz.
Qed.

Lemma Qtrunc_bounds (x : Q) (z : Z) :
  (0 <= x)%Q -> (x <= inject_Z z)%Q -> 0 <= Qtrunc x <= z.
Proof.
  intros H0 Hz. rewrite Qtrunc_Qfloor by exact H0. split.
  - rewrite <- (Qfloor_Z 0). apply Qfloor_resp_le. exact H0.
  - rewrite <- (Qfloor_Z z). apply Qfloor_resp_le. exact Hz.
Qed.

Section DelayFacts.
Context {X : Externals}.

Lemma Duration_of_float64_small (x : Q) :
  minInt64 <= Qtrunc x <= maxInt64 -> Duration_of_float64 (Fin64 x) = Qtrunc x.
Proof.
  intros Hx. unfold Duration_of_float64.
  destruct (inInt64 (Qtrunc x)) eqn:E; [reflexivity |].
  apply inInt64_true in Hx. congruence.
Qed.

(** [math.Pow(2, float64(n))] for an [n] float64 has the power of two of. *)
Lemma math_Pow2_int (n : Z) :
  0 <= n <= 1023 -> math_Pow2 (float64_of_int n) = Fin64 (pow2 n).
Proof.
  intros Hn.
  destruct (float64_of_int_exact n) as (q & -> & Hq); [lia |].
  cbn [math_Pow2]. rewrite (Qfloor_comp _ _ Hq), Qfloor_Z.
  destruct (Z.gtb_spec n 1023); [lia |].
  destruct (Z.ltb_spec n (-1074)); [lia | reflexivity].
Qed.

(** The exponential part: [min * 2^n], while float64 holds it exactly. *)
Lemma delay_part (n : Z) (min : Duration) :
  0 <= n <= 1023 -> 0 <= min -> 2 ^ n * min <= 2 ^ 53 ->
  Duration_of_float64 (fmul (math_Pow2 (float64_of_int n)) (float64_of_int min)) = 2 ^ n * min.
Proof.
  intros Hn Hmin Hfit.
  assert (Hpow : 0 < 2 ^ n) by (apply Z.pow_pos_nonneg; lia).
  rewrite math_Pow2_int by exact Hn.
  destruct (float64_of_int_exact min) as (qm & -> & Hqm); [nia |].
  assert (Hprod : (pow2 n * qm == inject_Z (2 ^ n * min))%Q).
  { rewrite Hqm, inject_Z_mult, pow2_Z by lia. reflexivity. }
  destruct (fmul_bounds (pow2 n) qm (2 ^ n * min)) as (r & -> & _ & _ & Hr);
    [rewrite Hprod; apply Qle_0_inject_Z; nia | rewrite Hprod; apply Qle_refl | exact Hfit |].
  specialize (Hr Hprod).
  assert (Heq : Qtrunc r = 2 ^ n * min) by (apply Qtrunc_inject_nonneg; [nia | exact Hr]).
  rewrite Duration_of_float64_small; rewrite Heq; [reflexivity |].
  unfold minInt64, maxInt64. nia.
Qed.

(** The jitter: between zero and [min * n]. *)
Lemma jitter_part (rnd : Q) (n : Z) (min : Duration) :
  (0 <= rnd)%Q -> (rnd < 1)%Q -> 0 <= n <= 2 ^ 53 -> 0 <= min <= 2 ^ 53 ->
  min * n <= 2 ^ 53 ->
  0 <= Duration_of_float64
         (fmul (fmul (Fin64 rnd) (float64_of_int min)) (float64_of_int n)) <= min * n.
Proof.
  intros Hr0 Hr1 Hn Hmin Hfit.
  destruct (float64_of_int_exact min Hmin) as (qm & -> & Hqm).
  destruct (float64_of_int_exact n Hn) as (qn & -> & Hqn).
  pose proof (Qle_0_inject_Z min (proj1 Hmin)) as Hmq.
  pose proof (Qle_0_inject_Z n (proj1 Hn)) as Hnq.
  destruct (fmul_bounds rnd qm min) as (y1 & -> & Hy0 & Hy1 & _).
  { rewrite Hqm. apply Qmult_le_0_compat; assumption. }
  { rewrite Hqm. apply Qle_trans with (1 * inject_Z min)%Q.
    - apply Qmult_le_compat_r; [apply Qlt_le_weak; exact Hr1 | exact Hmq].
    - rewrite Qmult_1_l. apply Qle_refl. }
  { lia. }
  destruct (fmul_bounds y1 qn (min * n)) as (y2 & -> & Hz0 & Hz1 & _).
  { rewrite Hqn. apply Qmult_le_0_compat; assumption. }
  { rewrite Hqn, inject_Z_mult. apply Qmult_le_compat_r; assumption. }
  { exact Hfit. }
  pose proof (Qtrunc_bounds y2 (min * n) Hz0 Hz1) as Hb.
  rewrite Duration_of_float64_small; [exact Hb |].
  unfold minInt64, maxInt64. lia.
Qed.

(** Before the cap and while float64 holds every number involved exactly,
    the delay is [min * 2^n] plus a jitter between zero and [min * n]. *)
Lemma ExponentalBackoff_delay_bounds (rnd : Q) (n : Z) (min : Duration) :
  (0 <= rnd)%Q -> (rnd < 1)%Q -> 0 <= n <= 1023 -> 0 <= min ->
  min * 2 ^ n + min * n <= 2 ^ 53 ->
  min * 2 ^ n <= ExponentalBackoff_delay rnd n min <= min * 2 ^ n + min * n.
Proof.
  intros Hr0 Hr1 Hn Hmin Hfit.
  assert (Hpow : 0 < 2 ^ n) by (apply Z.pow_pos_nonneg; lia).
  unfold ExponentalBackoff_delay. cbn zeta.
  rewrite delay_part by nia.
  pose proof (jitter_part rnd n min Hr0 Hr1 ltac:(lia) ltac:(nia) ltac:(nia)) as Hj.
  rewrite wrap64_small; [lia |].
  unfold minInt64, maxInt64. nia.
Qed.

Lemma ExponentalBackoff_with_le_max (rnd : Q) (n : Z) (min max : Duration) :
  ExponentalBackoff_with rnd n min max <= max.
Proof.
  unfold ExponentalBackoff_with. cbn zeta.
  destruct (ExponentalBackoff_delay rnd n min >? max) eqn:E; lia.
Qed.

End DelayFacts.

Section DelayClaims.
Context {X : Externals}.

(** C8 (as the code has it). For attempt numbers [1 <= n < m <= 1023] and a
    minimum wait [min >= 0] with [min * 2^m + min * m <= 2^53], where
    float64 holds every whole number involved as it is: the delay before
    the cap at [n] is [min * 2^n] plus a jitter between zero and [min * n],
    and it is at most the delay before the cap at [m], whatever the two
    draws are. And for all inputs the delay returned is at most [max]. *)
Theorem ExponentalBackoff_monotone_while_exact
    (rnd rnd' : Q) (n m : Z) (min : Duration) :
  (0 <= rnd)%Q -> (rnd < 1)%Q -> (0 <= rnd')%Q -> (rnd' < 1)%Q ->
  1 <= n < m -> m <= 1023 -> 0 <= min ->
  min * 2 ^ m + min * m <= 2 ^ 53 ->
  min * 2 ^ n <= ExponentalBackoff_delay rnd n min <= min * 2 ^ n + min * n /\
  ExponentalBackoff_delay rnd n min <= ExponentalBackoff_delay rnd' m min /\
  (forall r k mn max, ExponentalBackoff_with r k mn max <= max).
Proof.
  intros Hr0 Hr1 Hr0' Hr1' Hnm Hm Hmin Hfit.
  assert (Hpn : n < 2 ^ n) by (apply Z.pow_gt_lin_r; lia).
  assert (Hpm : 2 ^ (n + 1) <= 2 ^ m) by (apply Z.pow_le_mono_r; lia).
  rewrite Z.pow_add_r, Z.pow_1_r in Hpm by lia.
  pose proof (ExponentalBackoff_delay_bounds rnd' m min Hr0' Hr1' ltac:(lia) Hmin Hfit) as Hdm.
  pose proof (ExponentalBackoff_delay_bounds rnd n min Hr0 Hr1 ltac:(lia) Hmin ltac:(nia)) as Hdn.
  split; [exact Hdn |]. split; [nia |].
  intros r k mn max. apply ExponentalBackoff_with_le_max.
Qed.

End DelayClaims.

(** C8, a run: a minimum wait of one second, attempts 1 and 2. *)
Lemma ExponentalBackoff_monotone_while_exact_witness :
  second * 2 ^ 1 <= @ExponentalBackoff_delay stubExternals (1 # 2) 1 second
    <= second * 2 ^ 1 + second * 1 /\
  @ExponentalBackoff_delay stubExternals (1 # 2) 1 second
    <= @ExponentalBackoff_delay stubExternals (1 # 4) 2 second /\
  (forall r k mn max, @ExponentalBackoff_with stubExternals r k mn max <= max).
Proof.
  apply (@ExponentalBackoff_monotone_while_exact stubExternals
           (1 # 2) (1 # 4) 1 2 second); vm_compute;
    first [ discriminate | reflexivity | split; [discriminate | reflexivity] ].
Defined.

(** C8 as stated fails: with a minimum wait of [2^61 - 256] nanoseconds and
    the draw 1/2, the sum [delay + jitter] of attempt 2 leaves the range of
    [int64] and wraps, so the delay before the cap drops below that of
    attempt 1. float64 holds every value on the way as it is (the minimum
    has 53 significant bits), and both conversions of attempt 2 are of
    finite values within the range of [int64]. *)
Lemma ExponentalBackoff_delay_wraps :
  let min := 2 ^ 61 - 256 in
  @ExponentalBackoff_delay stubExternals (1 # 2) 1 min = 5764607523034234240 /\
  @ExponentalBackoff_delay stubExternals (1 # 2) 2 min = -6917529027641083136 /\
  match fmul (math_Pow2 (float64_of_int 2)) (float64_of_int min) with
  | Fin64 q => Qtrunc q = 4 * min /\ inInt64 (Qtrunc q) = true
  | _ => False
  end /\
  match fmul (fmul (Fin64 (1 # 2)) (float64_of_int min)) (float64_of_int 2) with
  | Fin64 q => Qtrunc q = min /\ inInt64 (Qtrunc q) = true
  | _ => False
  end /\
  ~ (@ExponentalBackoff_delay stubExternals (1 # 2) 1 min
       <= @ExponentalBackoff_delay stubExternals (1 # 2) 2 min).
Proof.
  vm_compute. repeat split; discriminate || reflexivity || (intros H; apply H; reflexivity).
Qed.

(** ** The limiter *)

Section LimiterFacts.
Context {X : Externals}.

Lemma tryReset_at_true (l : adaptiveBucketLimiter) (now : Time) :
  tryReset_at l now = true <-> now <= nextResetAt l.
Proof.
  unfold tryReset_at, Time_Equal, Time_After.
  rewrite orb_true_iff, Z.eqb_eq, Z.gtb_gt. lia.
Qed.

Lemma runResetEvents_trace (es : list resetEvent) (w : World) :
  (runResetEvents es w).2
    = map (fun e => match e with setBurst b => EvSetBurst b | setLimit q => EvSetLimit q end) es.
Proof.
  revert w. induction es as [|e es IH]; intros w; [reflexivity |].
  cbn [runResetEvents map].
  destruct (runResetEvent e w) as [w1 ev] eqn:E1.
  specialize (IH w1). destruct (runResetEvents es w1) as [w2 evs].
  cbn [snd] in *. rewrite <- IH. f_equal.
  destruct e; cbn in E1; congruence.
Qed.

(** What the code does: the pending change is applied when its time has
    not come yet (or comes just now), and is left alone once it has passed. *)
Lemma Wait_reset_cases (l : adaptiveBucketLimiter) (w : World) :
  let now := (time_Now w).1 in
  let w1 := (time_Now w).2 in
  (now <= nextResetAt l ->
     Wait_reset l w = ({| nextResetAt := zeroTime; nextResetEvents := [] |},
                       (runResetEvents (nextResetEvents l) w1).1,
                       (runResetEvents (nextResetEvents l) w1).2)) /\
  (nextResetAt l < now -> Wait_reset l w = (l, w1, [])).
Proof.
  cbn zeta. unfold Wait_reset, tryReset.
  destruct (time_Now w) as [now w1]. cbn [fst snd].
  split; intros H.
  - apply tryReset_at_true in H. rewrite H.
    destruct (runResetEvents (nextResetEvents l) w1); reflexivity.
  - destruct (tryReset_at l now) eqn:E; [| reflexivity].
    apply tryReset_at_true in E. lia.
Qed.

End LimiterFacts.

(** C2, on the code: a limiter with the pending trigger time 5 and two
    callbacks. A [Wait] at time 10, after the trigger time, applies
    neither and leaves trigger and list as they are; a [Wait] at time 3,
    before the trigger time, applies both in order and clears trigger and
    list. *)
Theorem Wait_applies_pending_change_before_its_time :
  let l := {| nextResetAt := 5; nextResetEvents := [setBurst 3; setLimit (2 # 1)] |} in
  let late := stub_world 10 [] 200 None in
  let early := stub_world 3 [] 200 None in
  @Wait stubExternals l (ctxToken 0) late
    = (None, l, late, [EvRateWait (ctxToken 0) None]) /\
  @Wait stubExternals l (ctxToken 0) early
    = (None, {| nextResetAt := zeroTime; nextResetEvents := [] |},
       {| stub_now := 3; stub_script := []; stub_default := 200; stub_breaker := None;
          stub_burst := 3; stub_limit := 2 # 1 |},
       [EvSetBurst 3; EvSetLimit (2 # 1); EvRateWait (ctxToken 0) None]).
Proof. split; reflexivity. Qed.

(** ** The pipeline: general facts *)

Ltac run_unfold := unfold mbind, M_bind, mret, M_ret in *.

Section PipelineFacts.
Context {X : Externals}.

Lemma countEvents_app (p : Event -> bool) (t1 t2 : list Event) :
  countEvents p (t1 ++ t2) = (countEvents p t1 + countEvents p t2)%nat.
Proof.
  induction t1 as [|e t1 IH]; [reflexivity |].
  cbn [app countEvents]. rewrite IH. destruct (p e); reflexivity.
Qed.

Lemma sentBodies_app (t1 t2 : list Event) :
  sentBodies (t1 ++ t2) = sentBodies t1 ++ sentBodies t2.
Proof.
  induction t1 as [|e t1 IH]; [reflexivity |].
  destruct e; cbn [app sentBodies]; rewrite IH; reflexivity.
Qed.

(** A bind runs its first part, then the rest from where that ended. *)
Lemma run_bind {A B : Type} (m : M A) (k : A -> M B) (s : State) :
  (m ≫= k) s =
    (result_of (k (result_of (m s)) (state_of (m s))),
     state_of (k (result_of (m s)) (state_of (m s))),
     trace_of (m s) ++ trace_of (k (result_of (m s)) (state_of (m s)))).
Proof.
  unfold mbind, M_bind, result_of, state_of, trace_of.
  destruct (m s) as [[a s1] t1]. cbn [fst snd].
  destruct (k a s1) as [[b s2] t2]. reflexivity.
Qed.

(** *** The attempt *)

Lemma do_rehydrate_inv (httpReq : Request) (reuse : bool) (s : State)
    (httpReq' req : Request) (s1 : State) (t1 : list Event) :
  do_rehydrate httpReq reuse s = (httpReq', req, s1, t1) ->
  t1 = [] /\ api s1 = api s /\ world s1 = world s.
Proof.
  unfold do_rehydrate, readAll, newReader. run_unfold.
  destruct reuse, (Body httpReq); intros H; simplify_eq; repeat split.
Qed.

(** With [reuse], both the request kept and the request sent get a reader
    of their own over the bytes the body held. *)
Lemma do_rehydrate_body (httpReq : Request) (s : State) (h : nat) (data : list Byte.byte)
    (httpReq' req : Request) (s1 : State) (t1 : list Event) :
  do_rehydrate httpReq true s = (httpReq', req, s1, t1) ->
  Body httpReq = Some h -> readers s !! h = Some data ->
  exists hb hc,
    Body httpReq' = Some hb /\ Body req = Some hc /\ hb <> hc /\
    readers s1 !! hb = Some data /\ readers s1 !! hc = Some data.
Proof.
  unfold do_rehydrate, readAll, newReader. run_unfold.
  intros H Hb Hd. rewrite Hb in H. simplify_eq. cbn.
  rewrite Hd. cbn.
  exists (length (<[h:=[]]> (readers s))), (length (<[h:=[]]> (readers s) ++ [data])).
  repeat split.
  - rewrite length_app. cbn. lia.
  - rewrite lookup_app_l by (rewrite length_app; cbn; lia).
    rewrite lookup_app_r by lia. rewrite Nat.sub_diag. reflexivity.
  - rewrite lookup_app_r by lia. rewrite Nat.sub_diag. reflexivity.
Qed.

Lemma do_rehydrate_plain (httpReq : Request) (s : State) :
  do_rehydrate httpReq false s = (httpReq, httpReq, s, []).
Proof. reflexivity. Qed.

Lemma client_Do_inv (ctx : Ctx) (req : Request) (s : State)
    (r : Result) (s' : State) (t : list Event) :
  client_Do ctx req s = (r, s', t) ->
  api s' = api s /\
  t = [EvHttpDo req (Body req ≫= (fun h => readers s !! h)) r] /\
  (forall h, Body req <> Some h -> readers s' !! h = readers s !! h).
Proof.
  unfold client_Do. intros H.
  destruct (httpClient_Do ctx req _ (world s)) as [res w'] eqn:E.
  simplify_eq. cbn. repeat split.
  intros h Hh. destruct (Body req) as [hr|]; [| reflexivity].
  apply list_lookup_insert_ne. congruence.
Qed.

Lemma do_call_inv (ctx : Ctx) (req : Request) (s : State)
    (r : Result + Result) (s' : State) (t : list Event) :
  do_call ctx req s = (r, s', t) ->
  api s' = api s /\
  countEvents (isAttemptStart (has_breaker (api s))) t = 1%nat /\
  Forall (fun b => b = (Body req ≫= (fun h => readers s !! h))) (sentBodies t) /\
  (forall h, Body req <> Some h -> readers s' !! h = readers s !! h).
Proof.
  unfold do_call, breaker_Execute, guardedDo, breaker_before, breaker_after. run_unfold.
  destruct (has_breaker (api s)) eqn:Hb.
  - destruct (breaker_beforeRequest (world s)) as [[err|] w'] eqn:Eb.
    + intros H. simplify_eq. cbn. repeat split. constructor.
    + destruct (client_Do ctx req (set_world s w')) as [[res s2] t2] eqn:Ec.
      apply client_Do_inv in Ec. destruct Ec as (Ha & Ht & Hr). subst t2.
      intros H. simplify_eq. cbn. repeat split; try assumption.
      repeat constructor.
  - destruct (client_Do ctx req s) as [[res s2] t2] eqn:Ec.
    apply client_Do_inv in Ec. destruct Ec as (Ha & Ht & Hr). subst t2.
    intros H. simplify_eq. cbn. repeat split; try assumption.
    repeat constructor.
Qed.


Lemma do_finish_inv (res out : Result) (s s' : State) (t : list Event) :
  do_finish res s = (out, s', t) ->
  s' = s /\ sentBodies t = [] /\
  (forall b, countEvents (isAttemptStart b) t = 0%nat).
Proof.
  unfold do_finish. run_unfold. intros H.
  repeat case_match; simplify_eq; repeat split; intros []; reflexivity.
Qed.

(** A run of [do], taken apart. *)
Lemma do_inv (ctx : Ctx) (httpReq : Request) (reuse : bool) (s : State)
    (out : Result) (httpReq' : Request) (s' : State) (t : list Event) :
  do ctx httpReq reuse s = (out, httpReq', s', t) ->
  exists req s1 r s2 t2 t3,
    do_rehydrate httpReq reuse s = (httpReq', req, s1, []) /\
    do_call ctx req s1 = (r, s2, t2) /\
    t = t2 ++ t3 /\
    match r with
    | inl early => out = early /\ s' = s2 /\ t3 = []
    | inr res => do_finish res s2 = (out, s', t3)
    end.
Proof.
  unfold do. run_unfold.
  destruct (do_rehydrate httpReq reuse s) as [[[h' req] s1] t1] eqn:E1.
  destruct (do_rehydrate_inv _ _ _ _ _ _ _ E1) as (-> & _ & _).
  destruct (do_call ctx req s1) as [[r s2] t2] eqn:E2.
  destruct r as [early | res].
  - intros H. simplify_eq. exists req, s1, (inl out), s', t2, []. cbn.
    rewrite app_nil_r. repeat split; assumption.
  - destruct (do_finish res s2) as [[o s3] t3] eqn:E3.
    intros H. simplify_eq. exists req, s1, (inr res), s2, t2, t3. cbn.
    rewrite app_nil_r. repeat split; assumption.
Qed.

Lemma do_api (ctx : Ctx) (httpReq : Request) (reuse : bool) (s : State) :
  api (state_of (do ctx httpReq reuse s)) = api s.
Proof.
  destruct (do ctx httpReq reuse s) as [[[out h'] s'] t] eqn:E. cbn.
  apply do_inv in E. destruct E as (req & s1 & r & s2 & t2 & t3 & E1 & E2 & -> & E3).
  apply do_rehydrate_inv in E1. destruct E1 as (_ & Ha1 & _).
  apply do_call_inv in E2. destruct E2 as (Ha2 & _).
  destruct r as [early | res].
  - destruct E3 as (_ & -> & _). congruence.
  - apply do_finish_inv in E3. destruct E3 as (-> & _). congruence.
Qed.

(** Every run of [do] is one transport attempt. *)
Lemma do_one_attempt (ctx : Ctx) (httpReq : Request) (reuse : bool) (s : State) :
  countEvents (isAttemptStart (has_breaker (api s))) (trace_of (do ctx httpReq reuse s)) = 1%nat.
Proof.
  destruct (do ctx httpReq reuse s) as [[[out h'] s'] t] eqn:E. cbn.
  apply do_inv in E. destruct E as (req & s1 & r & s2 & t2 & t3 & E1 & E2 & -> & E3).
  apply do_rehydrate_inv in E1. destruct E1 as (_ & Ha1 & _).
  apply do_call_inv in E2. destruct E2 as (_ & Hc & _). rewrite Ha1 in Hc.
  rewrite countEvents_app, Hc.
  destruct r as [early | res].
  - destruct E3 as (_ & _ & ->). reflexivity.
  - apply do_finish_inv in E3. destruct E3 as (_ & _ & H0). rewrite H0. reflexivity.
Qed.

(** With [reuse], a run of [do] on a request whose body holds [data] sends
    [data] if it sends anything, and leaves the request with a body that
    holds [data] again. *)
Lemma do_reuse_body (ctx : Ctx) (httpReq : Request) (s : State) (h : nat)
    (data : list Byte.byte) (out : Result) (httpReq' : Request) (s' : State)
    (t : list Event) :
  do ctx httpReq true s = (out, httpReq', s', t) ->
  Body httpReq = Some h -> readers s !! h = Some data ->
  Forall (fun b => b = Some data) (sentBodies t) /\
  exists h', Body httpReq' = Some h' /\ readers s' !! h' = Some data.
Proof.
  intros E Hb Hd.
  apply do_inv in E. destruct E as (req & s1 & r & s2 & t2 & t3 & E1 & E2 & -> & E3).
  destruct (do_rehydrate_body _ _ _ _ _ _ _ _ E1 Hb Hd) as (hb & hc & Hhb & Hhc & Hne & Hdb & Hdc).
  apply do_call_inv in E2. destruct E2 as (_ & _ & Hsent & Hkeep).
  rewrite Hhc in Hsent, Hkeep. cbn in Hsent. rewrite Hdc in Hsent.
  assert (Hs2 : readers s2 !! hb = Some data).
  { rewrite Hkeep by congruence. exact Hdb. }
  assert (Ht3 : sentBodies t3 = [] /\ s' = s2).
  { destruct r as [early | res].
    - destruct E3 as (_ & -> & ->). split; reflexivity.
    - apply do_finish_inv in E3. destruct E3 as (-> & H0 & _). split; [exact H0 | reflexivity]. }
  destruct Ht3 as [Ht3 ->].
  rewrite sentBodies_app, Ht3, app_nil_r. split; [exact Hsent |].
  exists hb. split; assumption.
Qed.


(** One turn of the loop. *)
Lemma retryLoop_S (fuel : nat) (ctx : Ctx) (httpReq : Request) (s : State) :
  retryLoop (S fuel) ctx httpReq s =
    let '(res, httpReq', s1, t1) := do ctx httpReq true s in
    if isMatchedCond (retryConditions (api s1)) res then
      let '(d, s2, t2) := retry_Next s1 in
      if d =? stopBackoff then
        let '(_, s3, t3) := retry_Reset s2 in (Some res, s3, t1 ++ t2 ++ t3)
      else
        let '(r, s4, t4) :=
          retryLoop fuel ctx httpReq' (set_world s2 (time_Sleep d (world s2))) in
        (r, s4, t1 ++ t2 ++ EvSleep d :: t4)
    else (Some res, s1, t1).
Proof.
  cbn [retryLoop]. unfold get_retryConditions, sleep. run_unfold.
  destruct (do ctx httpReq true s) as [[[res httpReq'] s1] t1].
  destruct (isMatchedCond (retryConditions (api s1)) res).
  - destruct (retry_Next s1) as [[d s2] t2].
    destruct (d =? stopBackoff).
    + destruct (retry_Reset s2) as [[n s3] t3]. cbn. rewrite !app_nil_r. reflexivity.
    + destruct (retryLoop fuel ctx httpReq' _) as [[r s4] t4]. cbn. reflexivity.
  - cbn. rewrite !app_nil_r. reflexivity.
Qed.

Lemma retry_Next_inv (s : State) (b : backoff) (d : Duration) (s' : State) (t : list Event) :
  retry (api s) = Some b -> retry_Next s = (d, s', t) ->
  exists b' w',
    Next b (world s) = (d, b', w', t) /\
    retry (api s') = Some b' /\
    options (api s') = options (api s) /\ breaker (api s') = breaker (api s) /\
    readers s' = readers s.
Proof.
  unfold retry_Next. intros Hb. rewrite Hb.
  destruct (Next b (world s)) as [[[d0 b'] w'] evs].
  intros H. simplify_eq. exists b', w'. repeat split.
Qed.

Lemma retry_Reset_inv (s : State) (b : backoff) (n : Z) (s' : State) (t : list Event) :
  retry (api s) = Some b -> retry_Reset s = (n, s', t) ->
  n = attempts b /\ t = [] /\
  retry (api s') = Some (set_attempts b 0) /\
  options (api s') = options (api s) /\ breaker (api s') = breaker (api s) /\
  readers s' = readers s.
Proof.
  unfold retry_Reset, Reset. intros Hb. rewrite Hb. intros H. simplify_eq.
  repeat split.
Qed.

(** The trace of [Next] holds no transport call and no attempt start. *)
Lemma Next_trace (b : backoff) (w : World) :
  sentBodies (Next b w).2 = [] /\
  forall v, countEvents (isAttemptStart v) (Next b w).2 = 0%nat.
Proof.
  unfold Next. destruct (attempts b >=? maxAttempts b).
  - split; [reflexivity | intros []; reflexivity].
  - cbn zeta. destruct (f _ _ _ _ _) as [d w']. cbn.
    split; [reflexivity | intros []; reflexivity].
Qed.

(** The loop has fuel enough: it ends with a pair. *)
Lemma retryLoop_fuel (fuel : nat) (ctx : Ctx) (httpReq : Request) (s : State) (b : backoff) :
  retry (api s) = Some b ->
  minInt64 <= attempts b -> maxAttempts b <= maxInt64 ->
  (Z.to_nat (maxAttempts b - attempts b) < fuel)%nat ->
  exists res, result_of (retryLoop fuel ctx httpReq s) = Some res.
Proof.
  revert httpReq s b. induction fuel as [|fuel IH]; intros httpReq s b Hb Hlo Hhi Hfuel; [lia |].
  rewrite retryLoop_S.
  pose proof (do_api ctx httpReq true s) as Hapi.
  destruct (do ctx httpReq true s) as [[[res httpReq'] s1] t1]. cbn in Hapi.
  destruct (isMatchedCond (retryConditions (api s1)) res); [| exists res; reflexivity].
  destruct (retry_Next s1) as [[d s2] t2] eqn:En.
  destruct (retry_Next_inv s1 b d s2 t2) as (b' & w' & HN & Hb' & _); [congruence | exact En |].
  destruct (d =? stopBackoff) eqn:Ed.
  - destruct (retry_Reset s2) as [[n s3] t3]. exists res. reflexivity.
  - destruct (Z.lt_ge_cases (attempts b) (maxAttempts b)) as [Hlt | Hge].
    + rewrite Next_go in HN by lia. cbn zeta in HN. simplify_eq.
      destruct (IH httpReq'
                  (set_world s2 (time_Sleep (f b (attempts b + 1) (minWaitTime b) (maxWaitTime b) (world s1)).1 (world s2)))
                  (set_attempts b (attempts b + 1))) as [r Hr];
        [exact Hb' | cbn; lia | cbn; lia | cbn; lia |].
      destruct (retryLoop fuel ctx httpReq' _) as [[r0 s4] t4]. cbn in Hr. subst r0.
      exists r. reflexivity.
    + rewrite Next_stop in HN by lia. simplify_eq.
Qed.

Lemma retry_Next_frame (s : State) :
  readers (state_of (retry_Next s)) = readers s /\
  sentBodies (trace_of (retry_Next s)) = [].
Proof.
  unfold retry_Next. destruct (retry (api s)) as [b|]; [| split; reflexivity].
  pose proof (Next_trace b (world s)) as [Ht _].
  destruct (Next b (world s)) as [[[d b'] w'] evs]. cbn in *. split; [reflexivity | exact Ht].
Qed.

Lemma retry_Reset_frame (s : State) :
  readers (state_of (retry_Reset s)) = readers s /\ trace_of (retry_Reset s) = [].
Proof.
  unfold retry_Reset. destruct (retry (api s)) as [b|]; split; reflexivity.
Qed.

(** Every transport call of the loop gets the bytes the body held when the
    loop began. *)
Lemma retryLoop_bodies (fuel : nat) (ctx : Ctx) (httpReq : Request) (s : State)
    (h : nat) (data : list Byte.byte) :
  Body httpReq = Some h -> readers s !! h = Some data ->
  Forall (fun b => b = Some data) (sentBodies (trace_of (retryLoop fuel ctx httpReq s))).
Proof.
  revert httpReq s h. induction fuel as [|fuel IH]; intros httpReq s h Hb Hd.
  - constructor.
  - rewrite retryLoop_S.
    destruct (do ctx httpReq true s) as [[[res httpReq'] s1] t1] eqn:Edo.
    destruct (do_reuse_body _ _ _ _ _ _ _ _ _ Edo Hb Hd) as (Hsent & h' & Hb' & Hd').
    destruct (isMatchedCond (retryConditions (api s1)) res); [| exact Hsent].
    pose proof (retry_Next_frame s1) as [Hr2 Ht2].
    destruct (retry_Next s1) as [[d s2] t2]. cbn in Hr2, Ht2.
    destruct (d =? stopBackoff).
    + pose proof (retry_Reset_frame s2) as [_ Ht3].
      destruct (retry_Reset s2) as [[n s3] t3]. cbn in Ht3. subst t3. cbn.
      rewrite !sentBodies_app, Ht2, !app_nil_r. exact Hsent.
    + specialize (IH httpReq' (set_world s2 (time_Sleep d (world s2))) h' Hb').
      destruct (retryLoop fuel ctx httpReq' _) as [[r s4] t4]. cbn in IH |- *.
      rewrite !sentBodies_app, Ht2. cbn [sentBodies app].
      apply Forall_app. split; [exact Hsent |].
      apply IH. cbn. congruence.
Qed.

End PipelineFacts.

(** ** The attempt loop *)

Section PerformFacts.
Context {X : Externals}.

Lemma performRequest_retry (ctx : Ctx) (httpReq : Request) (s : State) (b : backoff) :
  retry (api s) = Some b ->
  performRequest ctx httpReq s =
    let '(r, s', t) := retryLoop (loopFuel b) ctx httpReq s in
    (default (None, None) r, s', t).
Proof.
  intros Hb. unfold performRequest. rewrite Hb. run_unfold.
  destruct (retryLoop (loopFuel b) ctx httpReq s) as [[r s'] t].
  rewrite app_nil_r. reflexivity.
Qed.

Lemma performRequest_single (ctx : Ctx) (httpReq : Request) (s : State) :
  retry (api s) = None ->
  performRequest ctx httpReq s =
    let '(r, s', t) := do ctx httpReq false s in (r.1, s', t).
Proof.
  intros Hb. unfold performRequest. rewrite Hb. run_unfold.
  destruct (do ctx httpReq false s) as [[r s'] t].
  rewrite app_nil_r. reflexivity.
Qed.

(** With the counter and the maximum in the range of [int64], the loop of
    [performRequest] ends with a pair: the default of the fuel is never
    returned. *)
Lemma performRequest_loop_ends (ctx : Ctx) (httpReq : Request) (s : State) (b : backoff) :
  retry (api s) = Some b ->
  minInt64 <= attempts b -> maxAttempts b <= maxInt64 ->
  exists res, result_of (retryLoop (loopFuel b) ctx httpReq s) = Some res /\
              result_of (performRequest ctx httpReq s) = res.
Proof.
  intros Hb Hlo Hhi.
  destruct (retryLoop_fuel (loopFuel b) ctx httpReq s b Hb Hlo Hhi) as [res Hres];
    [unfold loopFuel; lia |].
  exists res. split; [exact Hres |].
  rewrite (performRequest_retry ctx httpReq s b Hb).
  destruct (retryLoop (loopFuel b) ctx httpReq s) as [[r s'] t].
  cbn in Hres |- *. subst r. reflexivity.
Qed.

(** A turn whose pair matches no condition is the last. *)
Lemma retryLoop_unmatched (fuel : nat) (ctx : Ctx) (httpReq : Request) (s : State) :
  isMatchedCond (retryConditions (api s)) (result_of (do ctx httpReq true s)).1 = false ->
  retryLoop (S fuel) ctx httpReq s =
    (Some (result_of (do ctx httpReq true s)).1,
     state_of (do ctx httpReq true s), trace_of (do ctx httpReq true s)).
Proof.
  intros Hno. rewrite retryLoop_S.
  pose proof (do_api ctx httpReq true s) as Hapi.
  destruct (do ctx httpReq true s) as [[[res httpReq'] s1] t1].
  cbn in Hapi, Hno |- *. rewrite Hapi, Hno. reflexivity.
Qed.

(** [do] when a breaker is configured. *)
Lemma do_via_breaker (ctx : Ctx) (httpReq : Request) (reuse : bool) (s : State) :
  has_breaker (api s) = true ->
  do ctx httpReq reuse s =
    let '(httpReq', req, s1, _) := do_rehydrate httpReq reuse s in
    let '(res, s2, t2) := breaker_Execute (guardedDo ctx req) s1 in
    let '(out, s3, t3) := do_finish res s2 in
    (out, httpReq', s3, t2 ++ t3).
Proof.
  intros Hb. unfold do, do_call. run_unfold.
  destruct (do_rehydrate httpReq reuse s) as [[[httpReq' req] s1] t1] eqn:E1.
  destruct (do_rehydrate_inv _ _ _ _ _ _ _ E1) as (-> & Ha & _).
  rewrite Ha, Hb.
  destruct (breaker_Execute (guardedDo ctx req) s1) as [[res s2] t2].
  destruct (do_finish res s2) as [[out s3] t3].
  cbn. rewrite !app_nil_r. reflexivity.
Qed.

Lemma isBreakerError_Wrap (err : error) (msg : string) :
  isBreakerError err = true -> isBreakerError (Wrap err msg) = true.
Proof.
  unfold isBreakerError. rewrite !orb_true_iff. cbn [errors_Is error_eqb].
  intros [H | H]; rewrite H; [left | right]; reflexivity.
Qed.

End PerformFacts.

(** ** The attempts of a call and its trace *)

Section AttemptLogFacts.
Context {X : Externals}.

Lemma delayAnswers_app (t1 t2 : list Event) :
  delayAnswers (t1 ++ t2) = delayAnswers t1 ++ delayAnswers t2.
Proof.
  induction t1 as [|e t1 IH]; [reflexivity |].
  destruct e; cbn [app delayAnswers]; rewrite IH; reflexivity.
Qed.

Lemma transportAnswers_app (t1 t2 : list Event) :
  transportAnswers (t1 ++ t2) = transportAnswers t1 ++ transportAnswers t2.
Proof.
  induction t1 as [|e t1 IH]; [reflexivity |].
  destruct e; cbn [app transportAnswers]; rewrite IH; reflexivity.
Qed.

Lemma do_call_answers (ctx : Ctx) (req : Request) (s : State)
    (r : Result + Result) (s' : State) (t : list Event) :
  do_call ctx req s = (r, s', t) ->
  (countEvents isHttpDo t + countEvents isBreakerRefusal t = 1)%nat /\
  delayAnswers t = [] /\
  (has_breaker (api s) = false ->
     exists res, transportAnswers t = [res] /\
       r = match res.2 with Some err => inl (None, Some err) | None => inr res end).
Proof.
  unfold do_call, breaker_Execute, guardedDo, breaker_before, breaker_after, client_Do.
  run_unfold.
  destruct (has_breaker (api s)).
  - destruct (breaker_beforeRequest (world s)) as [[err|] w'].
    + intros H. simplify_eq. cbn. repeat split. discriminate.
    + cbn. destruct (httpClient_Do ctx req _ w') as [res w2].
      intros H. simplify_eq. cbn. repeat split. discriminate.
  - destruct (httpClient_Do ctx req _ (world s)) as [res w2].
    intros H. simplify_eq. cbn. repeat split. intros _. exists res. split; reflexivity.
Qed.

Lemma do_finish_answers (res out : Result) (s s' : State) (t : list Event) :
  do_finish res s = (out, s', t) ->
  countEvents isHttpDo t = 0%nat /\ countEvents isBreakerRefusal t = 0%nat /\
  delayAnswers t = [] /\ transportAnswers t = [] /\
  (Debug (options (api s)) = false -> res.2 = None -> out = (res.1, None)).
Proof.
  unfold do_finish. run_unfold. intros H.
  repeat case_match; simplify_eq; repeat split; intros; congruence.
Qed.

(** One run of [do]: one transport call or one refusal of the breaker, no
    answer of the delay function; and without a breaker and without
    [Debug], the pair it returns is the transport's. *)
Lemma do_answers (ctx : Ctx) (httpReq : Request) (reuse : bool) (s : State)
    (out : Result) (httpReq' : Request) (s' : State) (t : list Event) :
  do ctx httpReq reuse s = (out, httpReq', s', t) ->
  (countEvents isHttpDo t + countEvents isBreakerRefusal t = 1)%nat /\
  delayAnswers t = [] /\
  (has_breaker (api s) = false -> Debug (options (api s)) = false ->
     map attemptPair (transportAnswers t) = [out]).
Proof.
  intros E.
  apply do_inv in E. destruct E as (req & s1 & r & s2 & t2 & t3 & E1 & E2 & -> & E3).
  apply do_rehydrate_inv in E1. destruct E1 as (_ & Ha1 & _).
  pose proof (do_call_inv _ _ _ _ _ _ E2) as (Ha2 & _).
  apply do_call_answers in E2. destruct E2 as (Hc & Hd & Ht). rewrite Ha1 in Ht.
  rewrite !countEvents_app, delayAnswers_app, transportAnswers_app, Hd.
  destruct r as [early | res].
  - destruct E3 as (-> & -> & ->). cbn [countEvents delayAnswers transportAnswers app].
    rewrite !Nat.add_0_r, app_nil_r. split; [exact Hc |]. split; [reflexivity |].
    intros Hb _. destruct (Ht Hb) as (res & -> & Hr). cbn [map app]. unfold attemptPair.
    destruct (res.2); [injection Hr as -> | discriminate Hr]. reflexivity.
  - apply do_finish_answers in E3. destruct E3 as (-> & -> & -> & -> & Ho).
    rewrite !Nat.add_0_r, app_nil_r. split; [exact Hc |]. split; [reflexivity |].
    intros Hb Hdbg. destruct (Ht Hb) as (res0 & -> & Hr). cbn [map app]. unfold attemptPair.
    destruct (res0.2) eqn:E2; [discriminate Hr | injection Hr as ->].
    rewrite Ho; [reflexivity | congruence | exact E2].
Qed.

Lemma retryLoopLog_S (fuel : nat) (ctx : Ctx) (httpReq : Request) (s : State) :
  retryLoopLog (S fuel) ctx httpReq s =
    let '(res, httpReq', s1, _) := do ctx httpReq true s in
    res ::
      (if isMatchedCond (retryConditions (api s1)) res then
         let '(d, s2, _) := retry_Next s1 in
         if d =? stopBackoff then []
         else retryLoopLog fuel ctx httpReq' (set_world s2 (time_Sleep d (world s2)))
       else []).
Proof. reflexivity. Qed.

(** The calls [Next] makes, through [retry_Next]: none when it stops at
    the guard, and otherwise the one call of the delay function, whose
    answer it returns. *)
Lemma retry_Next_answers (s : State) (b : backoff) (d : Duration) (s' : State) (t : list Event) :
  retry (api s) = Some b -> retry_Next s = (d, s', t) ->
  countEvents isHttpDo t = 0%nat /\ countEvents isBreakerRefusal t = 0%nat /\
  transportAnswers t = [] /\
  (forall v, countEvents (isAttemptStart v) t = 0%nat) /\
  (maxAttempts b <= attempts b -> d = stopBackoff /\ delayAnswers t = []) /\
  (attempts b < maxAttempts b -> delayAnswers t = [d]).
Proof.
  intros Hb En.
  destruct (retry_Next_inv s b d s' t Hb En) as (b' & w' & HN & _).
  unfold Next in HN.
  destruct (Z.geb_spec (attempts b) (maxAttempts b)) as [Hge | Hlt].
  - injection HN as <- _ _ <-.
    repeat match goal with |- _ /\ _ => split end;
      try reflexivity; try (intros []; reflexivity); intros; try lia. split; reflexivity.
  - cbn zeta in HN. destruct (f _ _ _ _ _) as [d0 w0].
    injection HN as <- _ _ <-.
    repeat match goal with |- _ /\ _ => split end;
      try reflexivity; try (intros []; reflexivity); intros; lia.
Qed.

(** The loop and its log: the pair the loop returns is the last of the
    log, every entry of the log is one attempt, which is one transport
    call or one refusal of the breaker, and without a breaker and without
    [Debug] the log is what the transport answered. *)
Lemma retryLoop_log (fuel : nat) (ctx : Ctx) (httpReq : Request) (s : State) (b : backoff) :
  retry (api s) = Some b ->
  minInt64 <= attempts b -> maxAttempts b <= maxInt64 ->
  (Z.to_nat (maxAttempts b - attempts b) < fuel)%nat ->
  let run := retryLoop fuel ctx httpReq s in
  let log := retryLoopLog fuel ctx httpReq s in
  result_of run = last log /\
  (countEvents isHttpDo (trace_of run) + countEvents isBreakerRefusal (trace_of run)
   = length log)%nat /\
  countEvents (isAttemptStart (has_breaker (api s))) (trace_of run) = length log /\
  (has_breaker (api s) = false -> Debug (options (api s)) = false ->
     map attemptPair (transportAnswers (trace_of run)) = log).
Proof.
  revert httpReq s b.
  induction fuel as [|fuel IH]; intros httpReq s b Hb Hlo Hhi Hfuel; [lia |].
  cbn zeta. rewrite retryLoop_S, retryLoopLog_S.
  pose proof (do_api ctx httpReq true s) as Hapi.
  pose proof (do_one_attempt ctx httpReq true s) as Hone.
  destruct (do ctx httpReq true s) as [[[res httpReq'] s1] t1] eqn:Edo.
  unfold state_of, trace_of in Hapi, Hone. cbn [fst snd] in Hapi, Hone.
  destruct (do_answers _ _ _ _ _ _ _ _ Edo) as (Hc1 & _ & Hta1).
  destruct (isMatchedCond (retryConditions (api s1)) res).
  2:{ unfold result_of, trace_of. cbn [fst snd length]. repeat split; try assumption. }
  destruct (retry_Next s1) as [[d s2] t2] eqn:En.
  destruct (retry_Next_inv s1 b d s2 t2) as (b1 & w' & HN & Hb1 & Ho2 & Hbr2 & _);
    [congruence | exact En |].
  destruct (retry_Next_answers s1 b d s2 t2) as (Hn1 & Hn2 & Hn3 & Hn4 & Hstop & Hgo);
    [congruence | exact En |].
  destruct (d =? stopBackoff) eqn:Ed.
  - pose proof (retry_Reset_frame s2) as [_ Ht3].
    destruct (retry_Reset s2) as [[n s3] t3]. unfold trace_of in Ht3. cbn [snd] in Ht3. subst t3.
    unfold result_of, trace_of. cbn [fst snd length].
    rewrite !app_nil_r, !countEvents_app, transportAnswers_app, Hn1, Hn2, Hn3, Hn4, Hone,
      !Nat.add_0_r, app_nil_r.
    repeat split; assumption.
  - destruct (Z.lt_ge_cases (attempts b) (maxAttempts b)) as [Hlt | Hge].
    2:{ destruct (Hstop Hge) as [-> _]. discriminate Ed. }
    assert (Ha1 : attempts b1 = attempts b + 1 /\ maxAttempts b1 = maxAttempts b).
    { rewrite Next_go in HN by lia. cbn zeta in HN. injection HN as _ Hb1' _ _.
      subst b1. split; reflexivity. }
    destruct Ha1 as [Ha1 Hm1].
    set (s2' := set_world s2 (time_Sleep d (world s2))).
    assert (Hapi2 : api s2' = api s2) by reflexivity.
    specialize (IH httpReq' s2' b1 Hb1 ltac:(lia) ltac:(lia) ltac:(lia)). cbn zeta in IH.
    destruct IH as (IHr & IHc & IHa & IHt).
    assert (Hhb : has_breaker (api s2') = has_breaker (api s))
      by (unfold has_breaker; rewrite Hapi2, Hbr2, Hapi; reflexivity).
    assert (Hdb : Debug (options (api s2')) = Debug (options (api s)))
      by (rewrite Hapi2, Ho2, Hapi; reflexivity).
    rewrite Hhb in IHa, IHt. rewrite Hdb in IHt.
    assert (Hne : retryLoopLog fuel ctx httpReq' s2' <> []).
    { intros E. rewrite E in IHa. cbn in IHa.
      destruct fuel as [|fuel']; [lia |]. rewrite retryLoopLog_S in E.
      destruct (do ctx httpReq' true s2') as [[[? ?] ?] ?]. discriminate E. }
    destruct (retryLoop fuel ctx httpReq' s2') as [[r s4] t4].
    unfold result_of, trace_of in *. cbn [fst snd length] in *.
    rewrite !countEvents_app, !transportAnswers_app, Hn1, Hn2, Hn3, Hn4, Hone.
    cbn [countEvents isHttpDo isBreakerRefusal transportAnswers app].
    assert (Hnot : isAttemptStart (has_breaker (api s)) (EvSleep d) = false)
      by (destruct (has_breaker (api s)); reflexivity).
    rewrite Hnot, IHa, map_app.
    split; [| split; [lia | split; [lia |]]].
    + rewrite IHr. destruct (retryLoopLog fuel ctx httpReq' s2') as [|x l]; [contradiction |].
      reflexivity.
    + intros H1 H2. rewrite (Hta1 H1 H2), (IHt H1 H2). reflexivity.
Qed.

(** The loop when every attempt of the run matches a retry condition and
    the delay function does not answer [stopBackoff] in the run: from a
    counter [a] within the maximum [N] it makes [N - a + 1] attempts and
    leaves the counter at zero. *)
Lemma retryLoop_all_matched (fuel : nat) (ctx : Ctx) (httpReq : Request) (s : State)
    (b : backoff) :
  retry (api s) = Some b ->
  0 <= attempts b <= maxAttempts b -> maxAttempts b <= maxInt64 ->
  (Z.to_nat (maxAttempts b - attempts b) < fuel)%nat ->
  Forall (fun res => isMatchedCond (retryConditions (api s)) res = true)
    (retryLoopLog fuel ctx httpReq s) ->
  Forall (fun d => d <> stopBackoff) (delayAnswers (trace_of (retryLoop fuel ctx httpReq s))) ->
  length (retryLoopLog fuel ctx httpReq s) = S (Z.to_nat (maxAttempts b - attempts b)) /\
  retry (api (state_of (retryLoop fuel ctx httpReq s))) = Some (set_attempts b 0).
Proof.
  revert httpReq s b.
  induction fuel as [|fuel IH]; intros httpReq s b Hb Ha Hhi Hfuel Hall Hdel; [lia |].
  revert Hall Hdel. rewrite retryLoop_S, retryLoopLog_S.
  pose proof (do_api ctx httpReq true s) as Hapi.
  destruct (do ctx httpReq true s) as [[[res httpReq'] s1] t1] eqn:Edo.
  unfold state_of in Hapi. cbn [fst snd] in Hapi.
  destruct (do_answers _ _ _ _ _ _ _ _ Edo) as (_ & Hd1 & _).
  rewrite Hapi. intros Hall Hdel.
  assert (Hm : isMatchedCond (retryConditions (api s)) res = true).
  { destruct (isMatchedCond (retryConditions (api s)) res) eqn:E; [reflexivity |].
    rewrite Forall_cons in Hall. destruct Hall as [H _]. congruence. }
  rewrite Hm in Hall, Hdel |- *.
  destruct (retry_Next s1) as [[d s2] t2] eqn:En.
  destruct (retry_Next_inv s1 b d s2 t2) as (b1 & w' & HN & Hb1 & Ho2 & Hbr2 & _);
    [congruence | exact En |].
  destruct (retry_Next_answers s1 b d s2 t2) as (_ & _ & _ & _ & Hstop & Hgo);
    [congruence | exact En |].
  destruct (Z.lt_ge_cases (attempts b) (maxAttempts b)) as [Hlt | Hge].
  - assert (Ha1 : attempts b1 = attempts b + 1 /\ maxAttempts b1 = maxAttempts b /\
                  set_attempts b1 0 = set_attempts b 0).
    { rewrite Next_go in HN by (unfold minInt64; lia). cbn zeta in HN.
      injection HN as _ Hb1' _ _. subst b1. repeat split. }
    destruct Ha1 as (Ha1 & Hm1 & Hs1).
    destruct (d =? stopBackoff) eqn:Ed.
    { exfalso. apply Z.eqb_eq in Ed. subst d.
      destruct (retry_Reset s2) as [[n s3] t3].
      unfold trace_of in Hdel. cbn [snd] in Hdel.
      rewrite !delayAnswers_app, Hd1, (Hgo Hlt) in Hdel. cbn in Hdel.
      rewrite Forall_cons in Hdel. destruct Hdel as [H _]. apply H. reflexivity. }
    set (s2' := set_world s2 (time_Sleep d (world s2))) in *.
    assert (Hrc : retryConditions (api s2') = retryConditions (api s))
      by (unfold retryConditions; cbn [s2' set_world api]; rewrite Ho2, Hapi; reflexivity).
    specialize (IH httpReq' s2' b1 Hb1 ltac:(lia) ltac:(lia) ltac:(lia)).
    rewrite Hrc in IH.
    rewrite Forall_cons in Hall. destruct Hall as [_ Hall].
    destruct (retryLoop fuel ctx httpReq' s2') as [[r s4] t4].
    unfold trace_of, state_of in *. cbn [fst snd] in *.
    rewrite !delayAnswers_app in Hdel. cbn [delayAnswers] in Hdel.
    apply Forall_app in Hdel. destruct Hdel as [_ Hdel].
    apply Forall_app in Hdel. destruct Hdel as [_ Hdel].
    destruct (IH Hall Hdel) as [IHl IHs].
    cbn [length]. rewrite IHl, IHs, Hs1. split; [f_equal; lia | reflexivity].
  - destruct (Hstop Hge) as [-> _]. change (stopBackoff =? stopBackoff) with true. cbn match.
    destruct (retry_Reset s2) as [[n s3] t3] eqn:Er.
    destruct (retry_Reset_inv s2 b1 n s3 t3 Hb1 Er) as (_ & _ & Hs3 & _).
    rewrite Next_stop in HN by lia. injection HN as <- _ _.
    unfold state_of. cbn [fst snd length]. split; [f_equal; lia | exact Hs3].
Qed.

End AttemptLogFacts.

Section PerformClaims.
Context {X : Externals}.

(** C1 (as the code has it). With a maximum of [N] attempts and the counter
    at zero, a call in which the pair of every attempt matches a retry
    condition and in which the delay function never answers [stopBackoff]
    makes [N + 1] attempts (the first one and [N] retries): each is one
    call of the transport, or one refusal of the breaker when there is
    one. The call returns the pair of the last attempt, which without a
    breaker and without [Debug] is the pair the transport returned last,
    and leaves the counter at zero. *)
Theorem performRequest_attempts_when_always_matched
    (ctx : Ctx) (httpReq : Request) (s : State) (b : backoff) :
  retry (api s) = Some b -> attempts b = 0 -> 0 <= maxAttempts b <= maxInt64 ->
  let run := performRequest ctx httpReq s in
  let log := attemptLog ctx httpReq s in
  Forall (fun res => isMatchedCond (retryConditions (api s)) res = true) log ->
  Forall (fun d => d <> stopBackoff) (delayAnswers (trace_of run)) ->
  length log = S (Z.to_nat (maxAttempts b)) /\
  (countEvents isHttpDo (trace_of run) + countEvents isBreakerRefusal (trace_of run)
   = S (Z.to_nat (maxAttempts b)))%nat /\
  countEvents (isAttemptStart (has_breaker (api s))) (trace_of run)
    = S (Z.to_nat (maxAttempts b)) /\
  last log = Some (result_of run) /\
  (has_breaker (api s) = false -> Debug (options (api s)) = false ->
     map attemptPair (transportAnswers (trace_of run)) = log) /\
  attempts <$> retry (api (state_of run)) = Some 0.
Proof.
  intros Hb H0 Hmax. cbn zeta. unfold attemptLog. rewrite Hb.
  rewrite (performRequest_retry ctx httpReq s b Hb).
  assert (Hfuel : (Z.to_nat (maxAttempts b - attempts b) < loopFuel b)%nat)
    by (unfold loopFuel; lia).
  pose proof (retryLoop_log (loopFuel b) ctx httpReq s b Hb
                ltac:(unfold minInt64; lia) ltac:(lia) Hfuel) as Hlog.
  pose proof (retryLoop_all_matched (loopFuel b) ctx httpReq s b Hb
                ltac:(lia) ltac:(lia) Hfuel) as Hall.
  cbn zeta in Hlog.
  destruct (retryLoop (loopFuel b) ctx httpReq s) as [[r s1] t].
  unfold result_of, state_of, trace_of in *. cbn [fst snd] in *.
  intros Hm Hd. destruct (Hall Hm Hd) as [Hlen Hs].
  destruct Hlog as (Hr & Hc & Ha & Ht).
  rewrite H0, Z.sub_0_r in Hlen. rewrite Hlen in Hc, Ha.
  split; [exact Hlen |]. split; [exact Hc |]. split; [exact Ha |].
  split.
  - rewrite <- Hr. destruct r as [res|]; [reflexivity |].
    destruct (retryLoopLog (loopFuel b) ctx httpReq s) as [|x l] using rev_ind; [discriminate Hlen |].
    rewrite last_snoc in Hr. discriminate Hr.
  - split; [exact Ht |]. rewrite Hs. reflexivity.
Qed.

(** C7. When the request carries a body that holds [data], every transport
    call of the logical call is handed exactly [data]: every attempt sends
    the bytes the first one sent. *)
Theorem performRequest_replays_buffered_body
    (ctx : Ctx) (httpReq : Request) (s : State) (h : nat) (data : list Byte.byte) :
  Body httpReq = Some h -> readers s !! h = Some data ->
  let sent := sentBodies (trace_of (performRequest ctx httpReq s)) in
  Forall (fun b => b = Some data) sent /\
  (forall first b, head sent = Some first -> b ∈ sent -> b = first).
Proof.
  intros Hb Hd. cbn zeta.
  assert (Hall : Forall (fun b => b = Some data)
                   (sentBodies (trace_of (performRequest ctx httpReq s)))).
  { destruct (retry (api s)) as [b|] eqn:Er.
    - rewrite (performRequest_retry ctx httpReq s b Er).
      pose proof (retryLoop_bodies (loopFuel b) ctx httpReq s h data Hb Hd) as Hl.
      destruct (retryLoop (loopFuel b) ctx httpReq s) as [[r s1] t]. exact Hl.
    - rewrite (performRequest_single ctx httpReq s Er).
      destruct (do ctx httpReq false s) as [[[out h'] s'] t] eqn:E. cbn.
      apply do_inv in E. destruct E as (req & s1 & r & s2 & t2 & t3 & E1 & E2 & -> & E3).
      rewrite do_rehydrate_plain in E1. simplify_eq.
      apply do_call_inv in E2. destruct E2 as (_ & _ & Hsent & _).
      rewrite Hb in Hsent. cbn in Hsent. rewrite Hd in Hsent.
      assert (Ht3 : sentBodies t3 = []).
      { destruct r as [early | res].
        - destruct E3 as (_ & _ & ->). reflexivity.
        - apply do_finish_inv in E3. destruct E3 as (_ & H0 & _). exact H0. }
      rewrite sentBodies_app, Ht3, app_nil_r. exact Hsent. }
  split; [exact Hall |].
  intros first b Hfirst Hin.
  rewrite Forall_forall in Hall.
  rewrite (Hall b Hin).
  symmetry. apply Hall. apply head_Some_elem_of. exact Hfirst.
Qed.

(** C6. When the breaker's [Execute] reports an error that is
    [ErrOpenState] or [ErrTooManyRequests], the attempt returns that error
    wrapped as "circuit-breaker has worked", which [errors.Is] still
    recognises as a breaker error, whereas any other error comes back as it
    is; and unless a retry condition matches it (or when no retry is
    configured) [performRequest] returns it after that one attempt. *)
Theorem breaker_refusal_classified_and_not_retried
    (ctx : Ctx) (httpReq : Request) (s : State) (r : option Response) (err : error) :
  has_breaker (api s) = true ->
  let reuse := reuseBody (api s) in
  let prepared := do_rehydrate httpReq reuse s in
  result_of (breaker_Execute (guardedDo ctx (result_of prepared).2) (state_of prepared))
    = (r, Some err) ->
  isBreakerError err = true ->
  let classified := Wrap err "circuit-breaker has worked" in
  (result_of (do ctx httpReq reuse s)).1 = (None, Some classified) /\
  isBreakerError classified = true /\
  (forall r' err' s', isBreakerError err' = false ->
     result_of (do_finish (r', Some err') s') = (None, Some err')) /\
  (retry (api s) = None \/
   isMatchedCond (retryConditions (api s)) (None, Some classified) = false ->
     result_of (performRequest ctx httpReq s) = (None, Some classified) /\
     trace_of (performRequest ctx httpReq s) = trace_of (do ctx httpReq reuse s)).
Proof.
  intros Hbr reuse prepared Hex Herr classified.
  assert (Hdo : (result_of (do ctx httpReq reuse s)).1 = (None, Some classified)).
  { rewrite (do_via_breaker ctx httpReq reuse s Hbr).
    subst prepared. destruct (do_rehydrate httpReq reuse s) as [[[httpReq' req] s1] t1].
    cbn in Hex.
    destruct (breaker_Execute (guardedDo ctx req) s1) as [[res s2] t2].
    cbn in Hex. subst res.
    unfold do_finish. cbn [snd]. rewrite Herr. reflexivity. }
  split; [exact Hdo |].
  split; [apply isBreakerError_Wrap; exact Herr |].
  split.
  { intros r' err' s' Hno. unfold do_finish. cbn [snd]. rewrite Hno. reflexivity. }
  intros Hstop. subst reuse. unfold reuseBody in *.
  destruct (retry (api s)) as [b|] eqn:Er.
  - destruct Hstop as [Hnone | Hno]; [discriminate |].
    rewrite (performRequest_retry ctx httpReq s b Er).
    unfold loopFuel. rewrite retryLoop_unmatched by (rewrite Hdo; exact Hno).
    rewrite Hdo. split; reflexivity.
  - rewrite (performRequest_single ctx httpReq s Er).
    destruct (do ctx httpReq false s) as [[res s'] t]. cbn in Hdo |- *.
    split; [exact Hdo | reflexivity].
Qed.

End PerformClaims.

(** C1, a run: a maximum of two attempts and a transport that always
    answers 429, which the retry condition matches: three calls of the
    transport, and the third answer is returned. *)
Lemma performRequest_attempts_when_always_matched_witness :
  let s := stub_state (stub_api 2 ∅) [] (stub_world 0 [] 429 None) in
  let run := @performRequest stubExternals (ctxToken 0) (stub_request None) s in
  let log := @attemptLog stubExternals (ctxToken 0) (stub_request None) s in
  length log = 3%nat /\
  (countEvents isHttpDo (trace_of run) + countEvents isBreakerRefusal (trace_of run) = 3)%nat /\
  countEvents (isAttemptStart (has_breaker (api s))) (trace_of run) = 3%nat /\
  last log = Some (result_of run) /\
  (has_breaker (api s) = false -> Debug (options (api s)) = false ->
     map attemptPair (transportAnswers (trace_of run)) = log) /\
  attempts <$> retry (api (state_of run)) = Some 0.
Proof.
  apply (@performRequest_attempts_when_always_matched stubExternals (ctxToken 0)
           (stub_request None)
           (stub_state (stub_api 2 ∅) [] (stub_world 0 [] 429 None))
           (stub_backoff 2 0)).
  - reflexivity.
  - reflexivity.
  - vm_compute. split; discriminate.
  - vm_compute. repeat constructor.
  - vm_compute. repeat constructor; discriminate.
Defined.

(** C1 as stated fails: with a maximum of one attempt and a transport that
    always answers 429, which the retry condition matches, the transport is
    called twice. *)
Lemma performRequest_one_more_than_maximum :
  let s := stub_state (stub_api 1 ∅) [] (stub_world 0 [] 429 None) in
  let run := @performRequest stubExternals (ctxToken 0) (stub_request None) s in
  let answer := (Some (stub_response 429), None) in
  (maxAttempts <$> retry (api s)) = Some 1 /\
  isMatchedCond (retryConditions (api s)) answer = true /\
  trace_of run = [EvHttpDo (stub_request None) None answer;
                  EvRetryFunc 1 1 2 5; EvSleep 5;
                  EvHttpDo (stub_request None) None answer] /\
  countEvents isHttpDo (trace_of run) = 2%nat /\
  countEvents isHttpDo (trace_of run) <> 1%nat.
Proof. vm_compute. repeat split; discriminate. Qed.

(** C7, a run: a two-byte body, sent three times. *)
Lemma performRequest_replays_buffered_body_witness :
  let s := stub_state (stub_api 2 ∅) [[Byte.x01; Byte.x02]] (stub_world 0 [] 429 None) in
  let sent := sentBodies (trace_of (@performRequest stubExternals (ctxToken 0)
                                      (stub_request (Some 0%nat)) s)) in
  Forall (fun b => b = Some [Byte.x01; Byte.x02]) sent /\
  (forall first b, head sent = Some first -> b ∈ sent -> b = first).
Proof.
  apply (@performRequest_replays_buffered_body stubExternals (ctxToken 0)
           (stub_request (Some 0%nat))
           (stub_state (stub_api 2 ∅) [[Byte.x01; Byte.x02]] (stub_world 0 [] 429 None))
           0%nat [Byte.x01; Byte.x02]); reflexivity.
Defined.

(** C6, a run: the breaker is open. *)
Lemma breaker_refusal_classified_and_not_retried_witness :
  let s := stub_state (stub_api_breaker 3) [] (stub_world 0 [] 429 (Some ErrOpenState)) in
  let httpReq := stub_request None in
  let classified := Wrap ErrOpenState "circuit-breaker has worked" in
  (result_of (@do stubExternals (ctxToken 0) httpReq (reuseBody (api s)) s)).1
    = (None, Some classified) /\
  isBreakerError classified = true /\
  (forall r' err' s', isBreakerError err' = false ->
     result_of (@do_finish stubExternals (r', Some err') s') = (None, Some err')) /\
  (retry (api s) = None \/
   isMatchedCond (retryConditions (api s)) (None, Some classified) = false ->
     result_of (@performRequest stubExternals (ctxToken 0) httpReq s) = (None, Some classified) /\
     trace_of (@performRequest stubExternals (ctxToken 0) httpReq s)
       = trace_of (@do stubExternals (ctxToken 0) httpReq (reuseBody (api s)) s)).
Proof.
  apply (@breaker_refusal_classified_and_not_retried stubExternals (ctxToken 0)
           (stub_request None)
           (stub_state (stub_api_breaker 3) [] (stub_world 0 [] 429 (Some ErrOpenState)))
           None ErrOpenState); reflexivity.
Defined.

(** ** Building the request *)

Section BuildFacts.
Context {X : Externals}.

(** Options that leave the header [k] alone leave it alone together. *)
Lemma applyOptions_keeps_header (k : string) (opts : list RequestOption) :
  (forall opt r rs r' rs', opt ∈ opts -> opt r rs = (None, r', rs') ->
     Header r' !! k = Header r !! k) ->
  forall req rs req' rs',
    applyOptions opts req rs = inr (req', rs') -> Header req' !! k = Header req !! k.
Proof.
  induction opts as [|opt opts IH]; intros Hkeep req rs req' rs' Happ.
  - cbn in Happ. congruence.
  - cbn [applyOptions] in Happ.
    destruct (opt req rs) as [[[err|] r1] rs1] eqn:E; [discriminate |].
    rewrite (IH (fun o r rs0 r' rs0' Hin => Hkeep o r rs0 r' rs0' (list_elem_of_further _ _ _ Hin))
               _ _ _ _ Happ).
    apply (Hkeep opt req rs r1 rs1); [left | exact E].
Qed.

Lemma buildRequestURL_inv (a : API) (resource : string) (u : URL) :
  buildRequestURL a resource = inr u ->
  exists base, url_Parse (BaseURL (options a)) = inr base /\ u = set_Path base resource.
Proof.
  unfold buildRequestURL.
  destruct (url_Parse (BaseURL (options a))) as [err | base]; intros H; [discriminate |].
  exists base. split; congruence.
Qed.

Context {Req Resp : Type} {C : Codec Req Resp}.

(** A successful [makeRequest], taken apart: the request net/http made,
    with the encoded body if any, gets the default headers as its headers
    when there are any, and then the options in order. *)
Lemma makeRequest_inv (ctx : Ctx) (req : RequestBuilder) (enc : option EncoderDecoder)
    (s : State) (httpReq : Request) :
  result_of (makeRequest ctx req enc s) = inr httpReq ->
  exists base rs,
    Header base = (if negb (size (Headers (options (api s))) =? 0)%nat
                   then Headers (options (api s)) else ∅) /\
    applyOptions (requestOptions req) base rs
      = inr (httpReq, readers (state_of (makeRequest ctx req enc s))) /\
    trace_of (makeRequest ctx req enc s) = [] /\
    api (state_of (makeRequest ctx req enc s)) = api s /\
    world (state_of (makeRequest ctx req enc s)) = world s.
Proof.
  unfold makeRequest, http_NewRequestWithContext.
  destruct (buildRequestURL (api s) (resourcePath req)) as [err | u]; [discriminate |].
  destruct (negb (validMethod _)); [discriminate |].
  destruct (url_Parse (URL_String u)) as [err | u']; [discriminate |].
  set (httpReq0 := {| Method := _; ReqURL := u'; Header := ∅; Body := None |}).
  set (encoded := match negb (String.eqb (method req) "GET"), body req, enc with
                  | true, Some payload, Some e => _
                  | _, _, _ => _
                  end).
  assert (Henc : forall r1 rs1, encoded = inr (r1, rs1) -> Header r1 = ∅).
  { subst encoded. intros r1 rs1.
    destruct (negb (String.eqb (method req) "GET")), (body req), enc;
      try (intros H; simplify_eq; reflexivity).
    destruct (encodeRequestPayload _ _); intros H; simplify_eq. reflexivity. }
  destruct encoded as [err | [httpReq1 rs1]]; [discriminate |].
  specialize (Henc httpReq1 rs1 eq_refl).
  set (base := if negb (size (Headers (options (api s))) =? 0)%nat
               then set_Header httpReq1 (Headers (options (api s))) else httpReq1).
  destruct (applyOptions (requestOptions req) base rs1) as [err | [httpReq3 rs3]] eqn:Eo;
    [discriminate |].
  cbn. intros H. simplify_eq. exists base, rs1. repeat split; try assumption.
  subst base. destruct (negb _); [reflexivity | exact Henc].
Qed.

(** The URL of the request [makeRequest] hands to the options is what
    net/http parses out of the rendering of the base address with its path
    replaced by the resource path. *)
Lemma makeRequest_url (ctx : Ctx) (req : RequestBuilder) (enc : option EncoderDecoder)
    (s : State) (httpReq : Request) :
  result_of (makeRequest ctx req enc s) = inr httpReq ->
  exists base0 u' base rs,
    url_Parse (BaseURL (options (api s))) = inr base0 /\
    url_Parse (URL_String (set_Path base0 (resourcePath req))) = inr u' /\
    ReqURL base = u' /\
    applyOptions (requestOptions req) base rs
      = inr (httpReq, readers (state_of (makeRequest ctx req enc s))).
Proof.
  unfold makeRequest, http_NewRequestWithContext.
  destruct (buildRequestURL (api s) (resourcePath req)) as [err | u] eqn:Eu; [discriminate |].
  destruct (buildRequestURL_inv _ _ _ Eu) as (base0 & Hb0 & ->).
  destruct (negb (validMethod _)); [discriminate |].
  destruct (url_Parse (URL_String _)) as [err | u'] eqn:Ep; [discriminate |].
  set (httpReq0 := {| Method := _; ReqURL := u'; Header := ∅; Body := None |}).
  set (encoded := match negb (String.eqb (method req) "GET"), body req, enc with
                  | true, Some payload, Some e => _
                  | _, _, _ => _
                  end).
  assert (Henc : forall r1 rs1, encoded = inr (r1, rs1) -> ReqURL r1 = u').
  { subst encoded. intros r1 rs1.
    destruct (negb (String.eqb (method req) "GET")), (body req), enc;
      try (intros H; simplify_eq; reflexivity).
    destruct (encodeRequestPayload _ _); intros H; simplify_eq. reflexivity. }
  destruct encoded as [err | [httpReq1 rs1]]; [discriminate |].
  specialize (Henc httpReq1 rs1 eq_refl).
  set (base := if negb (size (Headers (options (api s))) =? 0)%nat
               then set_Header httpReq1 (Headers (options (api s))) else httpReq1).
  destruct (applyOptions (requestOptions req) base rs1) as [err | [httpReq3 rs3]] eqn:Eo;
    [discriminate |].
  cbn. intros H. simplify_eq. exists base0, (ReqURL httpReq1), base, rs1.
  repeat split; try assumption.
  subst base. destruct (negb _); reflexivity.
Qed.

End BuildFacts.

Section BuildClaims.
Context {X : Externals} {Req Resp : Type} {C : Codec Req Resp}.

(** C5 (as the code has it). The default headers become the headers of the
    request, then the options of the call are applied in the order they
    were given; a default header [k] is on the request that comes out with
    its configured value [v] provided every option leaves the request's
    value for [k] as it finds it. *)
Theorem makeRequest_default_header_kept (ctx : Ctx) (req : RequestBuilder)
    (enc : option EncoderDecoder) (s : State) (httpReq : Request)
    (k : string) (v : list string) :
  result_of (makeRequest ctx req enc s) = inr httpReq ->
  Headers (options (api s)) !! k = Some v ->
  (forall opt r rs r' rs', opt ∈ requestOptions req -> opt r rs = (None, r', rs') ->
     Header r' !! k = Header r !! k) ->
  Header httpReq !! k = Some v /\
  exists base rs,
    Header base = Headers (options (api s)) /\
    applyOptions (requestOptions req) base rs
      = inr (httpReq, readers (state_of (makeRequest ctx req enc s))).
Proof.
  intros Hmk Hk Hkeep.
  destruct (makeRequest_inv ctx req enc s httpReq Hmk) as (base & rs & Hbase & Happ & _).
  assert (Hsize : size (Headers (options (api s))) <> 0%nat).
  { apply (map_size_ne_0_lookup_2 _ k). rewrite Hk. eexists. reflexivity. }
  apply Nat.eqb_neq in Hsize. rewrite Hsize in Hbase. cbn in Hbase.
  split.
  - rewrite (applyOptions_keeps_header k _ Hkeep _ _ _ _ Happ), Hbase. exact Hk.
  - exists base, rs. split; assumption.
Qed.

End BuildClaims.

Lemma stripPrefix_app (pre s : string) : stripPrefix pre (pre ++ s) = Some s.
Proof.
  induction pre as [|a pre IH]; [reflexivity |].
  change (stripPrefix (String a pre) (String a (pre ++ s)) = Some s).
  cbn [stripPrefix]. rewrite Ascii.eqb_refl. exact IH.
Qed.

(** The stub's URL functions keep the path as net/url does. *)
Lemma urlExternals_keeps_path : @urlKeepsPath urlExternals.
Proof.
  intros base u p u' Hu _ Hu'. cbn in Hu, Hu'.
  unfold stub_ParseAny in Hu.
  destruct (stripPrefix _ base) as [path|]; [| discriminate].
  injection Hu as <-. cbn [set_Path Scheme Host Path] in Hu'.
  unfold stub_ParseAny in Hu'.
  change ("https" ++ "://" ++ "api.example.com" ++ rootedPath p)%string
    with ("https://api.example.com" ++ rootedPath p)%string in Hu'.
  rewrite stripPrefix_app in Hu'. injection Hu' as <-. reflexivity.
Qed.

Section BuildPath.
Context {X : Externals}.

(** Options that leave the path of the URL alone leave it alone together. *)
Lemma applyOptions_keeps_path (opts : list RequestOption) :
  (forall opt r rs r' rs', opt ∈ opts -> opt r rs = (None, r', rs') ->
     Path (ReqURL r') = Path (ReqURL r)) ->
  forall req rs req' rs',
    applyOptions opts req rs = inr (req', rs') -> Path (ReqURL req') = Path (ReqURL req).
Proof.
  induction opts as [|opt opts IH]; intros Hkeep req rs req' rs' Happ.
  - cbn in Happ. congruence.
  - cbn [applyOptions] in Happ.
    destruct (opt req rs) as [[[err|] r1] rs1] eqn:E; [discriminate |].
    rewrite (IH (fun o r rs0 r' rs0' Hin => Hkeep o r rs0 r' rs0' (list_elem_of_further _ _ _ Hin))
               _ _ _ _ Happ).
    apply (Hkeep opt req rs r1 rs1); [left | exact E].
Qed.

Lemma rootedPath_rooted (p : string) :
  p = ""%string \/ (exists rest, p = String "/"%char rest) -> rootedPath p = p.
Proof. intros [-> | [rest ->]]; reflexivity. Qed.

Context {Req Resp : Type} {C : Codec Req Resp}.

(** C10 (as the code has it). When the base address parses to a URL with a
    host, and the options of the call leave the path of the URL alone, the
    URL of the request [makeRequest] returns has the resource path as its
    path, with a "/" before it if it is not empty and does not begin with
    one: exactly the resource path when that is empty or begins with "/".
    Whatever path the base address had is gone; it is not joined with the
    resource path. *)
Theorem makeRequest_replaces_path (ctx : Ctx) (req : RequestBuilder)
    (enc : option EncoderDecoder) (s : State) (base : URL) (httpReq : Request) :
  urlKeepsPath ->
  url_Parse (BaseURL (options (api s))) = inr base -> Host base <> ""%string ->
  (forall opt r rs r' rs', opt ∈ requestOptions req -> opt r rs = (None, r', rs') ->
     Path (ReqURL r') = Path (ReqURL r)) ->
  result_of (makeRequest ctx req enc s) = inr httpReq ->
  Path (ReqURL httpReq) = rootedPath (resourcePath req) /\
  (resourcePath req = ""%string \/ (exists rest, resourcePath req = String "/"%char rest) ->
     Path (ReqURL httpReq) = resourcePath req) /\
  buildRequestURL (api s) (resourcePath req) = inr (set_Path base (resourcePath req)).
Proof.
  intros Hurl Hbase Hhost Hkeep Hmk.
  destruct (makeRequest_url ctx req enc s httpReq Hmk) as (base0 & u' & r0 & rs & Hb0 & Hu' & Hr0 & Happ).
  assert (base0 = base) by congruence. subst base0.
  assert (Hp : Path (ReqURL httpReq) = rootedPath (resourcePath req)).
  { rewrite (applyOptions_keeps_path _ Hkeep _ _ _ _ Happ), Hr0.
    exact (Hurl _ _ _ _ Hbase Hhost Hu'). }
  split; [exact Hp |]. split.
  - intros Hrooted. rewrite Hp. apply rootedPath_rooted. exact Hrooted.
  - unfold buildRequestURL. rewrite Hbase. reflexivity.
Qed.

End BuildPath.

(** C5, a run: one default header and an option that sets a form body. *)
Lemma makeRequest_default_header_kept_witness :
  let defaults : gmap string (list string) := {[ "Authorization"%string := ["token"%string] ]} in
  let s := stub_state (stub_api 3 defaults) [] (stub_world 0 [] 200 None) in
  exists httpReq,
    result_of (@makeRequest stubExternals _ _ stubCodec (ctxToken 0)
                 (stub_builder [@WithRequestForm stubExternals ∅]) None s) = inr httpReq /\
    Header httpReq !! "Authorization"%string = Some ["token"%string].
Proof.
  cbn zeta. eexists. split; [reflexivity |].
  apply (@makeRequest_default_header_kept stubExternals _ _ stubCodec (ctxToken 0)
           (stub_builder [@WithRequestForm stubExternals ∅]) None
           (stub_state (stub_api 3 {[ "Authorization"%string := ["token"%string] ]}) []
              (stub_world 0 [] 200 None))
           _ "Authorization"%string ["token"%string]).
  - reflexivity.
  - reflexivity.
  - intros opt r rs r' rs' Hin Hopt. cbn in Hin.
    apply list_elem_of_singleton in Hin. subst opt.
    unfold WithRequestForm in Hopt. injection Hopt as <- _. reflexivity.
Defined.

(** C5 as stated fails: with the default header "Authorization" and the
    option [WithRequestHeaders] given a map that has "Accept" alone, the
    request that comes out has the option's map as its headers and no
    "Authorization": the option names no default header, and the default
    headers are not merged with its map but replaced by it. *)
Lemma makeRequest_WithRequestHeaders_drops_defaults :
  let defaults : gmap string (list string) := {[ "Authorization"%string := ["token"%string] ]} in
  let perCall : gmap string (list string) := {[ "Accept"%string := ["application/json"%string] ]} in
  let s := stub_state (stub_api 3 defaults) [] (stub_world 0 [] 200 None) in
  let made := result_of (@makeRequest stubExternals _ _ stubCodec (ctxToken 0)
                           (stub_builder [WithRequestHeaders perCall]) None s) in
  Headers (options (api s)) !! "Authorization"%string = Some ["token"%string] /\
  perCall !! "Authorization"%string = None /\
  exists r, made = inr r /\ Header r = perCall /\
            Header r !! "Authorization"%string = None.
Proof.
  cbn zeta. split; [reflexivity | split; [reflexivity |]].
  eexists. split; [reflexivity |]. split; reflexivity.
Qed.

(** C10, a run: the base address has the path "/v1" and the resource is
    "/fact"; the URL of the request has the path "/fact". *)
Lemma makeRequest_replaces_path_witness :
  let s := @mkState urlExternals url_api [] (stub_world 0 [] 200 None) in
  let req := stub_get "/fact" [@WithRequestQueryEncodableParams urlExternals []] in
  exists httpReq,
    result_of (@makeRequest urlExternals _ _ stubCodec (ctxToken 0) req None s) = inr httpReq /\
    Path (ReqURL httpReq) = "/fact"%string.
Proof.
  cbn zeta. eexists. split; [reflexivity |].
  refine (proj1 (proj2 (@makeRequest_replaces_path urlExternals _ _ stubCodec (ctxToken 0)
           (stub_get "/fact" [@WithRequestQueryEncodableParams urlExternals []]) None
           (@mkState urlExternals url_api [] (stub_world 0 [] 200 None))
           {| Scheme := "https"; Host := "api.example.com"; Path := "/v1";
              RawPath := ""; RawQuery := "" |} _
           urlExternals_keeps_path eq_refl _ _ eq_refl)) _).
  - discriminate.
  - intros opt r rs r' rs' Hin Hopt. cbn in Hin.
    apply list_elem_of_singleton in Hin. subst opt.
    unfold WithRequestQueryEncodableParams in Hopt. cbn in Hopt.
    injection Hopt as <- _. reflexivity.
  - right. eexists. reflexivity.
Defined.

(** C10 as stated fails: with the base address "https://api.example.com/v1"
    and the resource path "fact", which does not begin with "/", the URL of
    the request has the path "/fact" and not "fact": rendering the URL puts
    a "/" between the host and the path, and the request's URL is parsed
    from the rendering. *)
Lemma makeRequest_rootless_path_gains_slash :
  let s := @mkState urlExternals url_api [] (stub_world 0 [] 200 None) in
  let req := stub_get "fact" [] in
  @URL_String urlExternals
    {| Scheme := "https"; Host := "api.example.com"; Path := "fact"; RawPath := "";
       RawQuery := "" |} = "https://api.example.com/fact"%string /\
  exists httpReq,
    result_of (@makeRequest urlExternals _ _ stubCodec (ctxToken 0) req None s) = inr httpReq /\
    Path (ReqURL httpReq) = "/fact"%string /\
    Path (ReqURL httpReq) <> resourcePath req.
Proof.
  cbn zeta. split; [reflexivity |]. eexists. split; [reflexivity |].
  split; [reflexivity | discriminate].
Qed.

(** ** The logical call *)

Section CallFacts.
Context {X : Externals}.

(** The calls [Wait] makes: the pending callbacks, if they run, and then
    the limiter's own [Wait], whose answer is the answer. *)
Lemma Wait_trace (l : adaptiveBucketLimiter) (ctx : Ctx) (w : World) :
  exists pre,
    (Wait l ctx w).2 = pre ++ [EvRateWait ctx (Wait l ctx w).1.1.1] /\
    countEvents isHttpDo pre = 0%nat /\ countEvents isBreakerBefore pre = 0%nat.
Proof.
  unfold Wait.
  destruct (Wait_reset l w) as [[l' w1] evs] eqn:Er.
  destruct (rate_Wait ctx w1) as [err w2]. cbn [fst snd].
  exists evs. split; [reflexivity |].
  unfold Wait_reset, tryReset in Er.
  destruct (time_Now w) as [now w0].
  destruct (tryReset_at l now).
  - pose proof (runResetEvents_trace (nextResetEvents l) w0) as Ht.
    destruct (runResetEvents (nextResetEvents l) w0) as [w3 evs3]. cbn in Ht.
    simplify_eq. clear.
    induction (nextResetEvents l) as [|e es IH]; [split; reflexivity |].
    destruct e; cbn; exact IH.
  - simplify_eq. split; reflexivity.
Qed.

Lemma limiter_Wait_trace (ctx : Ctx) (s : State) :
  exists pre,
    trace_of (limiter_Wait ctx s) = pre ++ [EvRateWait ctx (result_of (limiter_Wait ctx s))] /\
    countEvents isHttpDo pre = 0%nat /\ countEvents isBreakerBefore pre = 0%nat.
Proof.
  unfold limiter_Wait.
  destruct (Wait_trace (limiter (api s)) ctx (world s)) as (pre & Ht & H1 & H2).
  destruct (Wait (limiter (api s)) ctx (world s)) as [[[err l'] w'] evs].
  cbn in Ht |- *. exists pre. repeat split; assumption.
Qed.

End CallFacts.

Section CallClaims.
Context {X : Externals} {Req Resp : Type} {C : Codec Req Resp}.

(** C9. A logical call begins with the limiter's [Wait]: whatever else it
    does comes after the answer of the limiter, and nothing before that
    answer is a transport or breaker call. When the answer is an error, the
    call returns that error and ends there: its state and its trace are
    those of [Wait], so no request is built, no transport attempt is made
    and no response is handled. *)
Theorem client_do_admission_first
    (afterResponse : list (option Response -> Resp -> option error * Resp))
    (ctx : Ctx) (req : RequestBuilder) (decode : bool) (enc : option EncoderDecoder)
    (s : State) :
  let run := client_do afterResponse ctx req decode enc s in
  let waited := limiter_Wait ctx s in
  exists pre rest,
    trace_of waited = pre ++ [EvRateWait ctx (result_of waited)] /\
    countEvents isHttpDo pre = 0%nat /\ countEvents isBreakerBefore pre = 0%nat /\
    trace_of run = pre ++ EvRateWait ctx (result_of waited) :: rest /\
    match result_of waited with
    | Some err =>
        rest = [] /\ result_of run = (None, None, Some err) /\ state_of run = state_of waited
    | None => True
    end.
Proof.
  cbn zeta.
  destruct (limiter_Wait_trace ctx s) as (pre & Ht & H1 & H2).
  unfold client_do. run_unfold.
  destruct (limiter_Wait ctx s) as [[waited s1] t1]. cbn in Ht |- *. subst t1.
  destruct waited as [err |].
  - exists pre, []. cbn. rewrite app_nil_r. repeat split; assumption.
  - destruct (makeRequest ctx req enc s1) as [[made s2] t2].
    destruct made as [err | httpReq].
    + exists pre, (t2 ++ []). cbn. rewrite <- app_assoc. repeat split; assumption.
    + destruct (performRequest ctx httpReq s2) as [[res s3] t3].
      destruct res.2 as [err |];
        exists pre, (t2 ++ t3 ++ []); cbn; rewrite <- app_assoc; repeat split; assumption.
Qed.

End CallClaims.

(** C9, a run: the context is cancelled while the limiter waits. *)
Lemma client_do_admission_first_witness :
  let s := stub_state (stub_api 3 ∅) [] (stub_world 0 [] 200 None) in
  let run := @client_do stubExternals _ _ stubCodec [] (ctxToken 1) (stub_builder []) true
               (Some tt) s in
  result_of run = (None, None, Some (Errorf "context canceled")) /\
  trace_of run = [EvRateWait (ctxToken 1) (Some (Errorf "context canceled"))] /\
  countEvents isHttpDo (trace_of run) = 0%nat.
Proof.
  destruct (@client_do_admission_first stubExternals _ _ stubCodec [] (ctxToken 1)
              (stub_builder []) true (Some tt)
              (stub_state (stub_api 3 ∅) [] (stub_world 0 [] 200 None)))
    as (pre & rest & Hw & _ & _ & Ht & Hres).
  cbn zeta in Hw, Ht, Hres |- *.
  change (result_of (@limiter_Wait stubExternals (ctxToken 1)
            (stub_state (stub_api 3 ∅) [] (stub_world 0 [] 200 None))))
    with (Some (Errorf "context canceled")) in Hw, Ht, Hres.
  destruct Hres as (-> & Hr & _).
  split; [exact Hr |].
  assert (Hpre : pre = []).
  { change (trace_of (@limiter_Wait stubExternals (ctxToken 1)
              (stub_state (stub_api 3 ∅) [] (stub_world 0 [] 200 None))))
      with [EvRateWait (ctxToken 1) (Some (Errorf "context canceled"))] in Hw.
    destruct pre as [|e pre]; [reflexivity |].
    destruct pre; discriminate Hw. }
  subst pre. rewrite Ht. split; reflexivity.
Defined.

(** * Further properties *)

(** ** The retry controller under sequences of calls *)

Section RetrySequences.
Context {X : Externals}.

Lemma delayCalls_app (t1 t2 : list Event) :
  delayCalls (t1 ++ t2) = delayCalls t1 ++ delayCalls t2.
Proof.
  induction t1 as [|e t1 IH]; [reflexivity |].
  destruct e; cbn [app delayCalls]; rewrite IH; reflexivity.
Qed.

(** What [Next] keeps of the controller, and the one call it may make. *)
Lemma Next_frame (b : backoff) (w : World) :
  0 <= attempts b <= maxAttempts b -> maxAttempts b <= maxInt64 ->
  let b' := (Next b w).1.1.2 in
  maxAttempts b' = maxAttempts b /\ 0 <= attempts b' <= maxAttempts b /\
  Forall (fun n => 1 <= n <= maxAttempts b) (delayCalls (Next b w).2).
Proof.
  intros Ha Hmax. cbn zeta.
  destruct (Z.lt_ge_cases (attempts b) (maxAttempts b)) as [Hlt | Hge].
  - rewrite Next_go by (unfold minInt64; lia). cbn.
    repeat split; try lia. repeat constructor; lia.
  - rewrite Next_stop by lia. cbn. repeat split; try lia. constructor.
Qed.

(** X1. Whatever calls of [Next] and [Reset] are made, in whatever order,
    on a controller whose counter is between zero and the maximum, the
    counter stays between zero and the maximum, and the delay function is
    only ever called with an attempt number between one and the maximum. *)
Theorem retry_counter_stays_within_maximum (ops : list retryOp) (b : backoff) (w : World) :
  0 <= attempts b <= maxAttempts b -> maxAttempts b <= maxInt64 ->
  let run := runRetryOps ops b w in
  0 <= attempts run.1.1 <= maxAttempts b /\
  maxAttempts run.1.1 = maxAttempts b /\
  Forall (fun n => 1 <= n <= maxAttempts b) (delayCalls run.2).
Proof.
  revert b w. induction ops as [|op ops IH]; intros b w Ha Hmax; cbn zeta.
  - cbn. repeat split; try lia. constructor.
  - destruct op; cbn [runRetryOps].
    + destruct (Next_frame b w Ha Hmax) as (Hm & Hb & Hcalls).
      destruct (Next b w) as [[[d b'] w'] t]. cbn in Hm, Hb, Hcalls.
      destruct (IH b' w') as (IHa & IHm & IHc); [lia | lia |].
      destruct (runRetryOps ops b' w') as [[b'' w''] t']. cbn in IHa, IHm, IHc |- *.
      rewrite Hm in IHa, IHm, IHc.
      repeat split; try lia.
      rewrite delayCalls_app. apply Forall_app. split; assumption.
    + destruct (IH (Reset b).2 w) as (IHa & IHm & IHc); [cbn; lia | cbn; lia |].
      cbn in IHa, IHm, IHc. exact (conj IHa (conj IHm IHc)).
Qed.

(** The attempt numbers of [k] calls of [Next] from the counter [a]. *)
Lemma Next_run_delayCalls (k : nat) (b : backoff) (w : World) :
  0 <= attempts b <= maxAttempts b -> maxAttempts b <= maxInt64 ->
  delayCalls (runRetryOps (replicate k opNext) b w).2
    = map (fun i => attempts b + Z.of_nat i)
          (seq 1 (Nat.min k (Z.to_nat (maxAttempts b - attempts b)))).
Proof.
  revert b w. induction k as [|k IH]; intros b w Ha Hmax; [reflexivity |].
  cbn [replicate runRetryOps].
  destruct (Z.lt_ge_cases (attempts b) (maxAttempts b)) as [Hlt | Hge].
  - pose proof (Next_go b w Hlt Hmax ltac:(unfold minInt64; lia)) as HN. cbn zeta in HN.
    destruct (Next b w) as [[[d b'] w'] t].
    injection HN as Hd Hb' Hw' Ht. subst d b' w' t.
    specialize (IH (set_attempts b (attempts b + 1))
                   (f b (attempts b + 1) (minWaitTime b) (maxWaitTime b) w).2).
    destruct (runRetryOps (replicate k opNext) _ _) as [[b'' w''] t'].
    cbn [snd fst] in IH |- *. cbn [app delayCalls].
    rewrite IH by (cbn; lia). cbn [set_attempts attempts maxAttempts].
    replace (Z.to_nat (maxAttempts b - attempts b))
      with (S (Z.to_nat (maxAttempts b - (attempts b + 1)))) by lia.
    cbn [Nat.min seq map]. f_equal.
    rewrite <- (seq_shift _ 1), List.map_map. apply List.map_ext. intros i. lia.
  - pose proof (Next_stop b w ltac:(lia)) as HN.
    destruct (Next b w) as [[[d b'] w'] t].
    injection HN as Hd Hb' Hw' Ht. subst d b' w' t.
    specialize (IH b w Ha Hmax).
    destruct (runRetryOps (replicate k opNext) b w) as [[b'' w''] t'].
    cbn [snd] in IH |- *. cbn [app]. rewrite IH.
    replace (Z.to_nat (maxAttempts b - attempts b)) with O by lia.
    rewrite !Nat.min_0_r. reflexivity.
Qed.

(** X2. After a [Reset], [k] calls of [Next] call the delay function with
    the attempt numbers 1, 2, ... in order, as many as the smaller of [k]
    and the maximum. *)
Theorem Next_after_Reset_counts_from_one (k : nat) (b : backoff) (w : World) :
  0 <= maxAttempts b <= maxInt64 ->
  delayCalls (runRetryOps (opReset :: replicate k opNext) b w).2
    = map Z.of_nat (seq 1 (Nat.min k (Z.to_nat (maxAttempts b)))).
Proof.
  intros Hmax. cbn [runRetryOps].
  rewrite Next_run_delayCalls by (cbn; lia).
  cbn [Reset snd set_attempts attempts maxAttempts]. rewrite Z.sub_0_r.
  apply List.map_ext. intros i. lia.
Qed.

(** X3. A controller whose counter has reached the maximum stays as it is
    under any number of calls of [Next]: each returns [stopBackoff], none
    calls the delay function, and the world is not touched. *)
Theorem Next_exhausted_is_inert (k : nat) (b : backoff) (w : World) :
  maxAttempts b <= attempts b ->
  runRetryOps (replicate k opNext) b w = (b, w, []) /\
  (Next b w).1.1.1 = stopBackoff.
Proof.
  intros Hge. split; [| rewrite Next_stop by exact Hge; reflexivity].
  induction k as [|k IH]; [reflexivity |].
  cbn [replicate runRetryOps]. rewrite Next_stop by exact Hge. rewrite IH. reflexivity.
Qed.

End RetrySequences.

(** X1, a run: two calls of [Next], a [Reset], three calls of [Next], with
    a maximum of two. *)
Lemma retry_counter_stays_within_maximum_witness :
  let run := @runRetryOps stubExternals [opNext; opNext; opReset; opNext; opNext; opNext]
               (stub_backoff 2 0) (stub_world 0 [] 200 None) in
  0 <= attempts run.1.1 <= maxAttempts (stub_backoff 2 0) /\
  maxAttempts run.1.1 = maxAttempts (stub_backoff 2 0) /\
  Forall (fun n => 1 <= n <= maxAttempts (stub_backoff 2 0)) (delayCalls run.2).
Proof.
  apply (@retry_counter_stays_within_maximum stubExternals
           [opNext; opNext; opReset; opNext; opNext; opNext]
           (stub_backoff 2 0) (stub_world 0 [] 200 None)); vm_compute;
    first [discriminate | split; discriminate].
Defined.

(** X2, a run: five calls after a [Reset] with a maximum of three. *)
Lemma Next_after_Reset_counts_from_one_witness :
  delayCalls (@runRetryOps stubExternals (opReset :: replicate 5 opNext)
                (stub_backoff 3 2) (stub_world 0 [] 200 None)).2
    = map Z.of_nat (seq 1 (Nat.min 5 (Z.to_nat (maxAttempts (stub_backoff 3 2))))).
Proof.
  apply (@Next_after_Reset_counts_from_one stubExternals 5 (stub_backoff 3 2)
           (stub_world 0 [] 200 None)); vm_compute; split; discriminate.
Defined.

(** X3, a run: the counter is at the maximum of two. *)
Lemma Next_exhausted_is_inert_witness :
  @runRetryOps stubExternals (replicate 4 opNext) (stub_backoff 2 2) (stub_world 0 [] 200 None)
    = (stub_backoff 2 2, stub_world 0 [] 200 None, []) /\
  (@Next stubExternals (stub_backoff 2 2) (stub_world 0 [] 200 None)).1.1.1 = stopBackoff.
Proof.
  apply (@Next_exhausted_is_inert stubExternals 4 (stub_backoff 2 2)
           (stub_world 0 [] 200 None)); vm_compute; discriminate.
Defined.


(** ** The limiter under sequences of calls *)

Section LimiterSequences.
Context {X : Externals}.

Lemma runResetEvents_calls (es : list resetEvent) (w : World) :
  (runResetEvents es w).2 = map resetCall es.
Proof.
  revert w. induction es as [|e es IH]; intros w; [reflexivity |].
  cbn [runResetEvents map].
  destruct (runResetEvent e w) as [w1 ev] eqn:E1.
  specialize (IH w1). destruct (runResetEvents es w1) as [w2 evs].
  cbn [snd] in *. rewrite <- IH. f_equal.
  destruct e; cbn in E1 |- *; congruence.
Qed.

Lemma countEvents_resetCalls (es : list resetEvent) :
  countEvents isResetCall (map resetCall es) = length es.
Proof.
  induction es as [|e es IH]; [reflexivity |].
  destruct e; cbn; rewrite IH; reflexivity.
Qed.

(** [Wait], by the reading of the clock. *)
Lemma Wait_by_clock (l : adaptiveBucketLimiter) (ctx : Ctx) (w : World) :
  let now := (time_Now w).1 in
  ((Wait l ctx w).1.1.2 = (if now <=? nextResetAt l
                           then {| nextResetAt := zeroTime; nextResetEvents := [] |}
                           else l)) /\
  (Wait l ctx w).2
    = (if now <=? nextResetAt l then map resetCall (nextResetEvents l) else [])
      ++ [EvRateWait ctx (Wait l ctx w).1.1.1].
Proof.
  cbn zeta. unfold Wait.
  destruct (Wait_reset_cases l w) as [Hfire Hkeep]. cbn zeta in Hfire, Hkeep.
  destruct (Z.leb_spec (time_Now w).1 (nextResetAt l)) as [Hle | Hgt].
  - rewrite (Hfire Hle). rewrite runResetEvents_calls.
    destruct (rate_Wait ctx _) as [err w2]. split; reflexivity.
  - rewrite (Hkeep Hgt).
    destruct (rate_Wait ctx _) as [err w2]. split; reflexivity.
Qed.

(** X4. A [Wait] applies the pending callbacks all or not at all: either
    it calls every one of them once, in the order they were scheduled, and
    leaves the limiter with no trigger time and no callback, or it calls
    none and leaves the limiter as it was. Either way its last call is the
    [Wait] of the underlying limiter, whose answer it returns. *)
Theorem Wait_applies_all_or_nothing (l : adaptiveBucketLimiter) (ctx : Ctx) (w : World) :
  let err := (Wait l ctx w).1.1.1 in
  let l' := (Wait l ctx w).1.1.2 in
  let t := (Wait l ctx w).2 in
  (l' = {| nextResetAt := zeroTime; nextResetEvents := [] |} /\
   t = map resetCall (nextResetEvents l) ++ [EvRateWait ctx err]) \/
  (l' = l /\ t = [EvRateWait ctx err]).
Proof.
  cbn zeta. destruct (Wait_by_clock l ctx w) as [Hl Ht]. cbn zeta in Hl, Ht.
  destruct ((time_Now w).1 <=? nextResetAt l).
  - left. split; assumption.
  - right. split; assumption.
Qed.

(** X5. Which of the two it is depends on the clock alone: a [Wait] whose
    reading of the clock is at or before the pending trigger time applies
    the callbacks, and a [Wait] whose reading is after the trigger time
    applies none, however long after. *)
Theorem Wait_fires_until_trigger_time (l : adaptiveBucketLimiter) (ctx : Ctx) (w : World) :
  let now := (time_Now w).1 in
  (now <= nextResetAt l ->
     countEvents isResetCall (Wait l ctx w).2 = length (nextResetEvents l) /\
     nextResetEvents (Wait l ctx w).1.1.2 = []) /\
  (nextResetAt l < now ->
     countEvents isResetCall (Wait l ctx w).2 = 0%nat /\
     (Wait l ctx w).1.1.2 = l).
Proof.
  cbn zeta. destruct (Wait_by_clock l ctx w) as [Hl Ht]. cbn zeta in Hl, Ht.
  split; intros Hc.
  - apply Z.leb_le in Hc. rewrite Hc in Hl, Ht. rewrite Hl, Ht. split; [| reflexivity].
    rewrite countEvents_app, countEvents_resetCalls. cbn [countEvents isResetCall].
    apply Nat.add_0_r.
  - apply Z.leb_gt in Hc. rewrite Hc in Hl, Ht. rewrite Hl, Ht. split; reflexivity.
Qed.

Lemma runScheduleOp_events (op : scheduleOp) (l : adaptiveBucketLimiter) (w : World) :
  nextResetEvents (runScheduleOp op l w).1 = nextResetEvents l ++ [scheduledEvent op] /\
  (scheduledAt op <> zeroTime ->
     nextResetAt (runScheduleOp op l w).1 = scheduledAt op /\ (runScheduleOp op l w).2 = w) /\
  (scheduledAt op = zeroTime ->
     nextResetAt (runScheduleOp op l w).1 = (time_Now w).1).
Proof.
  destruct op as [t b | t q]; cbn [runScheduleOp scheduledAt scheduledEvent];
    unfold SetBurstAt, SetLimitAt, validateResetAt, IsZero;
    (destruct (Z.eqb_spec t zeroTime) as [-> | Hne];
     [ destruct (time_Now w) as [now w']; cbn; repeat split; intros; congruence
     | cbn; repeat split; intros; congruence ]).
Qed.

(** X6. The limiter has one trigger time for all pending changes: after
    any calls of [SetBurstAt] and [SetLimitAt], the callbacks of all of
    them are pending in the order of the calls, behind those that were
    pending before, and the trigger time is the time given to the last
    call (when that is not the zero time), whatever times the earlier calls
    gave. *)
Theorem schedule_keeps_last_time (ops : list scheduleOp) (op : scheduleOp)
    (l : adaptiveBucketLimiter) (w : World) :
  scheduledAt op <> zeroTime ->
  let l' := (runSchedule (ops ++ [op]) l w).1 in
  nextResetAt l' = scheduledAt op /\
  nextResetEvents l' = nextResetEvents l ++ map scheduledEvent (ops ++ [op]).
Proof.
  intros Hnz. cbn zeta. revert l w.
  induction ops as [|o ops IH]; intros l w.
  - cbn [app runSchedule map].
    destruct (runScheduleOp_events op l w) as (He & Ht & _).
    destruct (runScheduleOp op l w) as [l1 w1]. cbn in He, Ht |- *.
    destruct (Ht Hnz) as [Hat _]. split; assumption.
  - cbn [app runSchedule map].
    destruct (runScheduleOp_events o l w) as (He & _).
    destruct (runScheduleOp o l w) as [l1 w1]. cbn in He.
    destruct (IH l1 w1) as [IHt IHe]. split; [exact IHt |].
    rewrite IHe, He, <- app_assoc. reflexivity.
Qed.

(** X7. A change scheduled with the zero time is scheduled for the reading
    of the clock at that moment, and a [Wait] whose reading of the clock is
    later than that applies none of the pending callbacks and leaves them
    pending. *)
Theorem schedule_at_zero_time_misses_later_Wait (op : scheduleOp)
    (l : adaptiveBucketLimiter) (w w' : World) (ctx : Ctx) :
  scheduledAt op = zeroTime ->
  (time_Now w).1 < (time_Now w').1 ->
  let l1 := (runScheduleOp op l w).1 in
  nextResetAt l1 = (time_Now w).1 /\
  (Wait l1 ctx w').1.1.2 = l1 /\
  (Wait l1 ctx w').2 = [EvRateWait ctx (Wait l1 ctx w').1.1.1].
Proof.
  intros Hz Hlater. cbn zeta.
  destruct (runScheduleOp_events op l w) as (_ & _ & Hat). specialize (Hat Hz).
  split; [exact Hat |].
  destruct (Wait_by_clock (runScheduleOp op l w).1 ctx w') as [Hl Ht]. cbn zeta in Hl, Ht.
  rewrite Hat in Hl, Ht.
  assert (Hc : ((time_Now w').1 <=? (time_Now w).1) = false) by (apply Z.leb_gt; lia).
  rewrite Hc in Hl, Ht. split; assumption.
Qed.

End LimiterSequences.

(** X5, a run: trigger time 5, two callbacks, the clock at 3 and at 10. *)
Lemma Wait_fires_until_trigger_time_witness :
  let l := {| nextResetAt := 5; nextResetEvents := [setBurst 3; setLimit (2 # 1)] |} in
  (countEvents isResetCall (@Wait stubExternals l (ctxToken 0) (stub_world 3 [] 200 None)).2
     = 2%nat /\
   nextResetEvents (@Wait stubExternals l (ctxToken 0) (stub_world 3 [] 200 None)).1.1.2 = []) /\
  (countEvents isResetCall (@Wait stubExternals l (ctxToken 0) (stub_world 10 [] 200 None)).2
     = 0%nat /\
   (@Wait stubExternals l (ctxToken 0) (stub_world 10 [] 200 None)).1.1.2 = l).
Proof.
  split.
  - apply (proj1 (@Wait_fires_until_trigger_time stubExternals
             {| nextResetAt := 5; nextResetEvents := [setBurst 3; setLimit (2 # 1)] |}
             (ctxToken 0) (stub_world 3 [] 200 None))).
    vm_compute. discriminate.
  - apply (proj2 (@Wait_fires_until_trigger_time stubExternals
             {| nextResetAt := 5; nextResetEvents := [setBurst 3; setLimit (2 # 1)] |}
             (ctxToken 0) (stub_world 10 [] 200 None))).
    vm_compute. reflexivity.
Defined.

(** X6, a run: a burst change for time 50, then a rate change for time 20. *)
Lemma schedule_keeps_last_time_witness :
  let l' := (@runSchedule stubExternals ([schedBurst 50 3] ++ [schedLimit 20 (2 # 1)])
               newAdaptiveBucketLimiter (stub_world 7 [] 200 None)).1 in
  nextResetAt l' = scheduledAt (schedLimit 20 (2 # 1)) /\
  nextResetEvents l'
    = nextResetEvents newAdaptiveBucketLimiter
      ++ map scheduledEvent ([schedBurst 50 3] ++ [schedLimit 20 (2 # 1)]).
Proof.
  apply (@schedule_keeps_last_time stubExternals [schedBurst 50 3] (schedLimit 20 (2 # 1))
           newAdaptiveBucketLimiter (stub_world 7 [] 200 None)).
  vm_compute. discriminate.
Defined.

(** X7, a run: scheduled with the zero time when the clock reads 7, and a
    [Wait] when it reads 8. *)
Lemma schedule_at_zero_time_misses_later_Wait_witness :
  let l1 := (@runScheduleOp stubExternals (schedBurst zeroTime 3) newAdaptiveBucketLimiter
               (stub_world 7 [] 200 None)).1 in
  nextResetAt l1 = 7 /\
  (@Wait stubExternals l1 (ctxToken 0) (stub_world 8 [] 200 None)).1.1.2 = l1 /\
  (@Wait stubExternals l1 (ctxToken 0) (stub_world 8 [] 200 None)).2
    = [EvRateWait (ctxToken 0)
         (@Wait stubExternals l1 (ctxToken 0) (stub_world 8 [] 200 None)).1.1.1].
Proof.
  apply (@schedule_at_zero_time_misses_later_Wait stubExternals (schedBurst zeroTime 3)
           newAdaptiveBucketLimiter (stub_world 7 [] 200 None) (stub_world 8 [] 200 None)
           (ctxToken 0)).
  - reflexivity.
  - vm_compute. reflexivity.
Defined.


(** ** The attempt loop: bounds, the counter, what stays the same *)

Section LoopFacts.
Context {X : Externals}.

Lemma sentRequests_app (t1 t2 : list Event) :
  sentRequests (t1 ++ t2) = sentRequests t1 ++ sentRequests t2.
Proof.
  induction t1 as [|e t1 IH]; [reflexivity |].
  destruct e; cbn [app sentRequests]; rewrite IH; reflexivity.
Qed.

(** The calls of one run of [do]: at most one transport call, on the
    request [do] sends, no sleep and no call of the delay function. *)
Lemma do_call_calls (ctx : Ctx) (req : Request) (s : State)
    (r : Result + Result) (s' : State) (t : list Event) :
  do_call ctx req s = (r, s', t) ->
  (sentRequests t = [] \/ sentRequests t = [req]) /\
  countEvents isSleep t = 0%nat /\ delayCalls t = [].
Proof.
  unfold do_call, breaker_Execute, guardedDo, breaker_before, breaker_after, client_Do.
  run_unfold.
  destruct (has_breaker (api s)).
  - destruct (breaker_beforeRequest (world s)) as [[err|] w'].
    + intros H. simplify_eq. cbn. repeat split. left. reflexivity.
    + cbn. destruct (httpClient_Do ctx req _ w') as [res w2].
      intros H. simplify_eq. cbn. repeat split. right. reflexivity.
  - destruct (httpClient_Do ctx req _ (world s)) as [res w2].
    intros H. simplify_eq. cbn. repeat split. right. reflexivity.
Qed.

Lemma do_finish_calls (res out : Result) (s s' : State) (t : list Event) :
  do_finish res s = (out, s', t) ->
  sentRequests t = [] /\ countEvents isSleep t = 0%nat /\ delayCalls t = [].
Proof.
  unfold do_finish. run_unfold. intros H.
  repeat case_match; simplify_eq; repeat split.
Qed.

Lemma do_rehydrate_envelope (httpReq : Request) (reuse : bool) (s : State)
    (httpReq' req : Request) (s1 : State) (t1 : list Event) :
  do_rehydrate httpReq reuse s = (httpReq', req, s1, t1) ->
  sameEnvelope httpReq httpReq' /\ sameEnvelope httpReq req.
Proof.
  unfold do_rehydrate, readAll, newReader, sameEnvelope. run_unfold.
  destruct reuse, (Body httpReq); intros H; simplify_eq; repeat split.
Qed.

(** One run of [do]: the request it leaves and the request it sends, if it
    sends one, have the method, the URL and the headers of the request it
    was given; it neither sleeps nor asks for a delay. *)
Lemma do_calls (ctx : Ctx) (httpReq : Request) (reuse : bool) (s : State)
    (out : Result) (httpReq' : Request) (s' : State) (t : list Event) :
  do ctx httpReq reuse s = (out, httpReq', s', t) ->
  sameEnvelope httpReq httpReq' /\
  Forall (sameEnvelope httpReq) (sentRequests t) /\
  countEvents isSleep t = 0%nat /\ delayCalls t = [].
Proof.
  intros E.
  apply do_inv in E. destruct E as (req & s1 & r & s2 & t2 & t3 & E1 & E2 & -> & E3).
  apply do_rehydrate_envelope in E1. destruct E1 as [Hk Hs].
  apply do_call_calls in E2. destruct E2 as (Hreq & Hsl & Hdc).
  assert (H3 : sentRequests t3 = [] /\ countEvents isSleep t3 = 0%nat /\ delayCalls t3 = []).
  { destruct r as [early | res].
    - destruct E3 as (_ & _ & ->). repeat split.
    - apply do_finish_calls in E3. exact E3. }
  destruct H3 as (H3r & H3s & H3d).
  split; [exact Hk |].
  rewrite sentRequests_app, countEvents_app, delayCalls_app, H3r, H3s, H3d, Hsl, Hdc, app_nil_r.
  repeat split.
  destruct Hreq as [-> | ->]; [constructor | constructor; [exact Hs | constructor]].
Qed.

Lemma sameEnvelope_trans (a b c : Request) :
  sameEnvelope a b -> sameEnvelope b c -> sameEnvelope a c.
Proof. unfold sameEnvelope. intros (? & ? & ?) (? & ? & ?). repeat split; congruence. Qed.

End LoopFacts.


Section LoopShape.
Context {X : Externals}.

Lemma retry_Next_limiter (s : State) :
  limiter (api (state_of (retry_Next s))) = limiter (api s).
Proof.
  unfold retry_Next. destruct (retry (api s)) as [b|]; [| reflexivity].
  destruct (Next b (world s)) as [[[d b'] w'] evs]. reflexivity.
Qed.

Lemma retry_Reset_limiter (s : State) :
  limiter (api (state_of (retry_Reset s))) = limiter (api s).
Proof. unfold retry_Reset. destruct (retry (api s)) as [b|]; reflexivity. Qed.

Lemma Next_sameConfig (b : backoff) (w : World) : sameConfig b (Next b w).1.1.2.
Proof.
  unfold Next, sameConfig. destruct (attempts b >=? maxAttempts b); [repeat split |].
  cbn zeta. destruct (f _ _ _ _ _) as [d w']. repeat split.
Qed.

Lemma sameConfig_trans (a b c : backoff) : sameConfig a b -> sameConfig b c -> sameConfig a c.
Proof. unfold sameConfig. intros (? & ? & ? & ?) (? & ? & ? & ?). repeat split; congruence. Qed.

(** Any run of the loop with fuel enough: it ends with a pair; it made one
    attempt more than it slept; it slept at most [maxAttempts - attempts]
    times; the counter ends at zero when the pair it returns matches a
    retry condition (the loop stopped on [stopBackoff] and reset it) and at
    its first value plus the number of sleeps when the pair matches none;
    every request sent has the method, URL and headers of the first; the
    rest of the API object is as it was. *)
Lemma retryLoop_shape (fuel : nat) (ctx : Ctx) (httpReq : Request) (s : State) (b : backoff) :
  retry (api s) = Some b ->
  minInt64 <= attempts b -> maxAttempts b <= maxInt64 ->
  (Z.to_nat (maxAttempts b - attempts b) < fuel)%nat ->
  let run := retryLoop fuel ctx httpReq s in
  exists res b',
    result_of run = Some res /\
    retry (api (state_of run)) = Some b' /\ sameConfig b b' /\
    options (api (state_of run)) = options (api s) /\
    breaker (api (state_of run)) = breaker (api s) /\
    limiter (api (state_of run)) = limiter (api s) /\
    countEvents (isAttemptStart (has_breaker (api s))) (trace_of run)
      = S (countEvents isSleep (trace_of run)) /\
    (countEvents isSleep (trace_of run) <= Z.to_nat (maxAttempts b - attempts b))%nat /\
    (if isMatchedCond (retryConditions (api s)) res
     then attempts b' = 0
     else attempts b' = attempts b + Z.of_nat (countEvents isSleep (trace_of run))) /\
    Forall (sameEnvelope httpReq) (sentRequests (trace_of run)).
Proof.
  revert httpReq s b.
  induction fuel as [|fuel IH]; intros httpReq s b Hb Hlo Hhi Hfuel; [lia |].
  cbn zeta. rewrite retryLoop_S.
  pose proof (do_api ctx httpReq true s) as Hapi.
  pose proof (do_one_attempt ctx httpReq true s) as Hone.
  destruct (do ctx httpReq true s) as [[[res httpReq'] s1] t1] eqn:Edo.
  cbn in Hapi, Hone.
  destruct (do_calls _ _ _ _ _ _ _ _ Edo) as (Hkeep & Hsent & Hsl & Hdc).
  rewrite Hapi.
  destruct (isMatchedCond (retryConditions (api s)) res) eqn:Em.
  2:{ exists res, b. unfold result_of, state_of, trace_of. cbn [fst snd].
      rewrite Hapi, Hsl, Em. split; [reflexivity |].
      split; [exact Hb |]. split; [repeat split |].
      repeat split; try lia; assumption. }
  destruct (retry_Next s1) as [[d s2] t2] eqn:En.
  pose proof (retry_Next_limiter s1) as Hlim2. rewrite En in Hlim2. cbn in Hlim2.
  destruct (retry_Next_inv s1 b d s2 t2) as (b1 & w' & HN & Hb1 & Ho2 & Hbr2 & _);
    [congruence | exact En |].
  pose proof (Next_sameConfig b (world s1)) as Hcfg. rewrite HN in Hcfg. cbn in Hcfg.
  assert (Ht2 : sentRequests t2 = [] /\ countEvents isSleep t2 = 0%nat /\
                countEvents (isAttemptStart (has_breaker (api s))) t2 = 0%nat).
  { pose proof (Next_trace b (world s1)) as [_ Hc]. rewrite HN in Hc. cbn in Hc.
    split; [| split; [| apply Hc]].
    - unfold Next in HN. destruct (attempts b >=? maxAttempts b); [simplify_eq; reflexivity |].
      cbn zeta in HN. destruct (f _ _ _ _ _). simplify_eq. reflexivity.
    - unfold Next in HN. destruct (attempts b >=? maxAttempts b); [simplify_eq; reflexivity |].
      cbn zeta in HN. destruct (f _ _ _ _ _). simplify_eq. reflexivity. }
  destruct Ht2 as (Ht2r & Ht2s & Ht2a).
  destruct (d =? stopBackoff) eqn:Ed.
  - destruct (retry_Reset s2) as [[n s3] t3] eqn:Er.
    pose proof (retry_Reset_limiter s2) as Hlim3. rewrite Er in Hlim3. cbn in Hlim3.
    destruct (retry_Reset_inv s2 b1 n s3 t3 Hb1 Er) as (_ & -> & Hs3 & Ho3 & Hbr3 & _).
    exists res, (set_attempts b1 0). unfold result_of, state_of, trace_of. cbn [fst snd].
    rewrite !app_nil_r, !countEvents_app, !sentRequests_app, Hone, Hsl, Ht2r, Ht2s, Ht2a, Em,
      app_nil_r.
    split; [reflexivity |]. split; [exact Hs3 |].
    split; [destruct Hcfg as (? & ? & ? & ?); repeat split; cbn; assumption |].
    repeat split; try congruence; try lia; try assumption.
  - destruct (Z.lt_ge_cases (attempts b) (maxAttempts b)) as [Hlt | Hge].
    2:{ rewrite Next_stop in HN by lia. injection HN as Hd _ _ _. subst d. discriminate Ed. }
    assert (Ha1 : attempts b1 = attempts b + 1).
    { rewrite Next_go in HN by lia. cbn zeta in HN. injection HN as _ Hb1' _ _.
      subst b1. reflexivity. }
    destruct Hcfg as (Hc1 & Hc2 & Hc3 & Hc4).
    set (s2' := set_world s2 (time_Sleep d (world s2))).
    assert (Hapi2 : api s2' = api s2) by reflexivity.
    specialize (IH httpReq' s2' b1).
    destruct IH as (r & b' & IHr & IHb & IHcfg & IHo & IHbr & IHl & IHc & IHs & IHm & IHe);
      [exact Hb1 | lia | lia | lia |].
    destruct (retryLoop fuel ctx httpReq' _) as [[r0 s4] t4].
    unfold result_of, state_of, trace_of in *. cbn [fst snd] in *.
    assert (Hhb : has_breaker (api s2') = has_breaker (api s))
      by (unfold has_breaker; rewrite Hapi2, Hbr2, Hapi; reflexivity).
    assert (Hrc : retryConditions (api s2') = retryConditions (api s))
      by (unfold retryConditions; rewrite Hapi2, Ho2, Hapi; reflexivity).
    rewrite Hapi2 in IHo, IHbr, IHl.
    rewrite Hhb in IHc. rewrite Hrc in IHm.
    exists r, b'.
    rewrite !countEvents_app, !sentRequests_app, Hone, Hsl, Ht2r, Ht2s, Ht2a.
    cbn [countEvents isSleep sentRequests app].
    assert (Hnot : isAttemptStart (has_breaker (api s)) (EvSleep d) = false)
      by (destruct (has_breaker (api s)); reflexivity).
    rewrite Hnot, IHc.
    split; [exact IHr |]. split; [exact IHb |].
    split; [eapply sameConfig_trans; [| exact IHcfg]; repeat split; assumption |].
    split; [congruence |]. split; [congruence |]. split; [congruence |].
    split; [lia |]. split; [lia |].
    split.
    + destruct (isMatchedCond (retryConditions (api s)) r); lia.
    + apply Forall_app. split; [exact Hsent |].
      eapply Forall_impl; [exact IHe |].
      intros q Hq. eapply sameEnvelope_trans; [exact Hkeep | exact Hq].
Qed.

End LoopShape.


Section LoopExtras.
Context {X : Externals}.

Lemma retryLoop_envelope (fuel : nat) (ctx : Ctx) (httpReq : Request) (s : State) :
  Forall (sameEnvelope httpReq) (sentRequests (trace_of (retryLoop fuel ctx httpReq s))).
Proof.
  revert httpReq s. induction fuel as [|fuel IH]; intros httpReq s; [constructor |].
  rewrite retryLoop_S.
  destruct (do ctx httpReq true s) as [[[res httpReq'] s1] t1] eqn:Edo.
  destruct (do_calls _ _ _ _ _ _ _ _ Edo) as (Hkeep & Hsent & _ & _).
  destruct (isMatchedCond (retryConditions (api s1)) res); [| exact Hsent].
  assert (Ht2 : sentRequests (trace_of (retry_Next s1)) = []).
  { unfold retry_Next. destruct (retry (api s1)) as [b|]; [| reflexivity].
    unfold Next. destruct (attempts b >=? maxAttempts b); [reflexivity |].
    cbn zeta. destruct (f _ _ _ _ _). reflexivity. }
  destruct (retry_Next s1) as [[d s2] t2]. cbn in Ht2.
  destruct (d =? stopBackoff).
  - pose proof (retry_Reset_frame s2) as [_ Ht3].
    destruct (retry_Reset s2) as [[n s3] t3]. cbn in Ht3. subst t3.
    unfold trace_of. cbn [snd]. rewrite !sentRequests_app, Ht2, !app_nil_r. exact Hsent.
  - specialize (IH httpReq' (set_world s2 (time_Sleep d (world s2)))).
    destruct (retryLoop fuel ctx httpReq' _) as [[r s4] t4].
    unfold trace_of in *. cbn [snd] in *.
    rewrite !sentRequests_app, Ht2. cbn [sentRequests app].
    apply Forall_app. split; [exact Hsent |].
    eapply Forall_impl; [exact IH |].
    intros q Hq. eapply sameEnvelope_trans; [exact Hkeep | exact Hq].
Qed.

(** X8. However the transport answers and whatever the retry conditions
    say, a call makes at most [maxAttempts - attempts + 1] transport
    attempts, where [attempts] is the shared counter as the call finds it;
    and it makes exactly one attempt more than it sleeps. *)
Theorem performRequest_attempts_bounded
    (ctx : Ctx) (httpReq : Request) (s : State) (b : backoff) :
  retry (api s) = Some b ->
  minInt64 <= attempts b -> maxAttempts b <= maxInt64 ->
  let t := trace_of (performRequest ctx httpReq s) in
  (countEvents (isAttemptStart (has_breaker (api s))) t
     <= S (Z.to_nat (maxAttempts b - attempts b)))%nat /\
  countEvents (isAttemptStart (has_breaker (api s))) t = S (countEvents isSleep t).
Proof.
  intros Hb Hlo Hhi. cbn zeta.
  rewrite (performRequest_retry ctx httpReq s b Hb).
  destruct (retryLoop_shape (loopFuel b) ctx httpReq s b Hb Hlo Hhi)
    as (res & b' & _ & _ & _ & _ & _ & _ & Hc & Hs & _); [unfold loopFuel; lia |].
  destruct (retryLoop (loopFuel b) ctx httpReq s) as [[r s1] t].
  unfold trace_of in *. cbn [snd] in *. split; [lia | exact Hc].
Qed.

(** X9. The shared counter after a call: when the pair the call returns
    matches a retry condition, the call stopped on [stopBackoff] and the
    counter is zero; when it matches none, the counter is not reset: it is
    what the call found plus the number of retries the call made. The
    configuration of the controller is unchanged. *)
Theorem performRequest_counter_after_call
    (ctx : Ctx) (httpReq : Request) (s : State) (b : backoff) :
  retry (api s) = Some b ->
  minInt64 <= attempts b -> maxAttempts b <= maxInt64 ->
  let run := performRequest ctx httpReq s in
  exists b',
    retry (api (state_of run)) = Some b' /\ sameConfig b b' /\
    (if isMatchedCond (retryConditions (api s)) (result_of run)
     then attempts b' = 0
     else attempts b' = attempts b + Z.of_nat (countEvents isSleep (trace_of run))).
Proof.
  intros Hb Hlo Hhi. cbn zeta.
  rewrite (performRequest_retry ctx httpReq s b Hb).
  destruct (retryLoop_shape (loopFuel b) ctx httpReq s b Hb Hlo Hhi)
    as (res & b' & Hr & Hb' & Hcfg & _ & _ & _ & _ & _ & Hm & _); [unfold loopFuel; lia |].
  destruct (retryLoop (loopFuel b) ctx httpReq s) as [[r s1] t].
  unfold result_of, state_of, trace_of in *. cbn [fst snd] in *. subst r.
  exists b'. repeat split; try assumption; apply Hcfg.
Qed.

(** X10. Every request a call hands to the transport, on the first attempt
    and on every retry, has the method, the URL and the headers of the
    request the call was given. *)
Theorem performRequest_resends_same_request (ctx : Ctx) (httpReq : Request) (s : State) :
  Forall (sameEnvelope httpReq) (sentRequests (trace_of (performRequest ctx httpReq s))).
Proof.
  destruct (retry (api s)) as [b|] eqn:Er.
  - rewrite (performRequest_retry ctx httpReq s b Er).
    pose proof (retryLoop_envelope (loopFuel b) ctx httpReq s) as H.
    destruct (retryLoop (loopFuel b) ctx httpReq s) as [[r s1] t]. exact H.
  - rewrite (performRequest_single ctx httpReq s Er).
    destruct (do ctx httpReq false s) as [[[out h'] s'] t] eqn:E.
    destruct (do_calls _ _ _ _ _ _ _ _ E) as (_ & Hsent & _). exact Hsent.
Qed.

(** X11. When the pair of the first attempt matches no retry condition (or
    no retry is configured), the call is that one attempt: it returns the
    pair, makes no other call, and leaves the API object, the retry counter
    included, as it was, whatever the maximum of attempts is. *)
Theorem performRequest_one_attempt_when_unmatched
    (ctx : Ctx) (httpReq : Request) (s : State) :
  let first := do ctx httpReq (reuseBody (api s)) s in
  retry (api s) = None \/
    isMatchedCond (retryConditions (api s)) (result_of first).1 = false ->
  performRequest ctx httpReq s = ((result_of first).1, state_of first, trace_of first) /\
  countEvents (isAttemptStart (has_breaker (api s)))
    (trace_of (performRequest ctx httpReq s)) = 1%nat /\
  api (state_of (performRequest ctx httpReq s)) = api s.
Proof.
  cbn zeta. intros Hcase.
  assert (Hrun : performRequest ctx httpReq s
                 = ((result_of (do ctx httpReq (reuseBody (api s)) s)).1,
                    state_of (do ctx httpReq (reuseBody (api s)) s),
                    trace_of (do ctx httpReq (reuseBody (api s)) s))).
  { unfold reuseBody in *. destruct (retry (api s)) as [b|] eqn:Er.
    - destruct Hcase as [Hnone | Hno]; [discriminate |].
      rewrite (performRequest_retry ctx httpReq s b Er).
      unfold loopFuel. rewrite retryLoop_unmatched by exact Hno. reflexivity.
    - rewrite (performRequest_single ctx httpReq s Er).
      destruct (do ctx httpReq false s) as [[res s'] t]. reflexivity. }
  rewrite Hrun. split; [reflexivity |].
  unfold trace_of at 1, state_of at 1. cbn [fst snd]. split.
  - apply do_one_attempt.
  - apply do_api.
Qed.

End LoopExtras.

(** X8, a run: a maximum of three attempts, the counter at one. *)
Lemma performRequest_attempts_bounded_witness :
  let s := stub_state (set_api_attempts (stub_api 3 ∅) 1) [] (stub_world 0 [] 429 None) in
  let t := trace_of (@performRequest stubExternals (ctxToken 0) (stub_request None) s) in
  (countEvents (isAttemptStart (has_breaker (api s))) t
     <= S (Z.to_nat (maxAttempts (stub_backoff 3 1) - attempts (stub_backoff 3 1))))%nat /\
  countEvents (isAttemptStart (has_breaker (api s))) t = S (countEvents isSleep t).
Proof.
  apply (@performRequest_attempts_bounded stubExternals (ctxToken 0) (stub_request None)
           (stub_state (set_api_attempts (stub_api 3 ∅) 1) [] (stub_world 0 [] 429 None))
           (stub_backoff 3 1)).
  - reflexivity.
  - vm_compute. discriminate.
  - vm_compute. discriminate.
Defined.

(** X9, a run: the answers are 429, 429, 200, so the call retries twice
    and returns the 200; the counter, at zero before, is at two after. *)
Lemma performRequest_counter_after_call_witness :
  let s := stub_state (stub_api 3 ∅) [] (stub_world 0 [429; 429; 200] 500 None) in
  let run := @performRequest stubExternals (ctxToken 0) (stub_request None) s in
  result_of run = (Some (stub_response 200), None) /\
  (attempts <$> retry (api (state_of run))) = Some 2 /\
  exists b',
    retry (api (state_of run)) = Some b' /\ sameConfig (stub_backoff 3 0) b' /\
    (if isMatchedCond (retryConditions (api s)) (result_of run)
     then attempts b' = 0
     else attempts b' = attempts (stub_backoff 3 0)
                        + Z.of_nat (countEvents isSleep (trace_of run))).
Proof.
  split; [reflexivity |]. split; [reflexivity |].
  apply (@performRequest_counter_after_call stubExternals (ctxToken 0) (stub_request None)
           (stub_state (stub_api 3 ∅) [] (stub_world 0 [429; 429; 200] 500 None))
           (stub_backoff 3 0)).
  - reflexivity.
  - vm_compute. discriminate.
  - vm_compute. discriminate.
Defined.

(** X11, a run: the first answer is 200. *)
Lemma performRequest_one_attempt_when_unmatched_witness :
  let s := stub_state (stub_api 3 ∅) [] (stub_world 0 [200] 500 None) in
  let first := @do stubExternals (ctxToken 0) (stub_request None) (reuseBody (api s)) s in
  @performRequest stubExternals (ctxToken 0) (stub_request None) s
    = ((result_of first).1, state_of first, trace_of first) /\
  countEvents (isAttemptStart (has_breaker (api s)))
    (trace_of (@performRequest stubExternals (ctxToken 0) (stub_request None) s)) = 1%nat /\
  api (state_of (@performRequest stubExternals (ctxToken 0) (stub_request None) s)) = api s.
Proof.
  apply (@performRequest_one_attempt_when_unmatched stubExternals (ctxToken 0)
           (stub_request None)
           (stub_state (stub_api 3 ∅) [] (stub_world 0 [200] 500 None))).
  right. reflexivity.
Defined.


(** ** Building the request: body, options, errors *)

Section BuildExtras.
Context {X : Externals}.

Lemma error_eqb_refl (e : error) : error_eqb e e = true.
Proof.
  induction e as [ | | | m | c IH m]; cbn; try reflexivity.
  - apply String.eqb_refl.
  - rewrite IH, String.eqb_refl. reflexivity.
Qed.

Lemma errors_Is_Wrap_cause (cause : error) (msg : string) :
  errors_Is (Wrap cause msg) cause = true.
Proof.
  cbn [errors_Is]. apply orb_true_iff. right.
  destruct cause; cbn [errors_Is]; rewrite error_eqb_refl; reflexivity.
Qed.

(** The options of a call run in the order given and the first error ends
    the run: a list in two parts runs the first part and, only if that
    gives no error, the second part on what the first part left. *)
Lemma applyOptions_app (opts1 opts2 : list RequestOption) (req : Request)
    (rs : list (list Byte.byte)) :
  applyOptions (opts1 ++ opts2) req rs =
    match applyOptions opts1 req rs with
    | inl err => inl err
    | inr (req', rs') => applyOptions opts2 req' rs'
    end.
Proof.
  revert req rs. induction opts1 as [|opt opts1 IH]; intros req rs; [reflexivity |].
  cbn [app applyOptions].
  destruct (opt req rs) as [[[err|] r1] rs1]; [reflexivity | apply IH].
Qed.

Lemma applyOptions_keeps_body (opts : list RequestOption) :
  Forall keepsBody opts ->
  forall req rs req' rs',
    applyOptions opts req rs = inr (req', rs') ->
    Body req' = Body req /\ forall h data, rs !! h = Some data -> rs' !! h = Some data.
Proof.
  induction 1 as [|opt opts Hopt _ IH]; intros req rs req' rs' Happ.
  - cbn in Happ. simplify_eq. split; [reflexivity | tauto].
  - cbn [applyOptions] in Happ.
    destruct (opt req rs) as [[[err|] r1] rs1] eqn:E; [discriminate |].
    destruct (Hopt _ _ _ _ E) as [Hb Hr].
    destruct (IH _ _ _ _ Happ) as [Hb' Hr'].
    split; [congruence | intros h data Hh; apply Hr', Hr, Hh].
Qed.

Lemma encodeParams_inv (params : list ParamEncoder) (q : gmap string (list string)) (err : error) :
  encodeParams params q = inl err ->
  exists cause param q0,
    param ∈ params /\ (param q0).1 = Some cause /\
    err = Wrap cause "failed to encode query params".
Proof.
  revert q. induction params as [|param params IH]; intros q H; [discriminate |].
  cbn [encodeParams] in H.
  destruct (param q) as [[cause|] q'] eqn:E.
  - simplify_eq. exists cause, param, q. rewrite E. repeat split. left.
  - destruct (IH _ H) as (cause & p & q0 & Hin & Hp & ->).
    exists cause, p, q0. repeat split; [right; exact Hin | exact Hp].
Qed.

(** X13. [WithRequestQueryEncodableParams] changes nothing of a request but
    the raw query of its URL, and it never touches the readers. When one of
    the encoders fails it changes nothing at all, and the error it returns
    wraps the error of that encoder, which [errors.Is] still finds. *)
Theorem WithRequestQueryEncodableParams_touches_query_only
    (params : list ParamEncoder) (req : Request) (rs : list (list Byte.byte)) :
  let out := WithRequestQueryEncodableParams params req rs in
  out.2 = rs /\
  (exists q, out.1.2 = set_RawQuery req q) /\
  (forall err, out.1.1 = Some err ->
     out.1.2 = req /\
     exists cause param q0,
       param ∈ params /\ (param q0).1 = Some cause /\
       err = Wrap cause "failed to encode query params" /\
       errors_Is err cause = true).
Proof.
  cbn zeta. unfold WithRequestQueryEncodableParams.
  destruct (encodeParams params (URL_Query (RawQuery (ReqURL req)))) as [err | q'] eqn:E.
  - cbn. split; [reflexivity |]. split.
    + exists (RawQuery (ReqURL req)). destruct req as [m [sc ho pa rp rq] hd bd]. reflexivity.
    + intros err0 H. simplify_eq. split; [reflexivity |].
      destruct (encodeParams_inv _ _ _ E) as (cause & p & q0 & Hin & Hp & ->).
      exists cause, p, q0. repeat split; try assumption. apply errors_Is_Wrap_cause.
  - cbn. split; [reflexivity |]. split; [eexists; reflexivity | discriminate].
Qed.

Lemma keepsBody_WithRequestQueryEncodableParams (params : list ParamEncoder) :
  keepsBody (WithRequestQueryEncodableParams params).
Proof.
  intros r rs r' rs' H. unfold WithRequestQueryEncodableParams in H.
  destruct (encodeParams params _); simplify_eq. split; [reflexivity | tauto].
Qed.

Lemma keepsBody_WithRequestHeaders (headers : gmap string (list string)) :
  keepsBody (WithRequestHeaders headers).
Proof.
  intros r rs r' rs' H. unfold WithRequestHeaders in H. simplify_eq.
  split; [reflexivity | tauto].
Qed.

Context {Req Resp : Type} {C : Codec Req Resp}.

Lemma makeRequest_trace (ctx : Ctx) (req : RequestBuilder) (enc : option EncoderDecoder)
    (s : State) :
  trace_of (makeRequest ctx req enc s) = [] /\
  api (state_of (makeRequest ctx req enc s)) = api s /\
  world (state_of (makeRequest ctx req enc s)) = world s /\
  (forall err, result_of (makeRequest ctx req enc s) = inl err ->
     state_of (makeRequest ctx req enc s) = s).
Proof.
  unfold makeRequest.
  repeat case_match; cbn; repeat split; intros; congruence.
Qed.

(** A successful [makeRequest] and the body: the request handed to the
    options has the encoded payload as its body when the method is not GET
    and there are a payload and an encoder, and no body otherwise. *)
Lemma makeRequest_body_inv (ctx : Ctx) (req : RequestBuilder) (enc : option EncoderDecoder)
    (s : State) (httpReq : Request) :
  result_of (makeRequest ctx req enc s) = inr httpReq ->
  exists base rs,
    applyOptions (requestOptions req) base rs
      = inr (httpReq, readers (state_of (makeRequest ctx req enc s))) /\
    match negb (String.eqb (method req) "GET"), body req, enc with
    | true, Some payload, Some e =>
        exists bytes, encodeRequestPayload payload e = inr bytes /\
          Body base = Some (length (readers s)) /\ rs = readers s ++ [bytes]
    | _, _, _ => Body base = None /\ rs = readers s
    end.
Proof.
  unfold makeRequest, http_NewRequestWithContext.
  destruct (buildRequestURL (api s) (resourcePath req)) as [err | u]; [discriminate |].
  destruct (negb (validMethod _)); [discriminate |].
  destruct (url_Parse (URL_String u)) as [err | u']; [discriminate |].
  destruct (negb (String.eqb (method req) "GET")) eqn:Em, (body req) as [payload|] eqn:Eb,
    enc as [e|] eqn:Ee.
  1: destruct (encodeRequestPayload payload e) as [err | bytes] eqn:Ep; [discriminate |].
  all: match goal with
       | |- context [applyOptions ?o ?b ?r] =>
           destruct (applyOptions o b r) as [err | [httpReq3 rs3]] eqn:Eo; [discriminate |];
           intros H; cbn in H; simplify_eq; exists b, r; split; [exact Eo |]
       end.
  1: exists bytes; split; [reflexivity |].
  all: destruct (negb (size _ =? 0)%nat); cbn; split; reflexivity.
Qed.

(** Options that leave the method alone leave it alone together. *)
Lemma applyOptions_keeps_method (opts : list RequestOption) :
  (forall opt r rs r' rs', opt ∈ opts -> opt r rs = (None, r', rs') -> Method r' = Method r) ->
  forall req rs req' rs',
    applyOptions opts req rs = inr (req', rs') -> Method req' = Method req.
Proof.
  induction opts as [|opt opts IH]; intros Hkeep req rs req' rs' Happ.
  - cbn in Happ. congruence.
  - cbn [applyOptions] in Happ.
    destruct (opt req rs) as [[[err|] r1] rs1] eqn:E; [discriminate |].
    rewrite (IH (fun o r rs0 r' rs0' Hin => Hkeep o r rs0 r' rs0' (list_elem_of_further _ _ _ Hin))
               _ _ _ _ Happ).
    apply (Hkeep opt req rs r1 rs1); [left | exact E].
Qed.

(** A successful [makeRequest], the method and the body: the request
    handed to the options has the method of the descriptor, "GET" for the
    empty one as net/http has it, and has the encoded payload as its body
    when the method of the descriptor is not the string "GET" and there are
    a payload and an encoder, and no body otherwise. *)
Lemma makeRequest_method_body_inv (ctx : Ctx) (req : RequestBuilder)
    (enc : option EncoderDecoder) (s : State) (httpReq : Request) :
  result_of (makeRequest ctx req enc s) = inr httpReq ->
  exists base rs,
    applyOptions (requestOptions req) base rs
      = inr (httpReq, readers (state_of (makeRequest ctx req enc s))) /\
    Method base = (if String.eqb (method req) "" then "GET"%string else method req) /\
    match negb (String.eqb (method req) "GET"), body req, enc with
    | true, Some payload, Some e =>
        exists bytes, encodeRequestPayload payload e = inr bytes /\
          Body base = Some (length (readers s)) /\ rs = readers s ++ [bytes]
    | _, _, _ => Body base = None /\ rs = readers s
    end.
Proof.
  unfold makeRequest, http_NewRequestWithContext.
  destruct (buildRequestURL (api s) (resourcePath req)) as [err | u]; [discriminate |].
  destruct (negb (validMethod _)); [discriminate |].
  destruct (url_Parse (URL_String u)) as [err | u']; [discriminate |].
  destruct (negb (String.eqb (method req) "GET")) eqn:Em, (body req) as [payload|] eqn:Eb,
    enc as [e|] eqn:Ee.
  1: destruct (encodeRequestPayload payload e) as [err | bytes] eqn:Ep; [discriminate |].
  all: match goal with
       | |- context [applyOptions ?o ?b ?r] =>
           destruct (applyOptions o b r) as [err | [httpReq3 rs3]] eqn:Eo; [discriminate |];
           intros H; cbn in H; simplify_eq; exists b, r; split; [exact Eo |]
       end.
  all: split; [destruct (negb (size _ =? 0)%nat); reflexivity |].
  1: exists bytes; split; [reflexivity |].
  all: destruct (negb (size _ =? 0)%nat); cbn; split; reflexivity.
Qed.

(** X14. What keeps a payload out of a request is the method of the
    descriptor being the string "GET". Such a descriptor gives a GET
    request without a body, whatever payload it carries and whatever
    encoder is given; a descriptor with the empty method, for which net/http
    makes a GET request as well, gives a GET request whose body is the
    encoded payload. Both as long as the options of the call leave method
    and body alone. *)
Theorem makeRequest_GET_has_no_body (ctx : Ctx) (req : RequestBuilder)
    (enc : option EncoderDecoder) (s : State) (httpReq : Request) :
  Forall keepsBody (requestOptions req) ->
  (forall opt r rs r' rs', opt ∈ requestOptions req -> opt r rs = (None, r', rs') ->
     Method r' = Method r) ->
  result_of (makeRequest ctx req enc s) = inr httpReq ->
  (method req = "GET"%string -> Method httpReq = "GET"%string /\ Body httpReq = None) /\
  (method req = ""%string ->
     Method httpReq = "GET"%string /\
     forall payload e, body req = Some payload -> enc = Some e ->
       exists bytes h,
         encodeRequestPayload payload e = inr bytes /\ Body httpReq = Some h /\
         readers (state_of (makeRequest ctx req enc s)) !! h = Some bytes).
Proof.
  intros Hopts Hmeth Hmk.
  destruct (makeRequest_method_body_inv ctx req enc s httpReq Hmk)
    as (base & rs & Happ & Hm & Hbody).
  destruct (applyOptions_keeps_body _ Hopts _ _ _ _ Happ) as [Hk Hr].
  pose proof (applyOptions_keeps_method _ Hmeth _ _ _ _ Happ) as Hkm.
  split.
  - intros Hget. rewrite Hget in Hm, Hbody. cbn in Hm, Hbody. destruct Hbody as [Hb _].
    split; congruence.
  - intros Hempty. rewrite Hempty in Hm, Hbody. cbn in Hm, Hbody.
    split; [congruence |].
    intros payload e Hp He. rewrite Hp, He in Hbody.
    destruct Hbody as (bytes & Hb & Hbase & ->).
    exists bytes, (length (readers s)). split; [exact Hb |]. split; [congruence |].
    apply Hr. rewrite lookup_app_r by lia. rewrite Nat.sub_diag. reflexivity.
Qed.

(** X15. An option that sets a form body, given last, decides the body:
    the request that comes out has a body that holds the encoded form,
    whatever payload was encoded before it. *)
Theorem makeRequest_form_body_wins (ctx : Ctx) (req : RequestBuilder)
    (enc : option EncoderDecoder) (s : State) (httpReq : Request)
    (opts : list RequestOption) (form : gmap string (list string)) :
  requestOptions req = opts ++ [WithRequestForm form] ->
  result_of (makeRequest ctx req enc s) = inr httpReq ->
  exists h,
    Body httpReq = Some h /\
    readers (state_of (makeRequest ctx req enc s)) !! h
      = Some (String.list_byte_of_string (Values_Encode form)).
Proof.
  intros Hopts Hmk.
  destruct (makeRequest_body_inv ctx req enc s httpReq Hmk) as (base & rs & Happ & _).
  rewrite Hopts, applyOptions_app in Happ.
  destruct (applyOptions opts base rs) as [err | [r1 rs1]]; [discriminate |].
  cbn in Happ. injection Happ as <- <-.
  exists (length rs1). split; [reflexivity |].
  rewrite lookup_app_r by lia. rewrite Nat.sub_diag. reflexivity.
Qed.

End BuildExtras.

(** X13, a run: the second encoder fails. *)
Lemma WithRequestQueryEncodableParams_touches_query_only_witness :
  let out := @WithRequestQueryEncodableParams stubExternals
               [(fun q => (None, q)); failingParam] (stub_request None) [] in
  out.1.1 = Some (Wrap (Errorf "bad param") "failed to encode query params") /\
  out.1.2 = stub_request None /\
  exists cause param q0,
    param ∈ [(fun q => (None, q)); failingParam] /\ (param q0).1 = Some cause /\
    Wrap (Errorf "bad param") "failed to encode query params"
      = Wrap cause "failed to encode query params" /\
    errors_Is (Wrap (Errorf "bad param") "failed to encode query params") cause = true.
Proof.
  split; [reflexivity |].
  apply (proj2 (proj2 (@WithRequestQueryEncodableParams_touches_query_only stubExternals
                         [(fun q => (None, q)); failingParam] (stub_request None) []))).
  reflexivity.
Defined.

(** X14, a run: a descriptor with the empty method that carries a payload
    of one byte: the request is a GET request and its body holds the byte. *)
Lemma makeRequest_GET_has_no_body_witness :
  let req := {| resourcePath := "/fact"; method := ""; body := Some [Byte.x01];
                requestOptions := [WithRequestHeaders ∅]; errDecodeFn := None |} in
  let s := stub_state (stub_api 3 ∅) [] (stub_world 0 [] 200 None) in
  exists httpReq,
    result_of (@makeRequest stubExternals _ _ stubCodec (ctxToken 0) req (Some tt) s)
      = inr httpReq /\
    Method httpReq = "GET"%string /\
    exists bytes h,
      @encodeRequestPayload _ _ stubCodec [Byte.x01] tt = inr bytes /\
      Body httpReq = Some h /\
      readers (state_of (@makeRequest stubExternals _ _ stubCodec (ctxToken 0) req (Some tt) s))
        !! h = Some bytes.
Proof.
  cbn zeta. eexists. split; [reflexivity |].
  pose proof (proj2 (@makeRequest_GET_has_no_body stubExternals _ _ stubCodec (ctxToken 0)
           {| resourcePath := "/fact"; method := ""; body := Some [Byte.x01];
              requestOptions := [WithRequestHeaders ∅]; errDecodeFn := None |}
           (Some tt) (stub_state (stub_api 3 ∅) [] (stub_world 0 [] 200 None)) _
           ltac:(constructor; [apply keepsBody_WithRequestHeaders | constructor])
           ltac:(intros opt r rs r' rs' Hin Hopt; cbn in Hin;
                 apply list_elem_of_singleton in Hin; subst opt;
                 unfold WithRequestHeaders in Hopt; injection Hopt as <- _; reflexivity)
           eq_refl) eq_refl) as [Hm Hb].
  split; [exact Hm |]. exact (Hb [Byte.x01] tt eq_refl eq_refl).
Defined.

(** X15, a run: a POST with a payload and a form option. *)
Lemma makeRequest_form_body_wins_witness :
  let req := stub_post [Byte.x01] [WithRequestHeaders ∅; @WithRequestForm stubExternals ∅] in
  let s := stub_state (stub_api 3 ∅) [] (stub_world 0 [] 200 None) in
  exists httpReq h,
    result_of (@makeRequest stubExternals _ _ stubCodec (ctxToken 0) req (Some tt) s)
      = inr httpReq /\
    Body httpReq = Some h /\
    readers (state_of (@makeRequest stubExternals _ _ stubCodec (ctxToken 0) req (Some tt) s))
      !! h = Some (String.list_byte_of_string (@Values_Encode stubExternals ∅)).
Proof.
  cbn zeta. eexists.
  destruct (@makeRequest_form_body_wins stubExternals _ _ stubCodec (ctxToken 0)
              (stub_post [Byte.x01] [WithRequestHeaders ∅; @WithRequestForm stubExternals ∅])
              (Some tt) (stub_state (stub_api 3 ∅) [] (stub_world 0 [] 200 None))
              _ [WithRequestHeaders ∅] ∅ eq_refl eq_refl) as (h & Hb & Hr).
  exists h. split; [reflexivity | split; assumption].
Defined.


(** ** The logical call, end to end *)

Section CallExtras.
Context {X : Externals}.

(** [Wait] sends nothing and leaves all of the API object but the limiter. *)
Lemma limiter_Wait_frame (ctx : Ctx) (s : State) :
  sentBodies (trace_of (limiter_Wait ctx s)) = [] /\
  sentRequests (trace_of (limiter_Wait ctx s)) = [] /\
  countEvents isHttpDo (trace_of (limiter_Wait ctx s)) = 0%nat /\
  options (api (state_of (limiter_Wait ctx s))) = options (api s) /\
  retry (api (state_of (limiter_Wait ctx s))) = retry (api s) /\
  breaker (api (state_of (limiter_Wait ctx s))) = breaker (api s) /\
  readers (state_of (limiter_Wait ctx s)) = readers s.
Proof.
  unfold limiter_Wait.
  destruct (Wait_by_clock (limiter (api s)) ctx (world s)) as [_ Ht]. cbn zeta in Ht.
  destruct (Wait (limiter (api s)) ctx (world s)) as [[[err l'] w'] evs].
  unfold trace_of, state_of. cbn [fst snd] in *. subst evs.
  rewrite sentBodies_app, sentRequests_app, countEvents_app. cbn.
  assert (H : forall es, sentBodies (map resetCall es) = [] /\
                         sentRequests (map resetCall es) = [] /\
                         countEvents isHttpDo (map resetCall es) = 0%nat).
  { induction es as [|e es IH]; [repeat split |]. destruct e; cbn; exact IH. }
  destruct (_ <=? _); [| repeat split].
  destruct (H (nextResetEvents (limiter (api s)))) as (-> & -> & ->). repeat split.
Qed.

(** The transport calls of [performRequest] carry the bytes the body held
    and the headers the request had. *)
Lemma performRequest_sends (ctx : Ctx) (httpReq : Request) (s : State) :
  Forall (fun r => Header r = Header httpReq)
    (sentRequests (trace_of (performRequest ctx httpReq s))) /\
  (forall h data, Body httpReq = Some h -> readers s !! h = Some data ->
     Forall (fun b => b = Some data) (sentBodies (trace_of (performRequest ctx httpReq s)))).
Proof.
  destruct (retry (api s)) as [b|] eqn:Er.
  - rewrite (performRequest_retry ctx httpReq s b Er).
    pose proof (retryLoop_envelope (loopFuel b) ctx httpReq s) as He.
    pose proof (retryLoop_bodies (loopFuel b) ctx httpReq s) as Hb.
    destruct (retryLoop (loopFuel b) ctx httpReq s) as [[r s1] t].
    unfold trace_of in *. cbn [snd] in *. split.
    + eapply Forall_impl; [exact He |]. intros q (_ & _ & Hq). congruence.
    + intros h data H1 H2. exact (Hb h data H1 H2).
  - rewrite (performRequest_single ctx httpReq s Er).
    destruct (do ctx httpReq false s) as [[[out h'] s'] t] eqn:E.
    unfold trace_of. cbn [snd]. split.
    + destruct (do_calls _ _ _ _ _ _ _ _ E) as (_ & Hsent & _).
      eapply Forall_impl; [exact Hsent |]. intros q (_ & _ & Hq). congruence.
    + intros h data Hb Hd.
      apply do_inv in E. destruct E as (req & s1 & r & s2 & t2 & t3 & E1 & E2 & -> & E3).
      rewrite do_rehydrate_plain in E1. simplify_eq.
      apply do_call_inv in E2. destruct E2 as (_ & _ & Hsent & _).
      rewrite Hb in Hsent. cbn in Hsent. rewrite Hd in Hsent.
      assert (Ht3 : sentBodies t3 = []).
      { destruct r as [early | res].
        - destruct E3 as (_ & _ & ->). reflexivity.
        - apply do_finish_inv in E3. destruct E3 as (_ & H0 & _). exact H0. }
      rewrite sentBodies_app, Ht3, app_nil_r. exact Hsent.
Qed.

Context {Req Resp : Type} {C : Codec Req Resp}.

(** A run of [client_do], stage by stage. *)
Lemma client_do_run (afterResponse : list (option Response -> Resp -> option error * Resp))
    (ctx : Ctx) (req : RequestBuilder) (decode : bool) (enc : option EncoderDecoder)
    (s : State) :
  let waited := limiter_Wait ctx s in
  let made := makeRequest ctx req enc (state_of waited) in
  client_do afterResponse ctx req decode enc s =
    match result_of waited with
    | Some err => ((None, None, Some err), state_of waited, trace_of waited)
    | None =>
        match result_of made with
        | inl err => ((None, None, Some err), state_of made, trace_of waited)
        | inr httpReq =>
            let done := performRequest ctx httpReq (state_of made) in
            (match (result_of done).2 with
             | Some err => (None, None, Some err)
             | None => handleResponse afterResponse req decode enc (result_of done).1
             end, state_of done, trace_of waited ++ trace_of done)
        end
    end.
Proof.
  cbn zeta. unfold client_do. run_unfold.
  destruct (limiter_Wait ctx s) as [[waited s1] t1].
  unfold result_of, state_of, trace_of. cbn [fst snd].
  destruct waited as [err|]; [rewrite app_nil_r; reflexivity |].
  pose proof (makeRequest_trace ctx req enc s1) as (Ht & _).
  destruct (makeRequest ctx req enc s1) as [[made s2] t2].
  unfold trace_of in Ht. cbn [fst snd] in Ht |- *. subst t2.
  destruct made as [err | httpReq]; [rewrite app_nil_r; reflexivity |].
  destruct (performRequest ctx httpReq s2) as [[res s3] t3]. cbn [fst snd].
  destruct res.2; cbn; rewrite app_nil_r; reflexivity.
Qed.

(** X16. The body on the wire is the encoding of the payload: for a
    descriptor whose method is not GET, with a payload and an encoder, and
    with options that leave the body alone, every body the logical call
    hands to the transport, on the first attempt and on every retry, is
    exactly what the encoder made of the payload. *)
Theorem client_do_sends_encoded_payload
    (afterResponse : list (option Response -> Resp -> option error * Resp))
    (ctx : Ctx) (req : RequestBuilder) (decode : bool) (e : EncoderDecoder)
    (s : State) (payload : Req) (bytes : list Byte.byte) :
  String.eqb (method req) "GET" = false ->
  body req = Some payload ->
  encodeRequestPayload payload e = inr bytes ->
  Forall keepsBody (requestOptions req) ->
  Forall (fun b => b = Some bytes)
    (sentBodies (trace_of (client_do afterResponse ctx req decode (Some e) s))).
Proof.
  intros Hm Hb He Hopts.
  rewrite client_do_run. cbn zeta.
  destruct (limiter_Wait_frame ctx s) as (Hw & _ & _ & _ & _ & _ & Hrs).
  destruct (result_of (limiter_Wait ctx s)) as [err|].
  { unfold trace_of at 1. cbn [snd]. rewrite Hw. constructor. }
  set (s1 := state_of (limiter_Wait ctx s)) in *.
  destruct (result_of (makeRequest ctx req (Some e) s1)) as [err | httpReq] eqn:Emk.
  { unfold trace_of at 1. cbn [snd]. rewrite Hw. constructor. }
  unfold trace_of at 1. cbn [snd]. rewrite sentBodies_app, Hw. cbn [app].
  destruct (makeRequest_body_inv ctx req (Some e) s1 httpReq Emk) as (base & rs & Happ & Hbody).
  rewrite Hm, Hb in Hbody. cbn in Hbody.
  destruct Hbody as (bytes' & He' & Hbase & ->).
  assert (bytes' = bytes) by congruence. subst bytes'.
  destruct (applyOptions_keeps_body _ Hopts _ _ _ _ Happ) as [Hk Hr].
  destruct (performRequest_sends ctx httpReq (state_of (makeRequest ctx req (Some e) s1)))
    as [_ Hsend].
  apply (Hsend (length (readers s1)) bytes); [congruence |].
  apply Hr. rewrite lookup_app_r by lia. rewrite Nat.sub_diag. reflexivity.
Qed.

(** X17. An error in building the request (an address that does not parse,
    a method net/http refuses, a payload that does not encode, an option
    that fails) ends the call after the limiter has admitted it: the call
    returns that error with no response and no data, and the transport is
    not called. *)
Theorem client_do_build_error_sends_nothing
    (afterResponse : list (option Response -> Resp -> option error * Resp))
    (ctx : Ctx) (req : RequestBuilder) (decode : bool) (enc : option EncoderDecoder)
    (s : State) (err : error) :
  result_of (limiter_Wait ctx s) = None ->
  result_of (makeRequest ctx req enc (state_of (limiter_Wait ctx s))) = inl err ->
  let run := client_do afterResponse ctx req decode enc s in
  result_of run = (None, None, Some err) /\
  trace_of run = trace_of (limiter_Wait ctx s) /\
  sentRequests (trace_of run) = [] /\
  state_of run = state_of (limiter_Wait ctx s).
Proof.
  intros Hw Hmk. cbn zeta. rewrite client_do_run. cbn zeta. rewrite Hw, Hmk.
  unfold result_of at 1, trace_of at 1 3, state_of at 1. cbn [fst snd].
  destruct (limiter_Wait_frame ctx s) as (_ & Hr & _).
  destruct (makeRequest_trace ctx req enc (state_of (limiter_Wait ctx s))) as (_ & _ & _ & Hs).
  repeat split; [exact Hr | exact (Hs err Hmk)].
Qed.

(** X18. A default header reaches the wire: when the client's headers
    carry [k] with the value [v] and every option of the call leaves the
    request's value for [k] as it finds it, every request the logical call
    hands to the transport, on the first attempt and on every retry,
    carries [k] with the value [v]. *)
Theorem client_do_sends_default_header
    (afterResponse : list (option Response -> Resp -> option error * Resp))
    (ctx : Ctx) (req : RequestBuilder) (decode : bool) (enc : option EncoderDecoder)
    (s : State) (k : string) (v : list string) :
  Headers (options (api s)) !! k = Some v ->
  (forall opt r rs r' rs', opt ∈ requestOptions req -> opt r rs = (None, r', rs') ->
     Header r' !! k = Header r !! k) ->
  Forall (fun r => Header r !! k = Some v)
    (sentRequests (trace_of (client_do afterResponse ctx req decode enc s))).
Proof.
  intros Hk Hkeep.
  rewrite client_do_run. cbn zeta.
  destruct (limiter_Wait_frame ctx s) as (_ & Hw & _ & Ho & _).
  destruct (result_of (limiter_Wait ctx s)) as [err|].
  { unfold trace_of at 1. cbn [snd]. rewrite Hw. constructor. }
  set (s1 := state_of (limiter_Wait ctx s)) in *.
  destruct (result_of (makeRequest ctx req enc s1)) as [err | httpReq] eqn:Emk.
  { unfold trace_of at 1. cbn [snd]. rewrite Hw. constructor. }
  unfold trace_of at 1. cbn [snd]. rewrite sentRequests_app, Hw. cbn [app].
  destruct (makeRequest_inv ctx req enc s1 httpReq Emk) as (base & rs & Hbase & Happ & _).
  assert (Hsize : size (Headers (options (api s1))) <> 0%nat).
  { apply (map_size_ne_0_lookup_2 _ k). rewrite Ho, Hk. eexists. reflexivity. }
  apply Nat.eqb_neq in Hsize. rewrite Hsize in Hbase. cbn in Hbase.
  assert (Hh : Header httpReq !! k = Some v).
  { rewrite (applyOptions_keeps_header k _ Hkeep _ _ _ _ Happ), Hbase, Ho. exact Hk. }
  destruct (performRequest_sends ctx httpReq (state_of (makeRequest ctx req enc s1)))
    as [Hsend _].
  eapply Forall_impl; [exact Hsend |]. intros q Hq. cbn in Hq. rewrite Hq. exact Hh.
Qed.

(** The hooks of a list in two parts: the first part runs and, only if that
    gives no error, the second part runs on the data the first part left. *)
Lemma runAfterResponse_split
    (hooks1 hooks2 : list (option Response -> Resp -> option error * Resp))
    (resp : option Response) (data : Resp) :
  runAfterResponse (hooks1 ++ hooks2) resp data =
    match runAfterResponse hooks1 resp data with
    | inl err => inl err
    | inr data' => runAfterResponse hooks2 resp data'
    end.
Proof.
  revert data. induction hooks1 as [|h hooks1 IH]; intros data; [reflexivity |].
  cbn [app runAfterResponse].
  destruct (h resp data) as [[err|] d1]; [reflexivity | apply IH].
Qed.

(** X19. The hooks after the response run in the order given, each on the
    data the one before left, and the first error ends the run. When the
    hooks before [h] have run without error and left [d1], [h] is called on
    [d1]: if it gives no error and leaves [d2], the hooks after it run on
    [d2]; if it gives the error [e], the run ends there whatever hooks come
    after, and returns [e] wrapped as "after response exec failed", in
    which [errors.Is] still finds [e]. *)
Theorem runAfterResponse_runs_in_order
    (before after : list (option Response -> Resp -> option error * Resp))
    (h : option Response -> Resp -> option error * Resp)
    (resp : option Response) (data d1 : Resp) :
  runAfterResponse before resp data = inr d1 ->
  match h resp d1 with
  | (None, d2) =>
      runAfterResponse (before ++ [h]) resp data = inr d2 /\
      runAfterResponse (before ++ h :: after) resp data = runAfterResponse after resp d2
  | (Some e, _) =>
      runAfterResponse (before ++ h :: after) resp data
        = inl (Wrap e "after response exec failed") /\
      errors_Is (Wrap e "after response exec failed") e = true
  end.
Proof.
  intros Hb. rewrite !runAfterResponse_split, Hb. cbn [runAfterResponse].
  destruct (h resp d1) as [[e|] d2].
  - split; [reflexivity | apply errors_Is_Wrap_cause].
  - split; reflexivity.
Qed.

(** X20. A logical call never returns data together with an error. When
    the data is not nil, the error is nil, the error hook, if there is one,
    did not claim the response, and the data is what the hooks after the
    response made of the value decoded from the body of the response
    returned (or of the zero value, when no decoding was asked for or no
    codec was given). *)
Theorem client_do_data_only_without_error
    (afterResponse : list (option Response -> Resp -> option error * Resp))
    (ctx : Ctx) (req : RequestBuilder) (decode : bool) (enc : option EncoderDecoder)
    (s : State) (data : Resp) :
  let out := result_of (client_do afterResponse ctx req decode enc s) in
  out.1.2 = Some data ->
  out.2 = None /\
  match errDecodeFn req with Some fn => (fn out.1.1).1 = false | None => True end /\
  exists body,
    responseReader out.1.1 = inr body /\
    let decoded := match decode, enc with
                   | true, Some e => decodeResponse e body zeroResp
                   | _, _ => (None, zeroResp)
                   end in
    decoded.1 = None /\
    runAfterResponse afterResponse out.1.1 decoded.2 = inr data.
Proof.
  cbn zeta.
  pose proof (client_do_run afterResponse ctx req decode enc s) as Hrun. cbn zeta in Hrun.
  destruct (client_do afterResponse ctx req decode enc s) as [[[[resp d] e] s'] t].
  unfold result_of. cbn [fst snd]. intros ->.
  destruct (result_of (limiter_Wait ctx s)) as [err|]; [discriminate |].
  destruct (result_of (makeRequest ctx req enc _)) as [err | httpReq]; [discriminate |].
  cbn zeta in Hrun.
  destruct (result_of (performRequest ctx httpReq _)) as [presp perr].
  cbn [fst snd] in Hrun. destruct perr as [err|]; [discriminate |].
  injection Hrun as Hres _ _. symmetry in Hres.
  unfold handleResponse in Hres.
  destruct (responseReader presp) as [err | body] eqn:Erd; [discriminate |].
  set (decoded := match decode, enc with
                  | true, Some e0 => decodeResponse e0 body zeroResp
                  | _, _ => (None, zeroResp)
                  end) in *.
  assert (Hcore :
      match decoded with
      | (Some err, _) => (None, None, Some err)
      | (None, data0) =>
          match runAfterResponse afterResponse presp data0 with
          | inl err => (None, None, Some err)
          | inr data' => (presp, Some data', None)
          end
      end = (resp, Some data, e) ->
      e = None /\ resp = presp /\ decoded.1 = None /\
      runAfterResponse afterResponse presp decoded.2 = inr data).
  { destruct decoded as [[err'|] d0]; intros H; [discriminate |].
    destruct (runAfterResponse afterResponse presp d0) as [err' | d'] eqn:E; [discriminate |].
    simplify_eq. repeat split. exact E. }
  destruct (errDecodeFn req) as [fn|].
  - destruct (fn presp) as [[|] err] eqn:Efn; [discriminate |].
    destruct (Hcore Hres) as (-> & -> & Hd & Hh).
    split; [reflexivity |]. split; [rewrite Efn; reflexivity |].
    exists body. split; [exact Erd |]. split; assumption.
  - destruct (Hcore Hres) as (-> & -> & Hd & Hh).
    split; [reflexivity |]. split; [exact I |].
    exists body. split; [exact Erd |]. split; assumption.
Qed.

(** X21. A logical call leaves the breaker as it is and, when a retry
    controller is configured, leaves it configured with the same maximum,
    minimum and maximum wait and delay function: of the retry controller
    only the counter can differ after the call. *)
Theorem client_do_keeps_configuration
    (afterResponse : list (option Response -> Resp -> option error * Resp))
    (ctx : Ctx) (req : RequestBuilder) (decode : bool) (enc : option EncoderDecoder)
    (s : State) :
  match retry (api s) with
  | Some b => minInt64 <= attempts b /\ maxAttempts b <= maxInt64
  | None => True
  end ->
  let s' := state_of (client_do afterResponse ctx req decode enc s) in
  breaker (api s') = breaker (api s) /\
  match retry (api s) with
  | Some b => exists b', retry (api s') = Some b' /\ sameConfig b b'
  | None => retry (api s') = None
  end.
Proof.
  intros Hwf. cbn zeta.
  pose proof (client_do_run afterResponse ctx req decode enc s) as Hrun. cbn zeta in Hrun.
  destruct (limiter_Wait_frame ctx s) as (_ & _ & _ & _ & Hr & Hb & _).
  set (s1 := state_of (limiter_Wait ctx s)) in *.
  rewrite <- Hb, <- Hr. rewrite <- Hr in Hwf.
  assert (Hsame : forall b : backoff, sameConfig b b) by (intros b; repeat split).
  assert (Hstay : forall s', api s' = api s1 ->
            breaker (api s') = breaker (api s1) /\
            match retry (api s1) with
            | Some b => exists b', retry (api s') = Some b' /\ sameConfig b b'
            | None => retry (api s') = None
            end).
  { intros s' E. rewrite E. repeat split.
    destruct (retry (api s1)) as [b|]; [exists b; split; [reflexivity | apply Hsame] | reflexivity]. }
  destruct (client_do afterResponse ctx req decode enc s) as [[res s'] t].
  unfold state_of at 1 2 3. cbn [fst snd].
  destruct (result_of (limiter_Wait ctx s)) as [err|].
  { injection Hrun as _ -> _. apply Hstay. reflexivity. }
  destruct (makeRequest_trace ctx req enc s1) as (_ & Ha & _).
  destruct (result_of (makeRequest ctx req enc s1)) as [err | httpReq].
  { injection Hrun as _ -> _. apply Hstay. exact Ha. }
  cbn zeta in Hrun. injection Hrun as _ -> _.
  set (s2 := state_of (makeRequest ctx req enc s1)) in *.
  rewrite <- Ha in Hwf |- *.
  destruct (retry (api s2)) as [b|] eqn:Er.
  - rewrite (performRequest_retry ctx httpReq s2 b Er).
    destruct (retryLoop_shape (loopFuel b) ctx httpReq s2 b Er (proj1 Hwf) (proj2 Hwf))
      as (res' & b' & _ & Hb' & Hcfg & _ & Hbr' & _); [unfold loopFuel; lia |].
    destruct (retryLoop (loopFuel b) ctx httpReq s2) as [[r s3] t'].
    unfold state_of in Hb', Hbr' |- *. cbn [fst snd] in *.
    split; [exact Hbr' |]. exists b'. split; assumption.
  - rewrite (performRequest_single ctx httpReq s2 Er).
    pose proof (do_api ctx httpReq false s2) as Hd.
    destruct (do ctx httpReq false s2) as [[r s3] t'].
    unfold state_of in Hd |- *. cbn [fst snd] in *. rewrite Hd.
    repeat split. exact Er.
Qed.

End CallExtras.


(** X16, a run: a POST whose payload is one byte, answered 429 each time. *)
Lemma client_do_sends_encoded_payload_witness :
  let s := stub_state (stub_api 2 ∅) [] (stub_world 0 [] 429 None) in
  let run := @client_do stubExternals _ _ stubCodec [] (ctxToken 0)
               (stub_post [Byte.x2a] [WithRequestHeaders ∅]) true (Some tt) s in
  length (sentBodies (trace_of run)) = 3%nat /\
  Forall (fun b => b = Some [Byte.x2a]) (sentBodies (trace_of run)).
Proof.
  split; [reflexivity |].
  apply (@client_do_sends_encoded_payload stubExternals _ _ stubCodec [] (ctxToken 0)
           (stub_post [Byte.x2a] [WithRequestHeaders ∅]) true tt
           (stub_state (stub_api 2 ∅) [] (stub_world 0 [] 429 None)) [Byte.x2a] [Byte.x2a]).
  - reflexivity.
  - reflexivity.
  - reflexivity.
  - constructor; [apply keepsBody_WithRequestHeaders | constructor].
Defined.

(** X17, a run: an option that fails. *)
Lemma client_do_build_error_sends_nothing_witness :
  let s := stub_state (stub_api 2 ∅) [] (stub_world 0 [] 200 None) in
  let run := @client_do stubExternals _ _ stubCodec [] (ctxToken 0)
               (stub_builder [failingOption]) true (Some tt) s in
  result_of run = (None, None, Some (Errorf "option failed")) /\
  trace_of run = trace_of (@limiter_Wait stubExternals (ctxToken 0) s) /\
  sentRequests (trace_of run) = [] /\
  state_of run = state_of (@limiter_Wait stubExternals (ctxToken 0) s).
Proof.
  apply (@client_do_build_error_sends_nothing stubExternals _ _ stubCodec [] (ctxToken 0)
           (stub_builder [failingOption]) true (Some tt)
           (stub_state (stub_api 2 ∅) [] (stub_world 0 [] 200 None))
           (Errorf "option failed")); reflexivity.
Defined.

(** X18, a run: the default header "Authorization", three attempts. *)
Lemma client_do_sends_default_header_witness :
  let defaults : gmap string (list string) := {[ "Authorization"%string := ["token"%string] ]} in
  let s := stub_state (stub_api 2 defaults) [] (stub_world 0 [] 429 None) in
  let run := @client_do stubExternals _ _ stubCodec [] (ctxToken 0)
               (stub_builder [@WithRequestForm stubExternals ∅]) true (Some tt) s in
  length (sentRequests (trace_of run)) = 3%nat /\
  Forall (fun r => Header r !! "Authorization"%string = Some ["token"%string])
    (sentRequests (trace_of run)).
Proof.
  split; [reflexivity |].
  apply (@client_do_sends_default_header stubExternals _ _ stubCodec [] (ctxToken 0)
           (stub_builder [@WithRequestForm stubExternals ∅]) true (Some tt)
           (stub_state (stub_api 2 {[ "Authorization"%string := ["token"%string] ]}) []
              (stub_world 0 [] 429 None))
           "Authorization"%string ["token"%string]).
  - reflexivity.
  - intros opt r rs r' rs' Hin Hopt. cbn in Hin.
    apply list_elem_of_singleton in Hin. subst opt.
    unfold WithRequestForm in Hopt. injection Hopt as <- _. reflexivity.
Defined.

(** X19, a run: a hook that adds a byte, a hook that fails, and a hook
    after it that is never reached. *)
Lemma runAfterResponse_runs_in_order_witness :
  @runAfterResponse (list Byte.byte)
      ([appendHook Byte.x07] ++ failingHook :: [appendHook Byte.x08]) None []
    = inl (Wrap (Errorf "hook failed") "after response exec failed") /\
  errors_Is (Wrap (Errorf "hook failed") "after response exec failed") (Errorf "hook failed")
    = true.
Proof.
  exact (@runAfterResponse_runs_in_order (list Byte.byte) [appendHook Byte.x07]
           [appendHook Byte.x08] failingHook None [] [Byte.x07] eq_refl).
Defined.

(** X20, a run: the answer is 200 with an empty body, and one hook adds a
    byte to the decoded data. *)
Lemma client_do_data_only_without_error_witness :
  let s := stub_state (stub_api 2 ∅) [] (stub_world 0 [] 200 None) in
  let out := result_of (@client_do stubExternals _ _ stubCodec [appendHook Byte.x07]
                          (ctxToken 0) (stub_builder []) true (Some tt) s) in
  out.1.2 = Some [Byte.x07] /\
  out.2 = None /\
  exists body,
    @responseReader _ _ stubCodec out.1.1 = inr body /\
    (@decodeResponse _ _ stubCodec tt body []).1 = None /\
    runAfterResponse [appendHook Byte.x07] out.1.1
      (@decodeResponse _ _ stubCodec tt body []).2 = inr [Byte.x07].
Proof.
  cbn zeta. split; [reflexivity |].
  pose proof (@client_do_data_only_without_error stubExternals _ _ stubCodec
                [appendHook Byte.x07] (ctxToken 0) (stub_builder []) true (Some tt)
                (stub_state (stub_api 2 ∅) [] (stub_world 0 [] 200 None)) [Byte.x07]) as H.
  cbn zeta in H. destruct (H eq_refl) as (He & _ & body & Hb & Hd & Hh).
  split; [exact He |]. exists body. split; [exact Hb |]. split; [exact Hd | exact Hh].
Defined.

(** X21, a run: three answers 429, 429, 200. *)
Lemma client_do_keeps_configuration_witness :
  let s := stub_state (stub_api 3 ∅) [] (stub_world 0 [429; 429; 200] 500 None) in
  let s' := state_of (@client_do stubExternals _ _ stubCodec [] (ctxToken 0)
                        (stub_builder []) true (Some tt) s) in
  breaker (api s') = breaker (api s) /\
  exists b', retry (api s') = Some b' /\ sameConfig (stub_backoff 3 0) b'.
Proof.
  apply (@client_do_keeps_configuration stubExternals _ _ stubCodec [] (ctxToken 0)
           (stub_builder []) true (Some tt)
           (stub_state (stub_api 3 ∅) [] (stub_world 0 [429; 429; 200] 500 None))).
  vm_compute. split; discriminate.
Defined.


(** ** The default delay function: the cap and the zero minimum *)

Section DelayExtras.
Context {X : Externals}.

(** X22. While every number involved is an integer that float64 holds
    exactly ([min * 2^n + min * n] at most [2^53], [n] at most 1023): once
    [min * 2^n] alone is above [max], the delay returned is exactly [max],
    whatever the draw; and while [min * 2^n + min * n] is at most [max],
    the delay returned is not capped and lies between [min * 2^n] and
    [min * 2^n + min * n]. *)
Theorem ExponentalBackoff_capped_or_exponential
    (rnd : Q) (n : Z) (min max : Duration) :
  (0 <= rnd)%Q -> (rnd < 1)%Q -> 0 <= n <= 1023 -> 0 <= min ->
  min * 2 ^ n + min * n <= 2 ^ 53 ->
  (max < min * 2 ^ n -> ExponentalBackoff_with rnd n min max = max) /\
  (min * 2 ^ n + min * n <= max ->
     min * 2 ^ n <= ExponentalBackoff_with rnd n min max <= min * 2 ^ n + min * n).
Proof.
  intros Hr0 Hr1 Hn Hmin Hfit.
  pose proof (ExponentalBackoff_delay_bounds rnd n min Hr0 Hr1 Hn Hmin Hfit) as Hd.
  unfold ExponentalBackoff_with. cbn zeta.
  split; intros Hc.
  - destruct (Z.gtb_spec (ExponentalBackoff_delay rnd n min) max); [reflexivity | lia].
  - destruct (Z.gtb_spec (ExponentalBackoff_delay rnd n min) max); [lia | exact Hd].
Qed.

(** X23. With a minimum wait of zero there is no backoff: for every attempt
    number (up to 1023, where [2^n] is still a finite float64), every draw
    and every maximum that is not negative, the delay is zero. *)
Theorem ExponentalBackoff_zero_minimum (rnd : Q) (n : Z) (max : Duration) :
  n <= 1023 -> 0 <= max -> ExponentalBackoff_with rnd n 0 max = 0.
Proof.
  intros Hn Hmax. unfold ExponentalBackoff_with, ExponentalBackoff_delay. cbn zeta.
  destruct (math_Pow2_finite n Hn) as (p & ->).
  destruct (float64_of_int_exact 0) as (q0 & -> & Hq0); [lia |].
  destruct (fmul_zero_r p q0 Hq0) as (r1 & -> & Hr1).
  destruct (fmul_zero_r rnd q0 Hq0) as (r2 & -> & Hr2).
  assert (Hfin : exists qn, float64_of_int n = Fin64 qn) by (eexists; reflexivity).
  destruct Hfin as (qn & ->).
  destruct (fmul_zero_l r2 qn Hr2) as (r3 & -> & Hr3).
  rewrite !Duration_of_float64_small;
    rewrite ?(Qtrunc_inject_nonneg r1 0 ltac:(lia) Hr1), ?(Qtrunc_inject_nonneg r3 0 ltac:(lia) Hr3);
    try (unfold minInt64, maxInt64; lia).
  change (wrap64 (0 + 0)) with 0.
  destruct (Z.gtb_spec 0 max); [lia | reflexivity].
Qed.

End DelayExtras.

(** X22, a run: a minimum of one second; a maximum of two seconds caps
    attempt 2, a maximum of ten seconds does not. *)
Lemma ExponentalBackoff_capped_or_exponential_witness :
  @ExponentalBackoff_with stubExternals (1 # 2) 2 second (2 * second) = 2 * second /\
  (second * 2 ^ 2 <= @ExponentalBackoff_with stubExternals (1 # 2) 2 second (10 * second)
     <= second * 2 ^ 2 + second * 2).
Proof.
  split.
  - apply (proj1 (@ExponentalBackoff_capped_or_exponential stubExternals (1 # 2) 2 second
                    (2 * second) ltac:(vm_compute; discriminate) ltac:(vm_compute; reflexivity)
                    ltac:(vm_compute; split; discriminate) ltac:(vm_compute; discriminate)
                    ltac:(vm_compute; discriminate))).
    vm_compute. reflexivity.
  - apply (proj2 (@ExponentalBackoff_capped_or_exponential stubExternals (1 # 2) 2 second
                    (10 * second) ltac:(vm_compute; discriminate) ltac:(vm_compute; reflexivity)
                    ltac:(vm_compute; split; discriminate) ltac:(vm_compute; discriminate)
                    ltac:(vm_compute; discriminate))).
    vm_compute. discriminate.
Defined.

(** X23, a run: attempt 5 with a maximum of two seconds. *)
Lemma ExponentalBackoff_zero_minimum_witness :
  @ExponentalBackoff_with stubExternals (3 # 4) 5 0 (2 * second) = 0.
Proof.
  apply (@ExponentalBackoff_zero_minimum stubExternals (3 # 4) 5 (2 * second));
    vm_compute; discriminate.
Defined.

(** ** Construction *)

Section ConstructionExtras.
Context {X : Externals}.

Lemma NewAPI_options (opts : list (Options -> Options)) :
  options (NewAPI opts) = fold_left (fun o opt => opt o) opts emptyOptions.
Proof. reflexivity. Qed.

(** X24. The header options apply in the order given and the later one
    wins: [WithHeader] as the last option sets its key to its one value and
    leaves every other header as the options before it made them, and
    [WithHeaderSet] as the last option replaces all of them by its map. *)
Theorem NewAPI_later_header_option_wins (opts : list (Options -> Options))
    (k v : string) (h : gmap string (list string)) :
  Headers (options (NewAPI (opts ++ [WithHeader k v]))) !! k = Some [v] /\
  (forall k', k' <> k ->
     Headers (options (NewAPI (opts ++ [WithHeader k v]))) !! k'
       = Headers (options (NewAPI opts)) !! k') /\
  Headers (options (NewAPI (opts ++ [WithHeaderSet h]))) = h.
Proof.
  rewrite !NewAPI_options, !fold_left_app. cbn [fold_left WithHeader WithHeaderSet setHeaders Headers].
  split; [apply lookup_insert_eq |]. split; [| reflexivity].
  intros k' Hne. apply lookup_insert_ne. congruence.
Qed.

(** X25. The breaker's timeout does not overflow: for every number of
    seconds a [uint32] holds, the timeout handed to gobreaker is that many
    seconds in nanoseconds, within the range of [time.Duration]. *)
Theorem newCircuitBreaker_timeout_fits (cbOption : OptionCircuitBreaker) :
  0 <= BreakerTimeOutInSeconds cbOption < 2 ^ 32 ->
  exists st,
    Breaker (newCircuitBreaker cbOption) = Some st /\
    stTimeout st = BreakerTimeOutInSeconds cbOption * second /\
    0 <= stTimeout st <= maxInt64.
Proof.
  intros Hs. unfold newCircuitBreaker. eexists. split; [reflexivity |].
  cbn [stTimeout]. unfold second, maxInt64 in *.
  rewrite wrap64_small by (unfold minInt64, maxInt64; lia). lia.
Qed.

Context {Req Resp : Type} {C : Codec Req Resp}.

(** X26. The budget of a fresh client: on an API as [NewAPI] builds it
    with a retry option, the first logical call makes at most
    [MaxAttempts + 1] transport attempts, whatever the transport answers. *)
Theorem fresh_client_attempt_budget
    (afterResponse : list (option Response -> Resp -> option error * Resp))
    (ctx : Ctx) (req : RequestBuilder) (decode : bool) (enc : option EncoderDecoder)
    (opts : list (Options -> Options)) (r : OptionRetry)
    (rs : list (list Byte.byte)) (w : World) :
  Retry (options (NewAPI opts)) = Some r ->
  MaxAttempts r <= maxInt64 ->
  let s := {| api := NewAPI opts; readers := rs; world := w |} in
  (countEvents (isAttemptStart (has_breaker (api s)))
     (trace_of (client_do afterResponse ctx req decode enc s))
   <= S (Z.to_nat (MaxAttempts r)))%nat.
Proof.
  intros Hr Hmax. cbn zeta.
  set (s := {| api := NewAPI opts; readers := rs; world := w |}).
  set (b0 := {| minWaitTime := MinWaitTime r; maxWaitTime := MaxWaitTime r;
                maxAttempts := MaxAttempts r; attempts := 0; f := Fn r |}).
  assert (Hb : retry (api s) = Some b0).
  { cbn [s api]. unfold NewAPI. cbn [retry].
    change (fold_left (fun o opt => opt o) opts emptyOptions) with (options (NewAPI opts)).
    rewrite Hr. reflexivity. }
  rewrite client_do_run. cbn zeta.
  destruct (limiter_Wait_trace ctx s) as (pre & Hpre & Hp1 & Hp2).
  destruct (limiter_Wait_frame ctx s) as (_ & _ & _ & Ho & Hrt & Hbr & _).
  assert (Hw0 : countEvents (isAttemptStart (has_breaker (api s)))
                  (trace_of (limiter_Wait ctx s)) = 0%nat).
  { rewrite Hpre, countEvents_app. cbn [countEvents].
    destruct (has_breaker (api s));
      [change (isAttemptStart true) with isBreakerBefore; rewrite Hp2
      | change (isAttemptStart false) with isHttpDo; rewrite Hp1]; reflexivity. }
  destruct (result_of (limiter_Wait ctx s)) as [err|].
  { unfold trace_of at 1. cbn [snd]. rewrite Hw0. lia. }
  set (s1 := state_of (limiter_Wait ctx s)) in *.
  destruct (makeRequest_trace ctx req enc s1) as (_ & Ha & _).
  destruct (result_of (makeRequest ctx req enc s1)) as [err | httpReq].
  { unfold trace_of at 1. cbn [snd]. rewrite Hw0. lia. }
  unfold trace_of at 1. cbn [snd]. rewrite countEvents_app, Hw0. cbn [Nat.add].
  set (s2 := state_of (makeRequest ctx req enc s1)) in *.
  assert (Hb2 : retry (api s2) = Some b0) by congruence.
  assert (Hhb : has_breaker (api s2) = has_breaker (api s))
    by (unfold has_breaker; rewrite Ha, Hbr; reflexivity).
  rewrite (performRequest_retry ctx httpReq s2 b0 Hb2).
  destruct (retryLoop_shape (loopFuel b0) ctx httpReq s2 b0 Hb2)
    as (res & b' & _ & _ & _ & _ & _ & _ & Hc & Hs & _);
    [cbn; unfold minInt64; lia | exact Hmax | unfold loopFuel; lia |].
  destruct (retryLoop (loopFuel b0) ctx httpReq s2) as [[r0 s3] t].
  unfold trace_of in *. cbn [snd] in *. rewrite Hhb in Hc. rewrite Hc.
  cbn [b0 maxAttempts attempts] in Hs. rewrite Z.sub_0_r in Hs. lia.
Qed.

End ConstructionExtras.

(** X25, a run: the timeout of ten seconds of the package's example. *)
Lemma newCircuitBreaker_timeout_fits_witness :
  exists st,
    Breaker (newCircuitBreaker {| Name := "main-breaker"; ConsecutiveFailuresLimit := 3;
                                  BreakerTimeOutInSeconds := 10 |}) = Some st /\
    stTimeout st = 10 * second /\
    0 <= stTimeout st <= maxInt64.
Proof.
  apply (newCircuitBreaker_timeout_fits
           {| Name := "main-breaker"; ConsecutiveFailuresLimit := 3;
              BreakerTimeOutInSeconds := 10 |}).
  vm_compute. split; [discriminate | reflexivity].
Defined.

(** X26, a run: the client of the package's example, three attempts. *)
Lemma fresh_client_attempt_budget_witness :
  let opts := [@WithBaseURL stubExternals "https://api.example.com/v1";
               @WithRetry stubExternals 3 1 2 (Some (constantDelay 5)) [isTooManyRequests]] in
  let s := {| api := @NewAPI stubExternals opts; readers := [];
              world := stub_world 0 [] 429 None |} in
  (countEvents (isAttemptStart (has_breaker (api s)))
     (trace_of (@client_do stubExternals _ _ stubCodec [] (ctxToken 0) (stub_builder [])
                  true (Some tt) s))
   <= S (Z.to_nat 3))%nat.
Proof.
  apply (@fresh_client_attempt_budget stubExternals _ _ stubCodec [] (ctxToken 0)
           (stub_builder []) true (Some tt)
           [@WithBaseURL stubExternals "https://api.example.com/v1";
            @WithRetry stubExternals 3 1 2 (Some (constantDelay 5)) [isTooManyRequests]]
           {| MaxAttempts := 3; MinWaitTime := 1; MaxWaitTime := 2;
              Conditions := [isTooManyRequests]; Fn := constantDelay 5 |}
           [] (stub_world 0 [] 429 None)).
  - reflexivity.
  - vm_compute. discriminate.
Defined.


(** ** The sleeps of a call *)

Section SleepExtras.
Context {X : Externals}.

Lemma sleeps_app (t1 t2 : list Event) : sleeps (t1 ++ t2) = sleeps t1 ++ sleeps t2.
Proof.
  induction t1 as [|e t1 IH]; [reflexivity |].
  destruct e; cbn [app sleeps]; rewrite IH; reflexivity.
Qed.

Lemma do_sleeps (ctx : Ctx) (httpReq : Request) (reuse : bool) (s : State) :
  sleeps (trace_of (do ctx httpReq reuse s)) = [].
Proof.
  destruct (do ctx httpReq reuse s) as [[[out h'] s'] t] eqn:E. unfold trace_of. cbn [snd].
  apply do_inv in E. destruct E as (req & s1 & r & s2 & t2 & t3 & _ & E2 & -> & E3).
  assert (H2 : sleeps t2 = []).
  { revert E2. unfold do_call, breaker_Execute, guardedDo, breaker_before, breaker_after,
      client_Do. run_unfold.
    destruct (has_breaker (api s1)).
    - destruct (breaker_beforeRequest (world s1)) as [[err|] w'].
      + intros H. simplify_eq. reflexivity.
      + cbn. destruct (httpClient_Do ctx req _ w') as [res w2].
        intros H. simplify_eq. reflexivity.
    - destruct (httpClient_Do ctx req _ (world s1)) as [res w2].
      intros H. simplify_eq. reflexivity. }
  assert (H3 : sleeps t3 = []).
  { destruct r as [early | res].
    - destruct E3 as (_ & _ & ->). reflexivity.
    - revert E3. unfold do_finish. run_unfold. intros H.
      repeat case_match; simplify_eq; reflexivity. }
  rewrite sleeps_app, H2, H3. reflexivity.
Qed.

(** Every duration the loop sleeps is an answer of the delay function to
    the controller's minimum and maximum wait, and is not [stopBackoff]. *)
Lemma retryLoop_sleeps (fuel : nat) (ctx : Ctx) (httpReq : Request) (s : State) (b : backoff) :
  retry (api s) = Some b ->
  Forall (fun d => d <> stopBackoff /\
                   exists n w, d = (f b n (minWaitTime b) (maxWaitTime b) w).1)
    (sleeps (trace_of (retryLoop fuel ctx httpReq s))).
Proof.
  revert httpReq s b. induction fuel as [|fuel IH]; intros httpReq s b Hb; [constructor |].
  rewrite retryLoop_S.
  pose proof (do_api ctx httpReq true s) as Hapi.
  pose proof (do_sleeps ctx httpReq true s) as Hds.
  destruct (do ctx httpReq true s) as [[[res httpReq'] s1] t1].
  unfold state_of, trace_of in Hapi, Hds. cbn [fst snd] in Hapi, Hds.
  destruct (isMatchedCond (retryConditions (api s1)) res).
  2:{ unfold trace_of. cbn [snd]. rewrite Hds. constructor. }
  destruct (retry_Next s1) as [[d s2] t2] eqn:En.
  destruct (retry_Next_inv s1 b d s2 t2) as (b1 & w' & HN & Hb1 & _); [congruence | exact En |].
  pose proof (Next_sameConfig b (world s1)) as Hcfg. rewrite HN in Hcfg. cbn in Hcfg.
  destruct Hcfg as (_ & Hc2 & Hc3 & Hc4).
  assert (Hd : sleeps t2 = [] /\
               (d = stopBackoff \/
                exists n w, d = (f b n (minWaitTime b) (maxWaitTime b) w).1)).
  { unfold Next in HN. destruct (attempts b >=? maxAttempts b).
    - simplify_eq. split; [reflexivity | left; reflexivity].
    - cbn zeta in HN. cbn [set_attempts attempts minWaitTime maxWaitTime f] in HN.
      destruct (f b _ _ _ _) as [d0 w0] eqn:Ef. simplify_eq.
      split; [reflexivity |]. right. eexists _, _. rewrite Ef. reflexivity. }
  destruct Hd as [Ht2 Hd].
  destruct (d =? stopBackoff) eqn:Ed.
  - pose proof (retry_Reset_frame s2) as [_ Ht3].
    destruct (retry_Reset s2) as [[n s3] t3]. unfold trace_of in *. cbn [snd] in *. subst t3.
    rewrite !sleeps_app, Hds, Ht2. constructor.
  - specialize (IH httpReq' (set_world s2 (time_Sleep d (world s2))) b1 Hb1).
    destruct (retryLoop fuel ctx httpReq' _) as [[r s4] t4].
    unfold trace_of in *. cbn [snd] in *.
    rewrite !sleeps_app, Hds, Ht2. cbn [sleeps app].
    constructor.
    + apply Z.eqb_neq in Ed. split; [exact Ed |].
      destruct Hd as [-> | Hd]; [contradiction | exact Hd].
    + eapply Forall_impl; [exact IH |]. intros d' [Hne (n & w & ->)].
      split; [exact Hne |]. exists n, w. rewrite Hc2, Hc3, Hc4. reflexivity.
Qed.

(** X12. With the default delay function, a call never sleeps longer than
    the maximum wait between two attempts. *)
Theorem performRequest_sleeps_at_most_maximum
    (ctx : Ctx) (httpReq : Request) (s : State) (b : backoff) :
  retry (api s) = Some b -> f b = ExponentalBackoff ->
  Forall (fun d => d <= maxWaitTime b) (sleeps (trace_of (performRequest ctx httpReq s))).
Proof.
  intros Hb Hf.
  rewrite (performRequest_retry ctx httpReq s b Hb).
  pose proof (retryLoop_sleeps (loopFuel b) ctx httpReq s b Hb) as H.
  destruct (retryLoop (loopFuel b) ctx httpReq s) as [[r s1] t].
  unfold trace_of in *. cbn [snd] in *.
  eapply Forall_impl; [exact H |]. intros d [_ (n & w & ->)].
  rewrite Hf. unfold ExponentalBackoff.
  destruct (rand_Float64 w) as [rnd w']. cbn [fst].
  apply ExponentalBackoff_with_le_max.
Qed.

End SleepExtras.

(** X12, a run: waits between one and two seconds, answers 429. *)
Lemma performRequest_sleeps_at_most_maximum_witness :
  let a := @NewAPI stubExternals
             [@WithBaseURL stubExternals "https://api.example.com/v1";
              @WithRetry stubExternals 2 second (3 * second) None [isTooManyRequests]] in
  let s := stub_state a [] (stub_world 0 [] 429 None) in
  let t := trace_of (@performRequest stubExternals (ctxToken 0) (stub_request None) s) in
  sleeps t = [2500000000; 3000000000] /\
  Forall (fun d => d <= 3 * second) (sleeps t).
Proof.
  split; [vm_compute; reflexivity |].
  apply (@performRequest_sleeps_at_most_maximum stubExternals (ctxToken 0) (stub_request None)
           (stub_state
              (@NewAPI stubExternals
                 [@WithBaseURL stubExternals "https://api.example.com/v1";
                  @WithRetry stubExternals 2 second (3 * second) None [isTooManyRequests]])
              [] (stub_world 0 [] 429 None))
           {| minWaitTime := second; maxWaitTime := 3 * second; maxAttempts := 2;
              attempts := 0; f := ExponentalBackoff |}); reflexivity.
Defined.
